(** * Answer-span localisation and paragraph selection of the LES MRC pipeline

    A shallow embedding of [preprocess/3.gen_mrc_dataset.py] and
    [preprocess/3.extract_paragraph.py], and of loops of the neighbouring
    stages [preprocess/1.text_cleaning.py],
    [preprocess/2.2.gen_match_features.py] and
    [preprocess/5.1.gen_text_features.py].

    Python values are modelled as follows.
    - [str] is a list of Unicode code points ([N]); [len], indexing and
      slicing count code points, as Python 3 does.
    - Integers are [Z]; the sentinel [-1] and negative slice bounds keep their
      Python meaning ([py_index], [py_slice]).
    - Scores (Python floats produced by the external Rouge-L / F1 / BLEU
      scorers) are rationals [Q]; the scorers themselves are parameters.
    - JSON objects are [gmap string json]; the order in which a loop takes
      the keys of a dict, which a [gmap] does not record, is a parameter.
    - A raised exception is the [Raise] case of [result]. *)

From Stdlib Require Import QArith DecimalString.
From stdpp Require Import gmap strings list fin_maps sorting.

Set Warnings "-register-all".
Set Default Proof Using "Type".
Open Scope Z_scope.

(** ** Python built-ins *)

Module Py.

Definition char := N.
Definition str := list char.

(** ASCII literals of the source, as code points. *)
Definition lit (s : string) : str :=
  (λ a, Ascii.N_of_ascii a) <$> String.list_ascii_of_string s.

Definition py_len {A} (l : list A) : Z := Z.of_nat (length l).

(** [l[i]]: a negative index counts from the end; [None] is IndexError. *)
Definition py_index {A} (l : list A) (i : Z) : option A :=
  if 0 <=? i then l !! Z.to_nat i
  else if - py_len l <=? i then l !! Z.to_nat (i + py_len l)
  else None.

(** Normalisation of one slice bound, as [slice.indices] does for step 1. *)
Definition slice_bound (n i : Z) : Z :=
  if i <? 0 then Z.max 0 (i + n) else Z.min i n.

(** [l[a:b]] *)
Definition py_slice {A} (l : list A) (a b : Z) : list A :=
  let a' := slice_bound (py_len l) a in
  let b' := slice_bound (py_len l) b in
  take (Z.to_nat (b' - a')) (drop (Z.to_nat a') l).

(** [l[:b]] *)
Definition py_slice_to {A} (l : list A) (b : Z) : list A := py_slice l 0 b.

(** [range(a, b)] and [range(a, b, -1)] *)
Definition range (a b : Z) : list Z :=
  (λ k, a + Z.of_nat k) <$> seq 0 (Z.to_nat (b - a)).

Definition range_down (a b : Z) : list Z :=
  (λ k, a - Z.of_nat k) <$> seq 0 (Z.to_nat (a - b)).

(** [enumerate(l)] *)
Definition enumerate {A} (l : list A) : list (nat * A) :=
  zip (seq 0 (length l)) l.

(** [s.startswith(sub)] *)
Fixpoint startswith (sub s : str) : bool :=
  match sub, s with
  | [], _ => true
  | _ :: _, [] => false
  | a :: sub', b :: s' => (a =? b)%N && startswith sub' s'
  end.

(** [s.find(sub)]: offset of the first occurrence.  [sub in s] is
    [str_in sub s]; when it holds, [s.index(sub)] is the offset found. *)
Fixpoint str_find (sub s : str) : option nat :=
  match s with
  | [] => if startswith sub [] then Some 0%nat else None
  | _ :: s' => if startswith sub s then Some 0%nat else S <$> str_find sub s'
  end.

Definition str_in (sub s : str) : bool :=
  match str_find sub s with Some _ => true | None => false end.

(** [s.endswith(c)] for a one-character suffix *)
Definition endswith_char (s : str) (c : char) : bool :=
  match last s with Some d => (d =? c)%N | None => false end.

(** [s.replace(old, new)] for a non-empty [old]: occurrences are taken left
    to right and do not overlap; [skip] counts the characters of the current
    occurrence still to be passed. *)
Fixpoint replace_go (old new : str) (skip : nat) (s : str) : str :=
  match s with
  | [] => []
  | c :: s' =>
    match skip with
    | S k => replace_go old new k s'
    | O =>
      if startswith old s then new ++ replace_go old new (length old - 1) s'
      else c :: replace_go old new 0 s'
    end
  end.

Definition str_replace (old new s : str) : str := replace_go old new 0 s.

(** [s.split(sep)] for a non-empty [sep] *)
Fixpoint split_go (sep : str) (skip : nat) (cur s : str) : list str :=
  match s with
  | [] => [cur]
  | c :: s' =>
    match skip with
    | S k => split_go sep k cur s'
    | O =>
      if startswith sep s then cur :: split_go sep (length sep - 1) [] s'
      else split_go sep 0 (cur ++ [c]) s'
    end
  end.

Definition str_split (sep s : str) : list str := split_go sep 0 [] s.

(** [list.sort]: a stable sort that compares with [<] only.  [x] precedes
    the elements of [l] in the list being sorted. *)
Fixpoint insert_sorted {A} (lt : A → A → bool) (x : A) (l : list A) : list A :=
  match l with
  | [] => [x]
  | y :: l' => if lt y x then y :: insert_sorted lt x l' else x :: y :: l'
  end.

Fixpoint py_sort {A} (lt : A → A → bool) (l : list A) : list A :=
  match l with
  | [] => []
  | x :: l' => insert_sorted lt x (py_sort lt l')
  end.

(** [''.join(parts)] *)
Definition str_join (parts : list str) : str := concat parts.

(** Decimal rendering of an int, as ['{}'.format(n)] gives it. *)
Definition str_of_int (n : Z) : str :=
  lit (NilZero.string_of_int (Z.to_int n)).

(** Exceptions of the modelled code. *)
Inductive exn := KeyError | IndexError | TypeError | ValueError.

Inductive result (A : Type) :=
| Ok (a : A)
| Raise (e : exn).
Arguments Ok {A} a.
Arguments Raise {A} e.

Definition bind {A B} (r : result A) (k : A → result B) : result B :=
  match r with Ok a => k a | Raise e => Raise e end.

Definition of_option {A} (e : exn) (o : option A) : result A :=
  match o with Some a => Ok a | None => Raise e end.

(** A [for] loop whose body may raise. *)
Fixpoint for_each {A S} (body : S → A → result S) (l : list A) (s : S)
  : result S :=
  match l with
  | [] => Ok s
  | x :: l' => bind (body s x) (for_each body l')
  end.

(** A comprehension whose element expression may raise. *)
Fixpoint map_result {A B} (f : A → result B) (l : list A) : result (list B) :=
  match l with
  | [] => Ok []
  | x :: l' => bind (f x) (λ y, bind (map_result f l') (λ ys, Ok (y :: ys)))
  end.

End Py.
Export Py.

(** Sequencing of statements that may raise. *)
Notation "'let*' x ':=' r 'in' k" := (bind r (λ x, k))
  (at level 10, x name, r at level 100, k at level 200).
Notation "'let*' ' p ':=' r 'in' k" := (bind r (λ p, k))
  (at level 10, p pattern, r at level 100, k at level 200).
Notation "r >>= k" := (bind r k) (at level 50, left associativity).

(** Strict comparison of scores, [a < b]. *)
Definition Qlt_b (a b : Q) : bool := negb (Qle_bool b a).

(** ** Parameters: the Python runtime tables and the external scorer *)

Class Runtime := {
  (** value of a Unicode decimal digit: the characters [\d] matches and
      [int] accepts *)
  digit_value : char → option Z;
  digit_value_range : ∀ c v, digit_value c = Some v → 0 ≤ v ≤ 9;
  (** the characters [str.strip] removes *)
  is_whitespace : char → bool;
  (** iteration order of [set] over ints, as [list(set(l))] exposes it *)
  set_order : list Z → list Z;
  set_order_perm : ∀ l, set_order l ≡ₚ remove_dups l;
  (** the keys of a dict as a loop over the dict yields them: as [str] and
      in the order of insertion, which a [gmap] does not record; the
      argument is the list of the keys of the [gmap] *)
  dict_keys : list string → list str;
  dict_keys_length : ∀ l, length (dict_keys l) = length l;
  (** [RougeL().add_inst(cand, ref).get_score()] of [utils.rouge] *)
  rouge_l : str → str → Q;
}.

(** ** The span locator *)

Module SpanLocator.
Section locator.
Context `{Runtime}.

Definition full_stop : char := 12290%N.   (* '。' *)
Definition space : char := 32%N.

(** The locals of the fallback search. *)
Record search := Search {
  best_score : Q;
  best_start : Z;
  best_end : Z;
  last_end_in_sub_text : Z;
}.

(** Body of the inner loop over [end_idx].  The index is within the string
    on every iteration the loops make; the [None] case is never taken. *)
Definition end_step (sub_text doc_content : str) (chars : gset char)
    (start_idx : Z) (st : search) (end_idx : Z) : search :=
  match py_index doc_content end_idx with
  | Some c =>
    if bool_decide (c ∈ chars) then
      let sub_para_content := py_slice doc_content start_idx (end_idx + 1) in
      let score := rouge_l sub_para_content sub_text in
      if Qlt_b (best_score st) score
      then Search score start_idx end_idx end_idx
      else st
    else st
  | None => st
  end.

(** Body of the outer loop over [start_idx]; the range of the inner loop is
    fixed from [last_end_in_sub_text] when the inner loop starts. *)
Definition start_step (sub_text doc_content : str) (chars : gset char)
    (st : search) (start_idx : Z) : search :=
  match py_index doc_content start_idx with
  | Some c =>
    if bool_decide (c ∈ chars) then
      foldl (end_step sub_text doc_content chars start_idx) st
            (range_down (last_end_in_sub_text st) (start_idx - 1))
    else st
  | None => st
  end.

Definition fuzzy_search (sub_text doc_content : str) : search :=
  let support_para_chars : gset char := list_to_set sub_text in
  foldl (start_step sub_text doc_content support_para_chars)
        (Search 0 (-1) (-1) (py_len doc_content - 1))
        (range 0 (py_len doc_content - py_len sub_text)).

(** An exact hit of [sub_text] at offset [i]. *)
Definition exact_hit (sub_text : str) (i : nat) : Z * Z * Q :=
  (Z.of_nat i, Z.of_nat i + py_len sub_text - 1, 1%Q).

Definition find_best_match_index (sub_text doc_content : str) : Z * Z * Q :=
  match str_find sub_text doc_content with
  | Some i => exact_hit sub_text i
  | None =>
    let trimmed := py_slice_to sub_text (-1) in
    match (if endswith_char sub_text full_stop
           then str_find trimmed doc_content else None) with
    | Some i => exact_hit trimmed i
    | None =>
      let squeezed := str_replace [space] [] sub_text in
      match str_find squeezed doc_content with
      | Some i => exact_hit squeezed i
      | None =>
        let st := fuzzy_search sub_text doc_content in
        if Qeq_bool (best_score st) 0 then (-1, -1, 0%Q)
        else (best_start st, best_end st, best_score st)
      end
    end
  end.

End locator.
End SpanLocator.
Export SpanLocator.

(** ** The answer-label resolver *)

Module Resolver.

(** JSON values of a sample.  A label tuple [(d, s, e)] is the array
    [[d, s, e]] it is dumped as. *)
Inductive json :=
| JNull
| JBool (b : bool)
| JInt (n : Z)
| JFloat (q : Q)
| JStr (s : str)
| JList (l : list json)
| JDict (m : gmap string json).

(** [as_str] stands where the code hands the value to the regular
    expression or to a [str] slice, [as_dict] where it subscripts the value
    with a string key, [as_list] where it reads back the labels it wrote:
    a value of another type raises [TypeError] there. *)
Definition as_str (v : json) : result str :=
  match v with JStr s => Ok s | _ => Raise TypeError end.

Definition as_list (v : json) : result (list json) :=
  match v with JList l => Ok l | _ => Raise TypeError end.

Definition as_dict (v : json) : result (gmap string json) :=
  match v with JDict m => Ok m | _ => Raise TypeError end.

(** [d[k]] *)
Definition get (d : gmap string json) (k : string) : result json :=
  of_option KeyError (d !! k).

(** [v[i]] for an int [i]: an element of a list, a character of a string;
    a dict of a sample has string keys only, so that an int is no key of
    it. *)
Definition py_getitem (v : json) (i : Z) : result json :=
  match v with
  | JList l => of_option IndexError (py_index l i)
  | JStr s => of_option IndexError ((λ c, JStr [c]) <$> py_index s i)
  | JDict _ => Raise KeyError
  | _ => Raise TypeError
  end.

Abbreviation label := (Z * Z * Z)%type (only parsing).

Definition label_json (l : label) : json :=
  let '(d, s, e) := l in JList [JInt d; JInt s; JInt e].

Definition as_label (v : json) : result label :=
  match v with
  | JList [JInt d; JInt s; JInt e] => Ok (d, s, e)
  | _ => Raise TypeError
  end.

(** One located supporting paragraph: [(found_sup_para, sup_start, sup_end)]. *)
Abbreviation sup_para := (str * Z * Z)%type (only parsing).

Section resolver.
Context `{Runtime}.

(** [ans_pattern = re.compile(r'@content\d@')]: a match at the head of [s]. *)
Definition match_marker (s : str) : option str :=
  if startswith (lit "@content") s then
    match drop 8 s with
    | d :: a :: _ =>
      match digit_value d with
      | Some _ => if (a =? 64)%N then Some (take 10 s) else None
      | None => None
      end
    | _ => None
    end
  else None.

(** [ans_pattern.findall(s)]: the matches, left to right, not overlapping. *)
Fixpoint findall_go (skip : nat) (s : str) : list str :=
  match s with
  | [] => []
  | _ :: s' =>
    match skip with
    | S k => findall_go k s'
    | O =>
      match match_marker s with
      | Some m => m :: findall_go 9 s'
      | None => findall_go 0 s'
      end
    end
  end.

Definition findall (s : str) : list str := findall_go 0 s.

(** [int(t)] for a string [t] of one character; [None] is ValueError. *)
Definition int_of_digit (t : str) : option Z :=
  match t with [c] => digit_value c | _ => None end.

(** Every match of the pattern has a digit at [doc[-2:-1]]
    ([marker_digit_ok]), so no element of the comprehension is dropped. *)
Definition find_answer_in_docid (answer : str) : list Z :=
  let docs := findall answer in
  set_order (omap (λ doc, int_of_digit (py_slice doc (-2) (-1))) docs).

(** ['@content{}@'.format(n)] and ['content{}@'.format(n)] *)
Definition marker (n : Z) : str := lit "@content" ++ str_of_int n ++ lit "@".
Definition marker_tail (n : Z) : str := lit "content" ++ str_of_int n ++ lit "@".

Definition is_empty (s : str) : bool :=
  match s with [] => true | _ => false end.

(** [s.strip()] *)
Fixpoint lstrip (s : str) : str :=
  match s with
  | [] => []
  | c :: s' => if is_whitespace c then lstrip s' else s
  end.

Definition rstrip (s : str) : str := reverse (lstrip (reverse s)).
Definition strip (s : str) : str := rstrip (lstrip s).

(** The items a loop over a value takes: the elements of a list, the
    characters of a string, the keys of a dict; the other values are not
    iterable. *)
Definition py_iter (v : json) : result (list json) :=
  match v with
  | JList l => Ok l
  | JStr s => Ok ((λ c, JStr [c]) <$> s)
  | JDict m => Ok (JStr <$> dict_keys (map_to_list m).*1)
  | _ => Raise TypeError
  end.

(** [''.join(v)]: every item of [v] has to be a string. *)
Definition py_join (v : json) : result str :=
  let* items := py_iter v in
  let* parts := map_result as_str items in
  Ok (str_join parts).

(** [sample['documents'][i]['content']].  Where [gen_mrc_dataset] reads it
    the content of a document is the string [concat_doc] wrote. *)
Definition doc_content (sample : gmap string json) (i : Z) : result str :=
  let* documents := get sample "documents" in
  let* doc := py_getitem documents i >>= as_dict in
  get doc "content" >>= as_str.

(** Lines 108-117: one piece of the split supporting paragraph. *)
Definition support_step (sample : gmap string json) (sup_para_in_docid : Z)
    (supported_paras : gmap Z (list sup_para)) (para_str : str)
  : result (gmap Z (list sup_para)) :=
  if negb (is_empty para_str) && negb (str_in (lit "@content") para_str) then
    let para_str := str_replace (marker_tail sup_para_in_docid) [] para_str in
    let* content := doc_content sample (sup_para_in_docid - 1) in
    let '(sup_start, sup_end, rougel) := find_best_match_index para_str content in
    let found_sup_para := py_slice content sup_start (sup_end + 1) in
    match supported_paras !! sup_para_in_docid with
    | Some l =>
      Ok (<[sup_para_in_docid := l ++ [(found_sup_para, sup_start, sup_end)]]>
              supported_paras)
    | None =>
      Ok (<[sup_para_in_docid := [(found_sup_para, sup_start, sup_end)]]>
              supported_paras)
    end
  else Ok supported_paras.

(** Lines 105-117. *)
Definition build_supported_paras (sample : gmap string json)
    (supporting_paragraph : str) : result (gmap Z (list sup_para)) :=
  for_each
    (λ supported_paras sup_para_in_docid,
       for_each (support_step sample sup_para_in_docid)
                (str_split (marker sup_para_in_docid) supporting_paragraph)
                supported_paras)
    (find_answer_in_docid supporting_paragraph) ∅.

(** The locals of the loop over the supporting paragraphs of a document. *)
Record best := Best {
  max_rougel : Q;
  best_start_in_sup_para : Z;
  best_end_in_sup_para : Z;
  best_sup_para_i : option nat;
}.

Definition best_step (answer_str : str) (b : best) (entry : nat * sup_para)
  : best :=
  let '(sup_para_i, doc_support_para) := entry in
  let '(start_in_sup_para, end_in_sup_para, rougel) :=
    find_best_match_index answer_str doc_support_para.1.1 in
  if Qlt_b (max_rougel b) rougel
  then Best rougel start_in_sup_para end_in_sup_para (Some sup_para_i)
  else b.

(** Lines 139-149. *)
Definition best_match (answer_str : str) (doc_support_paras : list sup_para)
  : best :=
  foldl (best_step answer_str) (Best 0 (-1) (-1) None)
        (enumerate doc_support_paras).

(** Lines 151-154: the label of one answer fragment, if any.  Indexing the
    list with the initial [None] of [best_sup_para_i] is a TypeError. *)
Definition fragment_label (ans_in_docid : Z) (answer_str : str)
    (doc_support_paras : list sup_para) : result (option label) :=
  let b := best_match answer_str doc_support_paras in
  if negb (best_start_in_sup_para b =? -1) && negb (best_end_in_sup_para b =? -1)
  then
    let* i := of_option TypeError (best_sup_para_i b) in
    let* p := of_option IndexError (doc_support_paras !! i) in
    let start_label := best_start_in_sup_para b + p.1.2 in
    let end_label :=
      start_label + (best_end_in_sup_para b - best_start_in_sup_para b) in
    Ok (Some (ans_in_docid - 1, start_label, end_label))
  else Ok None.

(** Lines 132-154: one piece of the split answer. *)
Definition answer_step (ans_in_docid : Z) (doc_support_paras : list sup_para)
    (st : list str * list label) (answer_str : str)
  : result (list str * list label) :=
  let '(answer_texts, answer_labels) := st in
  let answer_str := strip answer_str in
  if negb (is_empty answer_str) && negb (str_in (lit "@content") answer_str) then
    let answer_str := str_replace (marker_tail ans_in_docid) [] answer_str in
    let answer_texts := answer_texts ++ [answer_str] in
    let* found := fragment_label ans_in_docid answer_str doc_support_paras in
    match found with
    | Some l => Ok (answer_texts, answer_labels ++ [l])
    | None => Ok (answer_texts, answer_labels)
    end
  else Ok st.

(** [sample['documents'][answer_label[0]]['content'][answer_label[1]:
    answer_label[2] + 1]] *)
Definition fake_answer (sample : gmap string json) (answer_label : label)
  : result str :=
  let '(d, s, e) := answer_label in
  let* content := doc_content sample d in
  Ok (py_slice content s (e + 1)).

Definition calc_ceil_rougel (answer_text : str) (sample : gmap string json)
  : result (gmap string json) :=
  let* answer_labels :=
    get sample "answer_labels" >>= as_list >>= map_result as_label in
  let* fake_answers := map_result (fake_answer sample) answer_labels in
  let sample := <["fake_answers" := JList (JStr <$> fake_answers)]> sample in
  if (length fake_answers =? 0)%nat then
    Ok (<["ceil_rougel" := JInt 0]> sample)
  else
    let ceil_rougel := rouge_l (str_join fake_answers) answer_text in
    Ok (<["ceil_rougel" := JFloat ceil_rougel]> sample).

(** Lines 124-158: the body of the loop over the document ids of the
    answer.  [answer_texts] and [answer_labels] are created before the loop
    and grow across its iterations; [sample['answer_labels']] is bound to the
    list at the end of each iteration. *)
Definition doc_step (supported_paras : gmap Z (list sup_para)) (answer : str)
    (st : list str * list label * gmap string json) (ans_in_docid : Z)
  : result (list str * list label * gmap string json) :=
  let '(answer_texts, answer_labels, sample) := st in
  let* doc_support_paras := of_option KeyError (supported_paras !! ans_in_docid) in
  let* '(answer_texts, answer_labels) :=
    for_each (answer_step ans_in_docid doc_support_paras)
             (str_split (marker ans_in_docid) answer)
             (answer_texts, answer_labels) in
  let sample := <["answer_labels" := JList (label_json <$> answer_labels)]> sample in
  let answer_text := str_join answer_texts in
  let* sample := calc_ceil_rougel answer_text sample in
  Ok (answer_texts, answer_labels, sample).

(** Lines 119-158. *)
Definition label_answers (supported_paras : gmap Z (list sup_para))
    (answer : str) (sample : gmap string json)
  : result (list str * list label * gmap string json) :=
  for_each (doc_step supported_paras answer) (find_answer_in_docid answer)
           ([], [], sample).

(** The body of the loop of lines 94-96. *)
Definition concat_doc (doc : json) : result json :=
  let* d := as_dict doc in
  let* paragraphs := get d "paragraphs" in
  let* content := py_join paragraphs in
  Ok (JDict (delete "paragraphs" (<["content" := JStr content]> d))).

(** Lines 94-96.  The loop changes the documents in place: they are the
    elements of the list [sample['documents']].  Over a string or a dict
    the loop takes characters or keys, for which the body raises, so that
    it ends only when there is none, and the sample is as it was. *)
Definition concat_documents (sample : gmap string json)
  : result (gmap string json) :=
  let* documents := get sample "documents" in
  let* docs := py_iter documents in
  let* docs := map_result concat_doc docs in
  match documents with
  | JList _ => Ok (<["documents" := JList docs]> sample)
  | _ => Ok sample
  end.

Definition gen_mrc_dataset (sample : gmap string json)
  : result (gmap string json) :=
  let* sample := concat_documents sample in
  match sample !! "answer" with
  | None => Ok sample
  | Some answer_v =>
    let* supporting_paragraph := get sample "supporting_paragraph" >>= as_str in
    let* supported_paras := build_supported_paras sample supporting_paragraph in
    let* answer := as_str answer_v in
    let* '(_, _, sample) := label_answers supported_paras answer sample in
    Ok sample
  end.

End resolver.
End Resolver.
Export Resolver.

(** ** The paragraph ranker *)

Module Ranker.

(** The fields of a document that [extract_paragraph] reads.  Tokens and
    part-of-speech tags are strings, keyword weights and question-overlap
    flags are ints. *)
Record document := Document {
  segmented_title : list str;
  segmented_paragraphs : list (list str);
  pos_title : list str;
  pos_paragraphs : list (list str);
  keyword_title : list Z;
  keyword_paragraphs : list (list Z);
  title_word_in_question : list Z;
  paragraphs_word_in_question : list (list Z);
}.

(** The fields [extract_paragraph] adds to a document. *)
Record passage := Passage {
  most_related_para_id : nat;
  segmented_passage : list str;
  pos_passage : list str;
  keyword_passage : list Z;
  passage_word_in_question : list Z;
  paragraph_match_score : list Q;
  title_len : Z;
}.

(** [(para_score, len(para_tokens), p_idx)] *)
Definition para_info := (Q * Z * Z)%type.

(** The locals of the selection loop. *)
Record selection := Selection {
  selected_para_len : Z;
  selected_para_ids : list Z;
  last_para_id : Z;
  last_para_cut_idx : Z;
}.

(** [max(l)] of a non-empty list: the first of the largest elements. *)
Definition py_max (l : list Q) : option Q :=
  match l with
  | [] => None
  | x :: l' => Some (foldl (λ m y, if Qlt_b m y then y else m) x l')
  end.

(** [l.index(v)] *)
Fixpoint index_of (v : Q) (l : list Q) : option nat :=
  match l with
  | [] => None
  | x :: l' => if Qeq_bool x v then Some 0%nat else S <$> index_of v l'
  end.

Section ranker.
(** [metric_max_over_ground_truths(f1_score, bleu_4, tokens, question)] of
    [utils.metric_util] *)
Context (match_score : list str → list str → Q).

Definition splitter : str := lit "<splitter>".

Definition calc_paragraph_match_scores (doc : document) (question : list str)
  : list Q :=
  (λ para_tokens, match_score para_tokens question) <$> segmented_paragraphs doc.

(** The sort key [(-x[0], x[1])], compared as Python compares tuples. *)
Definition key_lt (x y : para_info) : bool :=
  let '(sx, lx, _) := x in
  let '(sy, ly, _) := y in
  if Qeq_bool (- sx) (- sy) then lx <? ly else Qlt_b (- sx) (- sy).

(** Lines 68-77: the greedy loop, with its [break]. *)
Fixpoint select (doc : document) (max_doc_len : Z) (para_infos : list para_info)
    (st : selection) : result selection :=
  match para_infos with
  | [] => Ok st
  | para_info :: rest =>
    let para_id := para_info.2 in
    let* para := of_option IndexError (py_index (segmented_paragraphs doc) para_id) in
    let len := selected_para_len st + (py_len para + 1) in
    if len <=? max_doc_len then
      select doc max_doc_len rest
             (Selection len (selected_para_ids st ++ [para_id])
                        (last_para_id st) (last_para_cut_idx st))
    else
      Ok (Selection len (selected_para_ids st) para_id (max_doc_len - len + 1))
  end.

(** Lines 53-80: the scores, the ranking, the selection, and the selected
    ids back in document order. *)
Definition select_paragraphs (doc : document) (question : list str)
    (max_doc_len : Z) : result selection :=
  let para_match_scores := calc_paragraph_match_scores doc question in
  let para_infos :=
    (λ e : nat * (list str * Q),
       let '(p_idx, (para_tokens, para_score)) := e in
       (para_score, py_len para_tokens, Z.of_nat p_idx))
      <$> enumerate (zip (segmented_paragraphs doc) para_match_scores) in
  let para_infos := py_sort key_lt para_infos in
  let* st :=
    select doc max_doc_len para_infos
           (Selection (py_len (segmented_title doc) + 1) [] (-1) (-1)) in
  Ok (Selection (selected_para_len st) (py_sort Z.ltb (selected_para_ids st))
                (last_para_id st) (last_para_cut_idx st)).

(** [[paras[i] for i in ids]] *)
Definition pick {A} (paras : list A) (ids : list Z) : result (list A) :=
  map_result (λ i, of_option IndexError (py_index paras i)) ids.

(** [paras[last_para_id][:last_para_cut_idx]] *)
Definition cut_last {A} (paras : list (list A)) (st : selection)
  : result (list A) :=
  let* para := of_option IndexError (py_index paras (last_para_id st)) in
  Ok (py_slice_to para (last_para_cut_idx st)).

(** Lines 98-112: [for para in paras: passage += para + [sep]]. *)
Definition concat_with {A} (sep : A) (paras : list (list A)) : list A :=
  foldl (λ passage para, passage ++ (para ++ [sep])) [] paras.

(** The body of the loop over the documents of a sample (lines 51-121). *)
Definition extract_paragraph_doc (question : list str) (max_doc_len : Z)
    (doc : document) : result passage :=
  let title_match_score := match_score (segmented_title doc) question in
  let para_match_scores := calc_paragraph_match_scores doc question in
  let* st := select_paragraphs doc question max_doc_len in
  let ids := selected_para_ids st in
  let* chosen := pick (segmented_paragraphs doc) ids in
  let segmented_paragraphs := segmented_title doc :: chosen in
  let* chosen_scores := pick para_match_scores ids in
  let paragraph_match_scores := title_match_score :: chosen_scores in
  let* chosen_pos := pick (pos_paragraphs doc) ids in
  let pos_paragraphs := pos_title doc :: chosen_pos in
  let* chosen_keyword := pick (keyword_paragraphs doc) ids in
  let keyword_paragraphs := keyword_title doc :: chosen_keyword in
  let* chosen_wiq := pick (paragraphs_word_in_question doc) ids in
  let paragraphs_word_in_question := title_word_in_question doc :: chosen_wiq in
  let* '(segmented_paragraphs, paragraph_match_scores, pos_paragraphs,
         keyword_paragraphs, paragraphs_word_in_question) :=
    if -1 <? last_para_id st then
      let* last_seg_para := cut_last (Ranker.segmented_paragraphs doc) st in
      let* last_pos := cut_last (Ranker.pos_paragraphs doc) st in
      let* last_keyword := cut_last (Ranker.keyword_paragraphs doc) st in
      let* last_wiq := cut_last (Ranker.paragraphs_word_in_question doc) st in
      Ok (segmented_paragraphs ++ [last_seg_para],
          paragraph_match_scores ++ [match_score last_seg_para question],
          pos_paragraphs ++ [last_pos],
          keyword_paragraphs ++ [last_keyword],
          paragraphs_word_in_question ++ [last_wiq])
    else
      Ok (segmented_paragraphs, paragraph_match_scores, pos_paragraphs,
          keyword_paragraphs, paragraphs_word_in_question) in
  let segmented_passage := concat_with splitter segmented_paragraphs in
  let pos_passage := concat_with splitter pos_paragraphs in
  let keyword_passage := concat_with 0 keyword_paragraphs in
  let passage_word_in_question := concat_with 0 paragraphs_word_in_question in
  let* most_related_para_id :=
    of_option ValueError
      (best ← py_max paragraph_match_scores; index_of best paragraph_match_scores) in
  Ok (Passage most_related_para_id
              (py_slice_to segmented_passage (-1))
              (py_slice_to pos_passage (-1))
              (py_slice_to keyword_passage (-1))
              (py_slice_to passage_word_in_question (-1))
              paragraph_match_scores
              (py_len (segmented_title doc))).

(** [extract_paragraph], on the documents of a sample. *)
Definition extract_paragraph (question : list str) (documents : list document)
    (max_doc_len : Z) : result (list passage) :=
  map_result (extract_paragraph_doc question max_doc_len) documents.

End ranker.
End Ranker.

(** ** Neighbouring stages of the pipeline *)

(** [preprocess/1.text_cleaning.py]: the paragraphs of a document after
    [clean_sample]. *)
Module Cleaning.
Section cleaning.
(** [clean_text], a chain of regular-expression substitutions. *)
Context (clean_text : str → str).

(** Lines 118-120: the body of the loop over the cleaned paragraphs. *)
Definition keep_new (new_paras : list str) (para : str) : list str :=
  if negb (is_empty para) && negb (bool_decide (para ∈ new_paras))
  then new_paras ++ [para]
  else new_paras.

(** Lines 113 and 117-121. *)
Definition clean_paragraphs (paragraphs : list str) : list str :=
  foldl keep_new [] (clean_text <$> paragraphs).

End cleaning.
End Cleaning.

(** [preprocess/2.2.gen_match_features.py]: one of the feature columns of
    [extract_match_features].  The function fills twenty-one columns of a
    document in the same way, each from its own distance function. *)
Module MatchFeatures.

(** The character class [[，。！]]. *)
Definition is_separator (c : char) : bool :=
  bool_decide (c ∈ [65292; 12290; 65281]%N).

(** [re.split('[，。！]', s)] *)
Fixpoint re_split_go (sent : str) (s : str) : list str :=
  match s with
  | [] => [sent]
  | c :: s' =>
    if is_separator c then sent :: re_split_go [] s'
    else re_split_go (sent ++ [c]) s'
  end.

Definition re_split (s : str) : list str := re_split_go [] s.

Section column.
Context {V : Type}.
(** A function of [DistanceUtil], applied to a sentence and the question. *)
Context (distance : str → str → V).

(** Lines 32-35: the number of entries a sentence gets. *)
Definition entries (content : str) (sents : list str) (i : nat) (sent : str)
  : result Z :=
  let sent_len := py_len sent + 1 in
  if Z.of_nat i =? py_len sents - 1 then
    let* last := of_option IndexError (py_index content (-1)) in
    if is_separator last then Ok (sent_len - 1) else Ok sent_len
  else Ok sent_len.

(** Lines 30-37: the body of the loop over the sentences, for one column;
    [[x] * n] is empty when [n <= 0]. *)
Definition extend_column (que_str content : str) (sents : list str)
    (column : list V) (e : nat * str) : result (list V) :=
  let '(i, sent) := e in
  let* sent_len := entries content sents i sent in
  Ok (column ++ replicate (Z.to_nat sent_len) (distance sent que_str)).

Definition feature_column (que_str content : str) : result (list V) :=
  let sents := re_split content in
  for_each (extend_column que_str content sents) (enumerate sents) [].

End column.
End MatchFeatures.

(** [preprocess/5.1.gen_text_features.py]: the entity tag of every
    character in [extract_text_features]. *)
Module TextFeatures.

(** An entity of [fool.analysis]: [(start, end, type, text)]. *)
Record entity := Entity {
  ent_start : Z;
  ent_end : Z;
  ent_type : str;
  ent_text : str;
}.

(** Lines 32-44: the [while] loop, one iteration for each unit of [fuel];
    [None] when the fuel runs out before the loop ends. *)
Fixpoint char_entity_loop (fuel : nat) (text : str) (entities : list entity)
    (char_i entity_i : Z) (char_entity : list str) {struct fuel}
  : option (result (list str)) :=
  if char_i <? py_len text then
    match fuel with
    | O => None
    | S fuel =>
      if entity_i =? py_len entities then
        char_entity_loop fuel text entities (char_i + 1) entity_i
                         (char_entity ++ [[]])
      else
        match py_index entities entity_i with
        | None => Some (Raise IndexError)
        | Some ent =>
          if char_i <? ent_start ent then
            char_entity_loop fuel text entities (char_i + 1) entity_i
                             (char_entity ++ [[]])
          else if (ent_start ent <=? char_i)
                  && (char_i <? ent_start ent + py_len (ent_text ent)) then
            char_entity_loop fuel text entities (char_i + 1) entity_i
                             (char_entity ++ [ent_type ent])
          else
            char_entity_loop fuel text entities char_i (entity_i + 1)
                             char_entity
        end
    end
  else Some (Ok char_entity).

(** Lines 47-59. *)
Definition short_tag (entity : str) : str :=
  if bool_decide (entity = lit "time") then lit "T"
  else if bool_decide (entity = lit "location") then lit "L"
  else if bool_decide (entity = lit "org") then lit "O"
  else if bool_decide (entity = lit "job") then lit "J"
  else if bool_decide (entity = lit "person") then lit "P"
  else if bool_decide (entity = lit "company") then lit "C"
  else entity.

(** Lines 29-60: [new_char_entity]. *)
Definition new_char_entity (fuel : nat) (text : str) (entities : list entity)
  : option (result (list str)) :=
  match char_entity_loop fuel text entities 0 0 [] with
  | Some (Ok char_entity) => Some (Ok (short_tag <$> char_entity))
  | r => r
  end.

End TextFeatures.

(** ** Instances used by the examples *)

Module Demo.

(** Modelled from the spec: [utils.rouge.RougeL] is not among the sources.
    Section 4.1 describes it: with [L] the length of a longest common
    subsequence of candidate and reference, [P = L/len(candidate)],
    [R = L/len(reference)] and beta = 1.2, the score is
    [((1+beta^2) P R) / (R + beta^2 P)], and 0 when an input is empty. *)
Fixpoint lcs_row (x : char) (ref : str) (prev : list nat) (diag left : nat)
  : list nat :=
  match ref, prev with
  | y :: ref', up :: prev' =>
    let v := if (x =? y)%N then S diag else Nat.max up left in
    v :: lcs_row x ref' prev' up v
  | _, _ => []
  end.

Definition lcs_length (cand ref : str) : nat :=
  default 0%nat
    (last (foldl (λ row x, lcs_row x ref row 0 0)
                 (replicate (length ref) 0%nat) cand)).

Definition rouge_l_score (cand ref : str) : Q :=
  let l := inject_Z (Z.of_nat (lcs_length cand ref)) in
  let p := (l / inject_Z (py_len cand))%Q in
  let r := (l / inject_Z (py_len ref))%Q in
  let beta2 := (36 # 25)%Q in
  (((1 + beta2) * p * r) / (r + beta2 * p))%Q.

(** The ASCII digits; the examples use no other digit. *)
Definition ascii_digit_value (c : char) : option Z :=
  if ((48 <=? c) && (c <=? 57))%N then Some (Z.of_N c - 48) else None.

(** The characters for which [str.isspace] holds. *)
Definition unicode_whitespace (c : char) : bool :=
  bool_decide (c ∈ [9; 10; 11; 12; 13; 28; 29; 30; 31; 32; 133; 160; 5760;
                    8192; 8193; 8194; 8195; 8196; 8197; 8198; 8199; 8200;
                    8201; 8202; 8232; 8233; 8239; 8287; 12288]%N).

(** Increasing order: the order in which CPython iterates a set of the
    ints 0 to 7. *)
Definition increasing_order (l : list Z) : list Z :=
  py_sort Z.ltb (remove_dups l).

(** The keys of the examples are ASCII; the examples join no dict. *)
Definition ascii_keys (keys : list string) : list str := lit <$> keys.

(** A stand-in for the external paragraph metric: the share of the tokens
    of the paragraph that occur in the question. *)
Definition overlap_score (tokens question : list str) : Q :=
  (inject_Z (py_len (filter (λ t, t ∈ question) tokens))
   / inject_Z (py_len tokens))%Q.

(** Documents for the ranker.  The question of the examples is the single
    token [q]. *)
Definition tags (para : list str) : list str := (λ _ : str, lit "n") <$> para.
Definition flags (v : Z) (para : list str) : list Z := (λ _ : str, v) <$> para.

Definition document_of (title : list str) (paragraphs : list (list str))
  : Ranker.document :=
  {| Ranker.segmented_title := title;
     Ranker.segmented_paragraphs := paragraphs;
     Ranker.pos_title := tags title;
     Ranker.pos_paragraphs := tags <$> paragraphs;
     Ranker.keyword_title := flags 1 title;
     Ranker.keyword_paragraphs := flags 1 <$> paragraphs;
     Ranker.title_word_in_question := flags 0 title;
     Ranker.paragraphs_word_in_question := flags 0 <$> paragraphs |}.

(** Paragraph 0 has four tokens foreign to the question, paragraph 1 is the
    token of the question. *)
Definition ranked_doc : Ranker.document :=
  document_of [lit "t"] [[lit "a"; lit "b"; lit "c"; lit "d"]; [lit "q"]].

(** A title of three tokens and one paragraph. *)
Definition long_title_doc : Ranker.document :=
  document_of [lit "a"; lit "b"; lit "c"] [[lit "d"; lit "e"]].

(** No title token, no paragraph. *)
Definition empty_doc : Ranker.document := document_of [] [].

(** The token passage of a run of the ranker; empty when it raises. *)
Definition tokens (r : result Ranker.passage) : list str :=
  match r with Ok out => Ranker.segmented_passage out | Raise _ => [] end.

(** The sample a run returns; the empty object when it raises. *)
Definition output (r : result (gmap string json)) : gmap string json :=
  match r with Ok sample => sample | Raise _ => ∅ end.

(** The strings of the end-to-end scenario of the specification. *)
Definition beijing : str := [21271; 20140]%N.              (* 北京 *)
Definition shanghai : str := [19978; 28023]%N.             (* 上海 *)
Definition capital_sentence : str :=                       (* 北京是中国的首都。 *)
  [21271; 20140; 26159; 20013; 22269; 30340; 39318; 37117; 12290]%N.
Definition centre_sentence : str :=                        (* 上海是经济中心。 *)
  [19978; 28023; 26159; 32463; 27982; 20013; 24515; 12290]%N.

Definition doc_of (paragraphs : list str) : gmap string json :=
  {[ "title" := JStr (lit "t"); "paragraphs" := JList (JStr <$> paragraphs) ]}.

Definition sample_of (docs : list (list str)) (supporting_paragraph : str)
    (answer : str) : gmap string json :=
  {[ "question" := JStr (lit "q");
     "documents" := JList ((λ ps, JDict (doc_of ps)) <$> docs);
     "supporting_paragraph" := JStr supporting_paragraph;
     "answer" := JStr answer ]}.

(** One document; the answer is in it. *)
Definition scenario : gmap string json :=
  sample_of [[capital_sentence; centre_sentence]]
            (lit "@content1@" ++ capital_sentence ++ lit "@content1@")
            (lit "@content1@" ++ beijing ++ lit "@content1@").

(** Two documents, each with a supporting paragraph and an answer
    fragment. *)
Definition two_documents : gmap string json :=
  sample_of [[capital_sentence]; [centre_sentence]]
            (lit "@content1@" ++ capital_sentence ++ lit "@content1@"
             ++ lit "@content2@" ++ centre_sentence ++ lit "@content2@")
            (lit "@content1@" ++ beijing ++ lit "@content1@"
             ++ lit "@content2@" ++ shanghai ++ lit "@content2@").

(** The answer names a second document; there is only one. *)
Definition absent_document : gmap string json :=
  sample_of [[capital_sentence; centre_sentence]]
            (lit "@content1@" ++ capital_sentence ++ lit "@content1@")
            (lit "@content2@" ++ shanghai ++ lit "@content2@").

(** The answer fragment of document 1 is a lone full stop. *)
Definition full_stop_answer : gmap string json :=
  sample_of [[capital_sentence; centre_sentence]]
            (lit "@content1@" ++ beijing ++ lit "@content1@")
            (lit "@content1@" ++ [12290%N] ++ lit "@content1@").

(** A document whose ['paragraphs'] is one string, and a sample whose
    ['documents'] is the empty string; neither has an answer. *)
Definition string_paragraphs : gmap string json :=
  {[ "question" := JStr (lit "q");
     "documents" :=
       JList [JDict {[ "title" := JStr (lit "t");
                       "paragraphs" := JStr capital_sentence ]}] ]}.

Definition no_documents : gmap string json :=
  {[ "question" := JStr (lit "q"); "documents" := JStr [] ]}.

(** The markers carry the id 0. *)
Definition marker_zero : gmap string json :=
  sample_of [[capital_sentence; centre_sentence]]
            (lit "@content0@" ++ capital_sentence ++ lit "@content0@")
            (lit "@content0@" ++ beijing ++ lit "@content0@").

(** The answer carries no marker. *)
Definition unmarked_answer : gmap string json :=
  sample_of [[capital_sentence; centre_sentence]]
            (lit "@content1@" ++ capital_sentence ++ lit "@content1@")
            beijing.

End Demo.

(** ** Invariants and predicates used in the statements *)

Section predicates.
Context `{Runtime}.

(** What [find_best_match_index] can return for a container [doc]: the
    not-found triple, the empty span of an empty (or emptied) fragment, or
    a span inside [doc] with a positive confidence. *)
Definition located (doc : str) (r : Z * Z * Q) : Prop :=
  let '(s, e, c) := r in
  (s = -1 ∧ e = -1 ∧ c = 0%Q) ∨
  (s = 0 ∧ e = -1 ∧ c = 1%Q) ∨
  (0 ≤ s ∧ s ≤ e ∧ e < py_len doc ∧ (0 < c)%Q).

(** The invariant of the fallback search. *)
Definition search_inv (doc : str) (st : search) : Prop :=
  last_end_in_sub_text st ≤ py_len doc - 1 ∧
  ((best_score st = 0%Q ∧ best_start st = -1 ∧ best_end st = -1) ∨
   ((0 < best_score st)%Q ∧ 0 ≤ best_start st ∧
    best_start st ≤ best_end st ∧ best_end st < py_len doc)).

(** A stored supporting paragraph is either empty or lies inside the
    content of its document, from its stored start offset on. *)
Definition entry_ok (content : str) (p : sup_para) : Prop :=
  p.1.1 = [] ∨ (0 ≤ p.1.2 ∧ p.1.2 + py_len p.1.1 ≤ py_len content).

(** The supporting paragraph has a fragment for document [id]: [id] is one
    of its marker ids and, split at the markers of [id], it has a non-empty
    piece free of ["@content"]. *)
Definition has_support (sp : str) (id : Z) : Prop :=
  id ∈ find_answer_in_docid sp ∧
  Exists (λ piece, negb (is_empty piece)
                   && negb (str_in (lit "@content") piece) = true)
         (str_split (marker id) sp).

(** Every key of [supported_paras] is a document id with a fragment whose
    document exists, and its entries are [entry_ok]. *)
Definition supported_inv (sample : gmap string json) (sp : str)
    (supported_paras : gmap Z (list sup_para)) : Prop :=
  ∀ id paras, supported_paras !! id = Some paras →
    has_support sp id ∧
    ∃ content, doc_content sample (id - 1) = Ok content ∧
               Forall (entry_ok content) paras.

(** What the first loop of a run makes of a document: an object with a
    ['paragraphs'] that can be joined gets the joined text as ['content']
    and loses ['paragraphs']. *)
Definition joined (doc doc' : json) : Prop :=
  ∃ m paragraphs content,
    doc = JDict m ∧ m !! "paragraphs" = Some paragraphs ∧
    py_join paragraphs = Ok content ∧
    doc' = JDict (delete "paragraphs" (<["content" := JStr content]> m)).

(** A label whose document index is a zero-based index into
    ['documents']. *)
Definition zero_based (sample : gmap string json) (l : label) : Prop :=
  ∃ docs, sample !! "documents" = Some (JList docs) ∧ 0 ≤ l.1.1 < py_len docs.

(** The confidence with which [answer_str] is located in a paragraph. *)
Definition confidence (answer_str : str) (p : sup_para) : Q :=
  (find_best_match_index answer_str p.1.1).2.

(** After the loop either no paragraph had a positive confidence and the
    locals keep their initial values, or they describe the first paragraph
    of highest confidence. *)
Definition best_inv (answer_str : str) (paras : list sup_para) (b : best)
  : Prop :=
  (b = Best 0 (-1) (-1) None ∧
   ∀ q, q ∈ paras → (confidence answer_str q <= 0)%Q) ∨
  (∃ i p,
     best_sup_para_i b = Some i ∧ paras !! i = Some p ∧
     find_best_match_index answer_str p.1.1
     = (best_start_in_sup_para b, best_end_in_sup_para b, max_rougel b) ∧
     (0 < max_rougel b)%Q ∧
     (∀ j q, paras !! j = Some q → (confidence answer_str q <= max_rougel b)%Q) ∧
     (∀ j q, (j < i)%nat → paras !! j = Some q →
             (confidence answer_str q < max_rougel b)%Q)).

(** The value [calc_ceil_rougel] stores for [fake_answers]. *)
Definition ceil_value (fake_answers : list str) (answer_text : str) : json :=
  if (length fake_answers =? 0)%nat then JInt 0
  else JFloat (rouge_l (str_join fake_answers) answer_text).

(** The labels of one document id, taken on their own. *)
Definition doc_labels (supported_paras : gmap Z (list sup_para)) (answer : str)
    (id : Z) (labels : list label) : Prop :=
  ∃ paras texts,
    supported_paras !! id = Some paras ∧
    for_each (answer_step id paras) (str_split (marker id) answer) ([], [])
    = Ok (texts, labels).

(** What the last iteration of the loop over the document ids leaves in
    the sample. *)
Definition written (sample : gmap string json) (texts : list str)
    (labels : list label) : Prop :=
  ∃ fake_answers,
    length fake_answers = length labels ∧
    sample !! "answer_labels" = Some (JList (label_json <$> labels)) ∧
    sample !! "fake_answers" = Some (JList (JStr <$> fake_answers)) ∧
    sample !! "ceil_rougel" = Some (ceil_value fake_answers (str_join texts)).

(** A label points into the content of a document of the sample: [d] is
    one less than a marker id of the answer (a digit), it is an index Python
    accepts for [documents], and [s..e] is a non-empty range of that
    document's content. *)
Definition valid_label (sample : gmap string json) (ids : list Z) (l : label)
  : Prop :=
  let '(d, s, e) := l in
  (∃ id, id ∈ ids ∧ 0 ≤ id ≤ 9 ∧ d = id - 1) ∧
  ∃ docs m content,
    sample !! "documents" = Some (JList docs) ∧
    py_index docs d = Some (JDict m) ∧
    m !! "content" = Some (JStr content) ∧
    0 ≤ s ∧ s ≤ e ∧ e < py_len content.

End predicates.

Section ranker_predicates.
Import Ranker.

(** The tokens a list of paragraphs takes in a passage, one separator
    each. *)
Definition total {A} (paras : list (list A)) : Z :=
  foldr (λ para n, py_len para + 1 + n) 0 paras.

(** The same for the paragraphs of [paras] at the indices [ids]. *)
Definition weight {A} (paras : list (list A)) (ids : list Z) : Z :=
  foldr (λ i n, match py_index paras i with
                | Some para => py_len para + 1 + n
                | None => n
                end) 0 ids.

(** The selection loop before its [break]: the running length is the
    title, its separator and the selected paragraphs with theirs, and it is
    within the budget as soon as a paragraph is selected. *)
Definition running (doc : document) (max_doc_len : Z) (st : selection) : Prop :=
  last_para_id st = -1 ∧
  selected_para_len st
  = py_len (segmented_title doc) + 1
    + weight (segmented_paragraphs doc) (selected_para_ids st) ∧
  (selected_para_ids st = [] ∨ selected_para_len st ≤ max_doc_len).

(** What the loop over [infos] returns from [st0]: it selected the first
    [k] paragraphs, and either went through all of [infos] or stopped on
    the paragraph after them, which overflows the budget. *)
Definition selected (doc : document) (max_doc_len : Z) (infos : list para_info)
    (st0 st : selection) : Prop :=
  let kept := py_len (segmented_title doc) + 1
              + weight (segmented_paragraphs doc) (selected_para_ids st) in
  (selected_para_ids st = [] ∨ kept ≤ max_doc_len) ∧
  ∃ k : nat,
    selected_para_ids st = selected_para_ids st0 ++ (snd <$> take k infos) ∧
    ((last_para_id st = -1 ∧ take k infos = infos ∧ selected_para_len st = kept) ∨
     (∃ info para,
        infos !! k = Some info ∧ last_para_id st = info.2 ∧
        py_index (segmented_paragraphs doc) info.2 = Some para ∧
        selected_para_len st = kept + (py_len para + 1) ∧
        max_doc_len < selected_para_len st ∧
        last_para_cut_idx st = max_doc_len - selected_para_len st + 1)).

(** What [select_paragraphs] returns: the selected ids in increasing
    order, within the budget, and the paragraph the loop stopped on, if
    any. *)
Definition selection_ok (doc : document) (max_doc_len : Z) (st : selection)
  : Prop :=
  let kept := py_len (segmented_title doc) + 1
              + weight (segmented_paragraphs doc) (selected_para_ids st) in
  StronglySorted Z.lt (selected_para_ids st) ∧
  Forall (λ i, 0 ≤ i < py_len (segmented_paragraphs doc)) (selected_para_ids st) ∧
  (selected_para_ids st = [] ∨ kept ≤ max_doc_len) ∧
  ((last_para_id st = -1 ∧
    (segmented_paragraphs doc ≠ [] → selected_para_ids st ≠ [])) ∨
   (∃ para,
      0 ≤ last_para_id st < py_len (segmented_paragraphs doc) ∧
      (last_para_id st ∉ selected_para_ids st) ∧
      py_index (segmented_paragraphs doc) (last_para_id st) = Some para ∧
      max_doc_len < kept + (py_len para + 1) ∧
      last_para_cut_idx st = max_doc_len - (kept + (py_len para + 1)) + 1)).

(** The paragraphs of the token passage after the title: the selected
    ones, then the cut one when the loop stopped on a paragraph. *)
Definition passage_of (doc : document) (st : selection)
    (chosen tail : list (list str)) (out : passage) : Prop :=
  pick (segmented_paragraphs doc) (selected_para_ids st) = Ok chosen ∧
  (if -1 <? last_para_id st
   then ∃ cut, cut_last (segmented_paragraphs doc) st = Ok cut ∧ tail = [cut]
   else tail = []) ∧
  segmented_passage out
  = py_slice_to (concat_with splitter (segmented_title doc :: chosen ++ tail)) (-1).

(** A document whose feature lists have an entry for each paragraph. *)
Definition well_formed (doc : document) : Prop :=
  length (pos_paragraphs doc) = length (segmented_paragraphs doc) ∧
  length (keyword_paragraphs doc) = length (segmented_paragraphs doc) ∧
  length (paragraphs_word_in_question doc) = length (segmented_paragraphs doc).

End ranker_predicates.

Section window_predicates.
Context `{Runtime}.

(** The fallback search after some iterations: nothing was scored above 0
    yet, or the locals describe the window that holds the best score: it
    starts and ends on a character of the fragment, starts where a start
    position is enumerated, the score is the one of that window, and the
    ceiling of the end positions is its end. *)
Definition window_inv (sub doc : str) (st : search) : Prop :=
  st = Search 0 (-1) (-1) (py_len doc - 1) ∨
  ((0 < best_score st)%Q ∧
   0 ≤ best_start st ∧ best_start st < py_len doc - py_len sub ∧
   best_start st ≤ best_end st ∧ best_end st < py_len doc ∧
   (∃ c, py_index doc (best_start st) = Some c ∧ c ∈ sub) ∧
   (∃ c, py_index doc (best_end st) = Some c ∧ c ∈ sub) ∧
   best_score st
   = rouge_l (py_slice doc (best_start st) (best_end st + 1)) sub ∧
   last_end_in_sub_text st = best_end st).

(** A stored supporting paragraph is the slice of the content of its
    document at its stored offsets, and the offsets have one of the shapes
    the locator returns. *)
Definition entry_slice (content : str) (p : sup_para) : Prop :=
  p.1.1 = py_slice content p.1.2 (p.2 + 1) ∧
  ((p.1.2 = -1 ∧ p.2 = -1) ∨ (p.1.2 = 0 ∧ p.2 = -1) ∨
   (0 ≤ p.1.2 ∧ p.1.2 ≤ p.2 ∧ p.2 < py_len content)).

(** Every key of [supported_paras] has at least one entry, and its entries
    are slices of the content of its document. *)
Definition supported_slices (sample : gmap string json)
    (supported_paras : gmap Z (list sup_para)) : Prop :=
  ∀ id paras, supported_paras !! id = Some paras →
    paras ≠ [] ∧
    ∃ content, doc_content sample (id - 1) = Ok content ∧
               Forall (entry_slice content) paras.

End window_predicates.

Section passage_predicates.
Import Ranker.

(** The paragraphs joined by a separator, none after the last one. *)
Fixpoint join_with {A} (sep : A) (paras : list (list A)) : list A :=
  match paras with
  | [] => []
  | para :: rest =>
    match rest with
    | [] => para
    | _ => para ++ sep :: join_with sep rest
    end
  end.

(** A document whose feature lists have an entry for each token of the
    title and of every paragraph. *)
Definition token_aligned (doc : document) : Prop :=
  length (pos_title doc) = length (segmented_title doc) ∧
  length (keyword_title doc) = length (segmented_title doc) ∧
  length (title_word_in_question doc) = length (segmented_title doc) ∧
  Forall2 (λ p q, length p = length q)
          (segmented_paragraphs doc) (pos_paragraphs doc) ∧
  Forall2 (λ p q, length p = length q)
          (segmented_paragraphs doc) (keyword_paragraphs doc) ∧
  Forall2 (λ p q, length p = length q)
          (segmented_paragraphs doc) (paragraphs_word_in_question doc).

(** [n] is the first index of [scores] that holds the largest score. *)
Definition first_max (scores : list Q) (n : nat) : Prop :=
  ∃ best,
    scores !! n = Some best ∧
    Forall (λ s, (s <= best)%Q) scores ∧
    ∀ (j : nat) (s : Q), (j < n)%nat → scores !! j = Some s → (s < best)%Q.

End passage_predicates.

Section feature_predicates.
Import MatchFeatures.

(** The index of the sentence that holds character [j] of [content]: the
    number of separators before [j]; a separator belongs to the sentence it
    ends. *)
Definition sentence_index (content : str) (j : nat) : nat :=
  length (filter (λ c, is_separator c = true) (take j content)).

(** The entries of a column when every sentence gets one entry for each of
    its characters and one more. *)
Definition blocks {V} (distance : str → str → V) (que_str : str)
    (sents : list str) : list V :=
  foldr (λ sent column,
           replicate (S (length sent)) (distance sent que_str) ++ column)
        [] sents.

End feature_predicates.

(** ** Facts about the built-ins *)

Section builtins.

Lemma startswith_prefix (sub s : str) :
  startswith sub s = true ↔ sub `prefix_of` s.
Proof.
  revert s. induction sub as [|a sub IH]; intros [|b s]; simpl.
  - split; [intros _; apply prefix_nil | done].
  - split; [intros _; apply prefix_nil | done].
  - split; [done | intros Hp; by apply prefix_nil_not in Hp].
  - rewrite andb_true_iff, N.eqb_eq, IH. split.
    + intros [-> Hp]. by apply prefix_cons.
    + intros Hp. split; [by apply prefix_cons_inv_1 in Hp | by apply prefix_cons_inv_2 in Hp].
Qed.

Lemma startswith_false (sub s : str) :
  startswith sub s = false ↔ ¬ sub `prefix_of` s.
Proof. rewrite <-startswith_prefix. by destruct (startswith sub s). Qed.

Lemma prefix_length_le (sub s : str) :
  sub `prefix_of` s → (length sub ≤ length s)%nat.
Proof. intros [k ->]. rewrite length_app. lia. Qed.

(** [str_find] returns the least offset at which [sub] occurs. *)
Lemma str_find_Some (sub s : str) (i : nat) :
  str_find sub s = Some i →
  sub `prefix_of` drop i s ∧ (i + length sub ≤ length s)%nat ∧
  ∀ j, (j < i)%nat → ¬ sub `prefix_of` drop j s.
Proof.
  revert i. induction s as [|c s IH]; intros i; simpl.
  - destruct (startswith sub []) eqn:E; [|done].
    intros [= <-]. apply startswith_prefix in E.
    split; [done|]. split; [by apply prefix_length_le in E | lia].
  - destruct (startswith sub (c :: s)) eqn:E.
    + intros [= <-]. apply startswith_prefix in E.
      split; [done|]. split; [by apply prefix_length_le in E | lia].
    + destruct (str_find sub s) as [k|] eqn:Ek; [|done].
      intros [= <-]. destruct (IH k eq_refl) as (Hp & Hlen & Hmin).
      split; [done|]. split; [simpl; lia|].
      intros [|j] Hj; simpl.
      * by apply startswith_false.
      * apply Hmin. lia.
Qed.

Lemma str_find_None (sub s : str) :
  str_find sub s = None → ∀ j, ¬ sub `prefix_of` drop j s.
Proof.
  induction s as [|c s IH]; simpl.
  - destruct (startswith sub []) eqn:E; [done|]. intros _ j.
    rewrite drop_nil. by apply startswith_false.
  - destruct (startswith sub (c :: s)) eqn:E; [done|].
    destruct (str_find sub s) eqn:Ek; [done|]. intros _ [|j]; simpl.
    + by apply startswith_false.
    + by apply IH.
Qed.

(** [sub in s] holds exactly when [s] splits around a copy of [sub]. *)
Lemma str_find_infix (sub s l r : str) :
  s = l ++ sub ++ r → is_Some (str_find sub s).
Proof.
  intros ->. destruct (str_find sub (l ++ sub ++ r)) eqn:E; [by eexists|].
  exfalso. apply (str_find_None _ _ E (length l)).
  rewrite drop_app_length. by exists r.
Qed.

Lemma str_in_spec (sub s : str) :
  str_in sub s = true ↔ ∃ l r, s = l ++ sub ++ r.
Proof.
  unfold str_in. split.
  - destruct (str_find sub s) as [i|] eqn:E; [|done]. intros _.
    destruct (str_find_Some _ _ _ E) as ([r Hr] & _ & _).
    exists (take i s), r. by rewrite <-Hr, take_drop.
  - intros (l & r & Hs). by destruct (str_find_infix _ _ _ _ Hs) as [i ->].
Qed.

Lemma range_nil (a b : Z) : b ≤ a → range a b = [].
Proof. intros. unfold range. by replace (Z.to_nat (b - a)) with 0%nat by lia. Qed.

Lemma elem_of_range (a b x : Z) : x ∈ range a b ↔ a ≤ x < b.
Proof.
  unfold range. rewrite list_elem_of_fmap. split.
  - intros (k & -> & Hk). apply elem_of_seq in Hk. lia.
  - intros Hx. exists (Z.to_nat (x - a)). split; [lia|]. apply elem_of_seq. lia.
Qed.

Lemma elem_of_range_down (a b x : Z) : x ∈ range_down a b ↔ b < x ≤ a.
Proof.
  unfold range_down. rewrite list_elem_of_fmap. split.
  - intros (k & -> & Hk). apply elem_of_seq in Hk. lia.
  - intros Hx. exists (Z.to_nat (a - x)). split; [lia|]. apply elem_of_seq. lia.
Qed.

(** Lengths of slices. *)
Lemma py_slice_length {A} (l : list A) (a b : Z) :
  0 ≤ a → a ≤ b → b ≤ py_len l → py_len (py_slice l a b) = b - a.
Proof.
  intros Ha Hab Hb. unfold py_slice, slice_bound, py_len in *.
  destruct (a <? 0) eqn:Ea; [lia|]. destruct (b <? 0) eqn:Eb; [lia|].
  rewrite length_take, length_drop. lia.
Qed.

Lemma py_slice_empty {A} (l : list A) (a b : Z) :
  slice_bound (py_len l) b ≤ slice_bound (py_len l) a → py_slice l a b = [].
Proof.
  intros Hle. unfold py_slice.
  by replace (Z.to_nat _) with 0%nat by lia.
Qed.

(** [l[-1:0]] and [l[0:0]] are empty. *)
Lemma py_slice_not_found {A} (l : list A) : py_slice l (-1) 0 = [].
Proof. apply py_slice_empty. unfold slice_bound; simpl. lia. Qed.

Lemma py_slice_zero {A} (l : list A) : py_slice l 0 0 = [].
Proof. apply py_slice_empty. unfold slice_bound; simpl. lia. Qed.

(** [l[:b]] for [b <= 0]: all but the last [-b] elements. *)
Lemma py_slice_to_neg_length {A} (l : list A) (b : Z) :
  b < 0 → py_len (py_slice_to l b) = Z.max 0 (py_len l + b).
Proof.
  intros Hb. unfold py_slice_to, py_slice, slice_bound, py_len.
  change (0 <? 0) with false. cbv iota. destruct (b <? 0) eqn:Eb; [|lia].
  rewrite length_take, length_drop. lia.
Qed.

Lemma py_slice_to_zero {A} (l : list A) : py_slice_to l 0 = [].
Proof. apply py_slice_zero. Qed.

Lemma py_index_Some {A} (l : list A) (i : Z) (x : A) :
  py_index l i = Some x → - py_len l ≤ i < py_len l.
Proof.
  unfold py_index, py_len. destruct (0 <=? i) eqn:E.
  - intros Hl. apply lookup_lt_Some in Hl. lia.
  - destruct (- _ <=? i) eqn:E'; [|done]. intros Hl. lia.
Qed.

Lemma py_index_nonneg {A} (l : list A) (i : Z) :
  0 ≤ i → py_index l i = l !! Z.to_nat i.
Proof. intros. unfold py_index. by destruct (0 <=? i) eqn:E; [|lia]. Qed.

(** The monad. *)
Lemma bind_Ok {A B} (r : result A) (k : A → result B) (b : B) :
  r >>= k = Ok b ↔ ∃ a, r = Ok a ∧ k a = Ok b.
Proof.
  destruct r as [a|e]; simpl.
  - split; [by exists a | by intros (a' & [= <-] & Hk)].
  - split; [done | by intros (a' & [=] & _)].
Qed.

Lemma map_result_Ok {A B} (f : A → result B) (l : list A) (l' : list B) :
  map_result f l = Ok l' ↔ Forall2 (λ x y, f x = Ok y) l l'.
Proof.
  revert l'. induction l as [|x l IH]; intros l'; simpl.
  - split; [intros [= <-]; constructor | by intros ->%Forall2_nil_inv_l].
  - rewrite bind_Ok. split.
    + intros (y & Hy & (ys & Hys & [= <-])%bind_Ok). constructor; [done|].
      by apply IH.
    + intros (y & ys & Hy & Hys & ->)%Forall2_cons_inv_l.
      exists y. split; [done|]. apply bind_Ok. exists ys. by rewrite IH.
Qed.

Lemma for_each_app {A S} (body : S → A → result S) (l1 l2 : list A) (s : S) :
  for_each body (l1 ++ l2) s = for_each body l1 s >>= for_each body l2.
Proof.
  revert s. induction l1 as [|x l1 IH]; intros s; simpl; [done|].
  destruct (body s x); simpl; [apply IH | done].
Qed.

(** A loop raises as soon as one of its elements makes the body raise in
    every state. *)
Lemma for_each_raises {A S} (body : S → A → result S) (l : list A) (x : A) :
  x ∈ l → (∀ s, ∃ e, body s x = Raise e) →
  ∀ s, ∃ e, for_each body l s = Raise e.
Proof.
  intros Hx Hraise. induction l as [|y l IH]; intros s; [by apply elem_of_nil in Hx|].
  simpl. apply elem_of_cons in Hx as [<-|Hx].
  - destruct (Hraise s) as [e ->]. by exists e.
  - destruct (body s y); simpl; [by apply IH | by eexists].
Qed.

(** A loop preserves what its body preserves. *)
Lemma for_each_invariant {A S} (body : S → A → result S) (P : S → Prop)
    (l : list A) (s s' : S) :
  (∀ s x s', x ∈ l → P s → body s x = Ok s' → P s') →
  P s → for_each body l s = Ok s' → P s'.
Proof.
  revert s. induction l as [|x l IH]; intros s Hbody Hs; simpl.
  - by intros [= <-].
  - intros (s1 & H1 & H2)%bind_Ok. eapply IH; [|..|done].
    + intros ???? . apply Hbody. by right.
    + eapply Hbody; [by left|done..].
Qed.

(** Scores. *)
Lemma Qlt_b_true (a b : Q) : Qlt_b a b = true ↔ (a < b)%Q.
Proof.
  unfold Qlt_b. rewrite negb_true_iff, <-not_true_iff_false, Qle_bool_iff.
  split; [apply Qnot_le_lt | apply Qlt_not_le].
Qed.

Lemma Qlt_b_false (a b : Q) : Qlt_b a b = false ↔ (b <= a)%Q.
Proof. unfold Qlt_b. by rewrite negb_false_iff, Qle_bool_iff. Qed.

(** [list.sort] permutes its list and leaves it sorted. *)
Lemma insert_sorted_perm {A} (lt : A → A → bool) (x : A) (l : list A) :
  insert_sorted lt x l ≡ₚ x :: l.
Proof.
  induction l as [|y l IH]; simpl; [done|].
  destruct (lt y x); [|done]. by rewrite IH, Permutation_swap.
Qed.

Lemma py_sort_perm {A} (lt : A → A → bool) (l : list A) : py_sort lt l ≡ₚ l.
Proof.
  induction l as [|x l IH]; simpl; [done|]. by rewrite insert_sorted_perm, IH.
Qed.

Lemma insert_sorted_Z (x : Z) (l : list Z) :
  Sorted Z.le l → Sorted Z.le (insert_sorted Z.ltb x l).
Proof.
  induction 1 as [|y l Hs IH Hhd]; simpl; [by repeat constructor|].
  destruct (y <? x) eqn:E.
  - constructor; [done|]. destruct Hhd as [|z l Hyz]; simpl.
    + constructor. lia.
    + destruct (z <? x) eqn:E'; constructor; lia.
  - constructor; [by constructor|]. constructor. lia.
Qed.

Lemma py_sort_Z_sorted (l : list Z) : Sorted Z.le (py_sort Z.ltb l).
Proof. induction l; simpl; [constructor | by apply insert_sorted_Z]. Qed.

End builtins.

(** ** The runtime of the examples *)

Lemma ascii_digit_value_range (c : char) (v : Z) :
  Demo.ascii_digit_value c = Some v → 0 ≤ v ≤ 9.
Proof.
  unfold Demo.ascii_digit_value.
  destruct ((48 <=? c)%N && (c <=? 57)%N) eqn:E; [|done].
  apply andb_true_iff in E as [E1%N.leb_le E2%N.leb_le]. intros [= <-]. lia.
Qed.

Lemma increasing_order_perm (l : list Z) :
  Demo.increasing_order l ≡ₚ remove_dups l.
Proof. apply py_sort_perm. Qed.

Lemma ascii_keys_length (l : list string) :
  length (Demo.ascii_keys l) = length l.
Proof. apply length_fmap. Qed.

#[local] Instance demo_runtime : Runtime := {|
  digit_value := Demo.ascii_digit_value;
  digit_value_range := ascii_digit_value_range;
  is_whitespace := Demo.unicode_whitespace;
  set_order := Demo.increasing_order;
  set_order_perm := increasing_order_perm;
  dict_keys := Demo.ascii_keys;
  dict_keys_length := ascii_keys_length;
  rouge_l := Demo.rouge_l_score;
|}.

(** ** The span locator: exact hits and the range of the results *)

Section locator_facts.
Context `{Runtime}.

Lemma str_find_nil (doc : str) (i : nat) : str_find [] doc = Some i → i = 0%nat.
Proof. destruct doc; simpl; congruence. Qed.

Lemma exact_hit_located (sub doc : str) (i : nat) :
  str_find sub doc = Some i → located doc (exact_hit sub i).
Proof.
  intros Hf. unfold located, exact_hit. destruct sub as [|c sub].
  - apply str_find_nil in Hf as ->. right; left. by simpl.
  - apply str_find_Some in Hf as (_ & Hlen & _). right; right.
    unfold py_len. simpl in *. repeat split; lia || done.
Qed.

Lemma search_inv_positive (doc : str) (st : search) (score : Q) :
  search_inv doc st → Qlt_b (best_score st) score = true → (0 < score)%Q.
Proof.
  intros [_ Hst] Hlt%Qlt_b_true. destruct Hst as [(E & _)|(Hpos & _)].
  - rewrite E in Hlt. exact Hlt.
  - exact (Qlt_trans _ _ _ Hpos Hlt).
Qed.

Lemma end_step_inv (sub doc : str) (chars : gset char) (start_idx end_idx : Z)
    (st : search) :
  0 ≤ start_idx → start_idx ≤ end_idx → end_idx ≤ py_len doc - 1 →
  search_inv doc st →
  search_inv doc (end_step sub doc chars start_idx st end_idx).
Proof.
  intros H0 Hse He Hinv. unfold end_step.
  destruct (py_index doc end_idx); [|done].
  destruct (bool_decide _); [|done].
  destruct (Qlt_b _ _) eqn:Hlt; [|done].
  split; simpl; [lia|]. right. split; [by eapply search_inv_positive|lia].
Qed.

Lemma end_loop_inv (sub doc : str) (chars : gset char) (start_idx : Z)
    (ends : list Z) (st : search) :
  0 ≤ start_idx →
  Forall (λ end_idx, start_idx ≤ end_idx ≤ py_len doc - 1) ends →
  search_inv doc st →
  search_inv doc (foldl (end_step sub doc chars start_idx) st ends).
Proof.
  intros H0 Hends. revert st.
  induction Hends as [|e ends [??] _ IH]; intros st Hinv; simpl; [done|].
  apply IH. by apply end_step_inv.
Qed.

Lemma start_step_inv (sub doc : str) (chars : gset char) (start_idx : Z)
    (st : search) :
  0 ≤ start_idx → search_inv doc st →
  search_inv doc (start_step sub doc chars st start_idx).
Proof.
  intros H0 Hinv. unfold start_step.
  destruct (py_index doc start_idx); [|done].
  destruct (bool_decide _); [|done].
  apply end_loop_inv; [done| |done].
  apply Forall_forall. intros e He%elem_of_range_down.
  destruct Hinv as [Hlast _]. lia.
Qed.

Lemma fuzzy_search_inv (sub doc : str) : search_inv doc (fuzzy_search sub doc).
Proof.
  unfold fuzzy_search.
  assert (Hstarts : Forall (λ i, 0 ≤ i) (range 0 (py_len doc - py_len sub))).
  { apply Forall_forall. intros i Hi%elem_of_range. lia. }
  assert (Hinit : search_inv doc (Search 0 (-1) (-1) (py_len doc - 1))).
  { split; simpl; [lia|]. by left. }
  revert Hinit. generalize (Search 0 (-1) (-1) (py_len doc - 1)).
  induction Hstarts as [|i starts Hi _ IH]; intros st Hinv; simpl; [done|].
  apply IH. by apply start_step_inv.
Qed.

(** The indices the two loops read are inside the container: the [None]
    cases of [start_step] and [end_step] are not taken. *)
Lemma start_idx_in_range (sub doc : str) (start_idx : Z) :
  start_idx ∈ range 0 (py_len doc - py_len sub) →
  is_Some (py_index doc start_idx).
Proof.
  intros Hi%elem_of_range. rewrite py_index_nonneg by lia.
  apply lookup_lt_is_Some. unfold py_len in *. lia.
Qed.

Lemma end_idx_in_range (doc : str) (st : search) (start_idx end_idx : Z) :
  search_inv doc st → 0 ≤ start_idx →
  end_idx ∈ range_down (last_end_in_sub_text st) (start_idx - 1) →
  is_Some (py_index doc end_idx).
Proof.
  intros [Hlast _] H0 Hi%elem_of_range_down. rewrite py_index_nonneg by lia.
  apply lookup_lt_is_Some. unfold py_len in *. lia.
Qed.

Lemma find_best_match_index_located (sub doc : str) :
  located doc (find_best_match_index sub doc).
Proof.
  unfold find_best_match_index.
  destruct (str_find sub doc) as [i|] eqn:E1; [by apply exact_hit_located|].
  destruct (if endswith_char sub full_stop then _ else None) as [i|] eqn:E2.
  { destruct (endswith_char sub full_stop); [|done]. by apply exact_hit_located. }
  destruct (str_find (str_replace _ _ _) doc) as [i|] eqn:E3;
    [by apply exact_hit_located|].
  destruct (fuzzy_search_inv sub doc) as [_ Hinv].
  destruct (Qeq_bool _ 0) eqn:E0; [by left|].
  destruct Hinv as [(Ez & _)|(Hpos & ? & ? & ?)].
  - rewrite Ez in E0. done.
  - right; right. done.
Qed.

(** Nothing is located in an empty container. *)
Lemma find_best_match_index_nil (sub : str) :
  (find_best_match_index sub []).1.2 = -1.
Proof.
  pose proof (find_best_match_index_located sub []) as Hloc.
  destruct (find_best_match_index sub []) as [[s e] c]. simpl in *.
  destruct Hloc as [(_ & -> & _)|[(_ & -> & _)|(? & ? & ? & _)]]; [done..|].
  unfold py_len in *. simpl in *. lia.
Qed.

End locator_facts.

(** C1. When the fragment occurs in the container as it is, the locator
    returns the offset [i] of its first occurrence as the start,
    [i + len(fragment) - 1] as the end, and confidence 1. *)
Theorem exact_containment `{Runtime} (fragment container : str) :
  (∃ l r, container = l ++ fragment ++ r) →
  ∃ i : nat,
    find_best_match_index fragment container
    = (Z.of_nat i, Z.of_nat i + py_len fragment - 1, 1%Q) ∧
    fragment `prefix_of` drop i container ∧
    ∀ j, (j < i)%nat → ¬ fragment `prefix_of` drop j container.
Proof.
  intros (l & r & Hc).
  destruct (str_find_infix _ _ _ _ Hc) as [i Hi].
  exists i. unfold find_best_match_index. rewrite Hi.
  apply str_find_Some in Hi as (Hp & _ & Hmin). done.
Qed.

Lemma exact_containment_witness :
  ∃ i : nat,
    find_best_match_index (lit "cd") (lit "abcdecd")
    = (Z.of_nat i, Z.of_nat i + py_len (lit "cd") - 1, 1%Q) ∧
    lit "cd" `prefix_of` drop i (lit "abcdecd") ∧
    ∀ j, (j < i)%nat → ¬ lit "cd" `prefix_of` drop j (lit "abcdecd").
Proof.
  apply (exact_containment (lit "cd") (lit "abcdecd")).
  exists (lit "ab"), (lit "ecd"). reflexivity.
Defined.

(** The locator on the examples of the specification: 北京市。 in
    他在北京市工作 is found through its trimmed variant, xyz123 is not found
    in 完全不相关的文本, and abd is found in xxabcxx by the fallback search. *)
Example trailing_full_stop_trimmed :
  find_best_match_index [21271; 20140; 24066; 12290]%N
                        [20182; 22312; 21271; 20140; 24066; 24037; 20316]%N
  = (2, 4, 1%Q).
Proof. reflexivity. Qed.

Example unrelated_text_not_found :
  find_best_match_index (lit "xyz123")
                        [23436; 20840; 19981; 30456; 20851; 30340; 25991; 26412]%N
  = (-1, -1, 0%Q).
Proof. reflexivity. Qed.

Example fallback_window :
  find_best_match_index (lit "abd") (lit "xxabcxx") = (2, 3, (36600 # 47400)%Q).
Proof. vm_compute. reflexivity. Qed.

(** C9. When no exact variant succeeds and the fragment is at least as
    long as the container, the range of start positions is empty, the
    fallback search scores no window, and the locator returns
    [(-1, -1, 0)]. *)
Theorem no_window_for_long_fragment `{Runtime} (fragment container : str) :
  str_in fragment container = false →
  endswith_char fragment full_stop
    && str_in (py_slice_to fragment (-1)) container = false →
  str_in (str_replace [space] [] fragment) container = false →
  py_len container ≤ py_len fragment →
  range 0 (py_len container - py_len fragment) = [] ∧
  fuzzy_search fragment container = Search 0 (-1) (-1) (py_len container - 1) ∧
  find_best_match_index fragment container = (-1, -1, 0%Q).
Proof.
  intros H1 H2 H3 Hlen.
  assert (Hr : range 0 (py_len container - py_len fragment) = [])
    by (apply range_nil; lia).
  assert (Hf : fuzzy_search fragment container
               = Search 0 (-1) (-1) (py_len container - 1))
    by (unfold fuzzy_search; by rewrite Hr).
  split; [done|]. split; [done|].
  unfold find_best_match_index, str_in in *.
  destruct (str_find fragment container); [done|].
  destruct (endswith_char fragment full_stop); simpl in H2.
  - destruct (str_find (py_slice_to fragment (-1)) container); [done|].
    destruct (str_find (str_replace [space] [] fragment) container); [done|].
    by rewrite Hf.
  - destruct (str_find (str_replace [space] [] fragment) container); [done|].
    by rewrite Hf.
Qed.

Lemma no_window_for_long_fragment_witness :
  range 0 (py_len (lit "abc") - py_len (lit "abd")) = [] ∧
  fuzzy_search (lit "abd") (lit "abc") = Search 0 (-1) (-1) (py_len (lit "abc") - 1) ∧
  find_best_match_index (lit "abd") (lit "abc") = (-1, -1, 0%Q).
Proof.
  apply (no_window_for_long_fragment (lit "abd") (lit "abc"));
    [reflexivity | reflexivity | reflexivity | vm_compute; discriminate].
Defined.

(** ** The resolver: the located supporting paragraphs *)

Section resolver_facts.
Context `{Runtime}.

Lemma as_str_Ok (v : json) (s : str) : as_str v = Ok s ↔ v = JStr s.
Proof. destruct v; simpl; split; congruence. Qed.

Lemma as_list_Ok (v : json) (l : list json) : as_list v = Ok l ↔ v = JList l.
Proof. destruct v; simpl; split; congruence. Qed.

Lemma as_dict_Ok (v : json) (m : gmap string json) :
  as_dict v = Ok m ↔ v = JDict m.
Proof. destruct v; simpl; split; congruence. Qed.

Lemma get_Ok (d : gmap string json) (k : string) (v : json) :
  get d k = Ok v ↔ d !! k = Some v.
Proof. unfold get. destruct (d !! k); simpl; split; congruence. Qed.

(** The matches of the marker pattern. *)
Lemma match_marker_Some (s m : str) :
  match_marker s = Some m →
  ∃ d v, digit_value d = Some v ∧ m = lit "@content" ++ [d; 64%N].
Proof.
  unfold match_marker. destruct (startswith _ s) eqn:Hs; [|done].
  apply startswith_prefix in Hs as [k ->].
  change (drop 8 (lit "@content" ++ k)) with k.
  destruct k as [|d [|a rest]]; [done..|].
  destruct (digit_value d) as [v|] eqn:Hd; [|done].
  destruct (N.eqb_spec a 64) as [->|]; [|done].
  intros [= <-]. by exists d, v.
Qed.

Lemma findall_markers (s : str) :
  Forall (λ m, ∃ d v, digit_value d = Some v ∧ m = lit "@content" ++ [d; 64%N])
         (findall s).
Proof.
  unfold findall. generalize 0%nat.
  induction s as [|c s IH]; intros skip; simpl; [constructor|].
  destruct skip; [|apply IH].
  destruct (match_marker (c :: s)) as [m|] eqn:Hm; [|apply IH].
  constructor; [by eapply match_marker_Some|apply IH].
Qed.

(** [int(doc[-2:-1])] is defined on every match. *)
Lemma marker_digit_ok (s : str) :
  Forall (λ doc, is_Some (int_of_digit (py_slice doc (-2) (-1)))) (findall s).
Proof.
  eapply Forall_impl; [apply findall_markers|].
  intros m (d & v & Hd & ->). exists v. exact Hd.
Qed.

(** The document ids of a marked string are distinct digits. *)
Lemma find_answer_in_docid_range (s : str) (id : Z) :
  id ∈ find_answer_in_docid s → 0 ≤ id ≤ 9.
Proof.
  unfold find_answer_in_docid. rewrite set_order_perm, elem_of_remove_dups.
  intros (m & Hm & Hint)%list_elem_of_omap.
  pose proof (findall_markers s) as Hall. rewrite Forall_forall in Hall.
  destruct (Hall m Hm) as (d & v & Hd & ->).
  change (digit_value d = Some id) in Hint. by eapply digit_value_range.
Qed.

Lemma find_answer_in_docid_NoDup (s : str) : NoDup (find_answer_in_docid s).
Proof.
  unfold find_answer_in_docid. rewrite set_order_perm. apply NoDup_remove_dups.
Qed.

Lemma doc_content_Ok (sample : gmap string json) (i : Z) (content : str) :
  doc_content sample i = Ok content ↔
  ∃ docs m, sample !! "documents" = Some (JList docs) ∧
            py_index docs i = Some (JDict m) ∧
            m !! "content" = Some (JStr content).
Proof.
  unfold doc_content. split.
  - intros (v & Hv%get_Ok & Hrest)%bind_Ok.
    apply bind_Ok in Hrest as (m & (d & Hd & ->%as_dict_Ok)%bind_Ok & Hc).
    apply bind_Ok in Hc as (c & Hc%get_Ok & ->%as_str_Ok).
    destruct v as [| | | |s|docs|]; try done.
    + simpl in Hd. by destruct (py_index s i).
    + exists docs, m. split; [done|]. split; [|done].
      simpl in Hd. by destruct (py_index docs i); simplify_eq/=.
  - intros (docs & m & Hdocs & Hi & Hc). unfold get.
    rewrite Hdocs; simpl. rewrite Hi; simpl. by rewrite Hc.
Qed.

(** [doc_content] reads the ["documents"] field only. *)
Lemma doc_content_frame (s s' : gmap string json) (i : Z) :
  s' !! "documents" = s !! "documents" → doc_content s' i = doc_content s i.
Proof. unfold doc_content, get. by intros ->. Qed.

Lemma located_entry_ok (content : str) (s e : Z) (c : Q) :
  located content (s, e, c) → entry_ok content (py_slice content s (e + 1), s, e).
Proof.
  unfold entry_ok; simpl.
  intros [(-> & -> & _)|[(-> & -> & _)|(Hs & Hse & He & _)]].
  - left. apply py_slice_not_found.
  - left. apply py_slice_zero.
  - right. split; [done|]. rewrite py_slice_length; lia.
Qed.

Lemma support_step_inv (sample : gmap string json) (sp : str) (id : Z)
    (sup sup' : gmap Z (list sup_para)) (para_str : str) :
  id ∈ find_answer_in_docid sp → para_str ∈ str_split (marker id) sp →
  supported_inv sample sp sup →
  support_step sample id sup para_str = Ok sup' →
  supported_inv sample sp sup'.
Proof.
  intros Hid Hpiece Hinv. unfold support_step.
  destruct (negb _ && negb _) eqn:Hq; [|by intros [= <-]].
  intros (content & Hc & Hstep)%bind_Ok.
  pose proof (find_best_match_index_located
                (str_replace (marker_tail id) [] para_str) content) as Hloc.
  destruct (find_best_match_index _ content) as [[s e] c].
  apply located_entry_ok in Hloc.
  intros id' paras' Hl.
  destruct (decide (id' = id)) as [->|Hne].
  - split.
    { split; [done|]. apply Exists_exists. by exists para_str. }
    exists content. split; [done|].
    destruct (sup !! id) as [l|] eqn:El; simplify_eq/=;
      rewrite lookup_insert_eq in Hl; simplify_eq.
    + destruct (Hinv _ _ El) as (_ & content' & Hc' & Hl').
      rewrite Hc in Hc'. simplify_eq. apply Forall_app. split; [done|].
      by constructor.
    + by constructor.
  - apply Hinv. destruct (sup !! id); simplify_eq/=;
      by rewrite lookup_insert_ne in Hl.
Qed.

Lemma build_supported_paras_inv (sample : gmap string json) (sp : str)
    (sup : gmap Z (list sup_para)) :
  build_supported_paras sample sp = Ok sup → supported_inv sample sp sup.
Proof.
  unfold build_supported_paras.
  apply (for_each_invariant _ (supported_inv sample sp)).
  - intros sup0 id sup1 Hid Hinv.
    apply (for_each_invariant _ (supported_inv sample sp)); [|done].
    intros sup2 para_str sup3 Hpiece Hinv2. by apply support_step_inv.
  - intros id paras Hl. by rewrite lookup_empty in Hl.
Qed.

(** ** The resolver: the best supporting paragraph of a fragment *)

Lemma enumerate_snoc {A} (l : list A) (x : A) :
  enumerate (l ++ [x]) = enumerate l ++ [(length l, x)].
Proof.
  unfold enumerate. rewrite length_app; simpl.
  rewrite Nat.add_1_r, seq_S, zip_with_app by (by rewrite length_seq).
  done.
Qed.

Lemma best_match_snoc (answer_str : str) (paras : list sup_para) (p : sup_para) :
  best_match answer_str (paras ++ [p])
  = best_step answer_str (best_match answer_str paras) (length paras, p).
Proof. unfold best_match. by rewrite enumerate_snoc, foldl_app. Qed.

Lemma best_match_inv (answer_str : str) (paras : list sup_para) :
  best_inv answer_str paras (best_match answer_str paras).
Proof.
  induction paras as [|p paras IH] using rev_ind.
  { left. split; [done|]. by intros q ?%elem_of_nil. }
  rewrite best_match_snoc. set (b := best_match answer_str paras) in *.
  assert (Hle : ∀ j q, paras !! j = Some q →
                       (confidence answer_str q <= max_rougel b)%Q).
  { destruct IH as [(-> & Hall)|(i & p0 & _ & _ & _ & _ & Hall & _)].
    - intros j q Hq. apply Hall. by eapply list_elem_of_lookup_2.
    - done. }
  assert (Hnn : (0 <= max_rougel b)%Q).
  { destruct IH as [(-> & _)|(_ & _ & _ & _ & _ & Hpos & _)]; [done|].
    by apply Qlt_le_weak. }
  unfold best_step.
  destruct (find_best_match_index answer_str p.1.1) as [[s e] r] eqn:Er.
  assert (Hr : confidence answer_str p = r) by (unfold confidence; by rewrite Er).
  destruct (Qlt_b (max_rougel b) r) eqn:Hlt.
  - apply Qlt_b_true in Hlt. right. exists (length paras), p. simpl.
    split; [done|]. split; [by apply list_lookup_middle|].
    split; [done|]. split; [by eapply Qle_lt_trans|]. split.
    + intros j q Hq. apply lookup_app_Some in Hq as [Hq|[Hj Hq]].
      * apply Qlt_le_weak. eapply Qle_lt_trans; [by eapply Hle|done].
      * apply list_lookup_singleton_Some in Hq as [_ <-]. rewrite Hr.
        apply Qle_refl.
    + intros j q Hj Hq. rewrite lookup_app_l in Hq by done.
      eapply Qle_lt_trans; [by eapply Hle|done].
  - apply Qlt_b_false in Hlt.
    destruct IH as [(Hb & Hall)|(i & p0 & Hi & Hp0 & Hf & Hpos & Hmax & Hfirst)].
    + left. split; [done|]. intros q [Hq|Hq%list_elem_of_singleton]%elem_of_app.
      * by apply Hall.
      * subst q. rewrite Hr. by rewrite Hb in Hlt.
    + right. exists i, p0. split; [done|].
      split; [by apply lookup_app_l_Some|]. split; [done|]. split; [done|].
      split.
      * intros j q Hq. apply lookup_app_Some in Hq as [Hq|[Hj Hq]];
          [by eapply Hmax|].
        apply list_lookup_singleton_Some in Hq as [_ <-]. by rewrite Hr.
      * intros j q Hj Hq. apply lookup_app_Some in Hq as [Hq|[Hj' Hq]];
          [by eapply Hfirst|].
        apply lookup_lt_Some in Hp0. exfalso. lia.
Qed.

(** The label of a fragment, from the first paragraph of highest
    confidence. *)
Lemma fragment_label_first_best (id : Z) (answer_str : str)
    (paras : list sup_para) (i : nat) (p : sup_para) (s e : Z) (c : Q) :
  paras !! i = Some p →
  find_best_match_index answer_str p.1.1 = (s, e, c) →
  (0 < c)%Q →
  (∀ j q, paras !! j = Some q → (confidence answer_str q <= c)%Q) →
  (∀ j q, (j < i)%nat → paras !! j = Some q → (confidence answer_str q < c)%Q) →
  fragment_label id answer_str paras
  = Ok (if e =? -1 then None
        else Some (id - 1, s + p.1.2, s + p.1.2 + (e - s))).
Proof.
  intros Hp Hf Hpos Hmax Hfirst.
  assert (Hc : confidence answer_str p = c) by (unfold confidence; by rewrite Hf).
  unfold fragment_label.
  destruct (best_match_inv answer_str paras)
    as [(Hb & Hall)|(i' & p' & Hi' & Hp' & Hf' & Hpos' & Hmax' & Hfirst')].
  { exfalso. apply (Qlt_not_le _ _ Hpos). rewrite <-Hc. apply Hall.
    by eapply list_elem_of_lookup_2. }
  set (b := best_match answer_str paras) in *.
  assert (Hc' : confidence answer_str p' = max_rougel b)
    by (unfold confidence; by rewrite Hf').
  assert (i' = i) as ->.
  { destruct (Nat.lt_trichotomy i' i) as [Hlt|[->|Hgt]]; [|done|].
    - exfalso. pose proof (Hfirst _ _ Hlt Hp') as H1.
      pose proof (Hmax' _ _ Hp) as H2. rewrite Hc' in H1. rewrite Hc in H2.
      by apply (Qlt_not_le _ _ H1).
    - exfalso. pose proof (Hfirst' _ _ Hgt Hp) as H1.
      pose proof (Hmax _ _ Hp') as H2. rewrite Hc' in H2. rewrite Hc in H1.
      by apply (Qlt_not_le _ _ H1). }
  rewrite Hp in Hp'. injection Hp' as <-.
  rewrite Hf in Hf'. injection Hf' as Hs He Hcq.
  pose proof (find_best_match_index_located answer_str p.1.1) as Hloc.
  rewrite Hf in Hloc. rewrite Hi'; simpl. rewrite Hp; simpl.
  rewrite <-Hs, <-He.
  destruct Hloc as [(_ & _ & Hz)|[(-> & -> & _)|(? & ? & ? & _)]].
  - rewrite Hz in Hpos. by apply Qlt_irrefl in Hpos.
  - done.
  - destruct (s =? -1) eqn:E1; [lia|]. destruct (e =? -1) eqn:E2; [lia|]. done.
Qed.

(** A fragment that no paragraph locates with a positive confidence has no
    label. *)
Lemma fragment_label_none (id : Z) (answer_str : str) (paras : list sup_para) :
  (∀ q, q ∈ paras → (confidence answer_str q <= 0)%Q) →
  fragment_label id answer_str paras = Ok None.
Proof.
  intros Hall. unfold fragment_label.
  destruct (best_match_inv answer_str paras)
    as [(-> & _)|(i & p & _ & Hp & Hf & Hpos & _)]; [done|].
  exfalso. apply (Qlt_not_le _ _ Hpos).
  assert (confidence answer_str p = max_rougel (best_match answer_str paras))
    as <- by (unfold confidence; by rewrite Hf).
  apply Hall. by eapply list_elem_of_lookup_2.
Qed.

(** ** The resolver: the loops over fragments and documents *)

(** A label of a fragment lies inside the content of its document. *)
Lemma fragment_label_valid (id : Z) (answer_str : str) (paras : list sup_para)
    (content : str) (d s e : Z) :
  Forall (entry_ok content) paras →
  fragment_label id answer_str paras = Ok (Some (d, s, e)) →
  d = id - 1 ∧ 0 ≤ s ∧ s ≤ e ∧ e < py_len content.
Proof.
  intros Hok. unfold fragment_label.
  destruct (best_match_inv answer_str paras)
    as [(-> & _)|(i & p & Hi & Hp & Hf & Hpos & _)]; [done|].
  set (b := best_match answer_str paras) in *.
  pose proof (find_best_match_index_located answer_str p.1.1) as Hloc.
  rewrite Hf in Hloc.
  destruct (negb _ && negb _) eqn:Hc; [|done].
  rewrite Hi; simpl. rewrite Hp; simpl. intros [= <- <- <-].
  apply andb_true_iff in Hc as [Hs%negb_true_iff%Z.eqb_neq He%negb_true_iff%Z.eqb_neq].
  destruct Hloc as [(? & _)|[(_ & ? & _)|(? & ? & Hlen & _)]]; [done..|].
  rewrite Forall_forall in Hok.
  destruct (Hok p) as [Hnil|[? ?]]; [by eapply list_elem_of_lookup_2|..].
  - rewrite Hnil in Hlen. unfold py_len in Hlen. simpl in Hlen. lia.
  - lia.
Qed.

(** What one piece of the answer appends does not depend on the lists it
    appends to. *)
Lemma answer_step_shift (id : Z) (paras : list sup_para) (texts : list str)
    (labels : list label) (fr : str) :
  answer_step id paras (texts, labels) fr
  = let* '(t, l) := answer_step id paras ([], []) fr in
    Ok (texts ++ t, labels ++ l).
Proof.
  unfold answer_step. destruct (negb _ && negb _); simpl.
  - destruct (fragment_label _ _ _) as [[x|]|e]; simpl; by rewrite ?app_nil_r.
  - by rewrite !app_nil_r.
Qed.

Lemma answer_loop_shift (id : Z) (paras : list sup_para) (frs : list str)
    (texts : list str) (labels : list label) :
  for_each (answer_step id paras) frs (texts, labels)
  = let* '(t, l) := for_each (answer_step id paras) frs ([], []) in
    Ok (texts ++ t, labels ++ l).
Proof.
  revert texts labels.
  induction frs as [|fr frs IH]; intros texts labels; cbn [for_each].
  { simpl. by rewrite !app_nil_r. }
  rewrite answer_step_shift.
  destruct (answer_step id paras ([], []) fr) as [[t l]|e]; simpl; [|done].
  rewrite IH, (IH t l).
  destruct (for_each _ frs ([], [])) as [[t' l']|e]; simpl; [|done].
  by rewrite !(assoc_L (++)).
Qed.

(** Every label a document contributes is the label of one of its
    fragments. *)
Lemma answer_loop_labels (id : Z) (paras : list sup_para) (frs : list str)
    (t : list str) (l : list label) :
  for_each (answer_step id paras) frs ([], []) = Ok (t, l) →
  Forall (λ x, ∃ a, fragment_label id a paras = Ok (Some x)) l.
Proof.
  revert t l. induction frs as [|fr frs IH]; intros t l; cbn [for_each].
  { intros [= <- <-]. constructor. }
  intros ([t1 l1] & H1 & H2)%bind_Ok. rewrite answer_loop_shift in H2.
  destruct (for_each _ frs ([], [])) as [[t2 l2]|e] eqn:E2; [|done].
  injection H2 as <- <-. apply Forall_app. split; [|by eapply IH].
  revert H1. unfold answer_step. destruct (negb _ && negb _).
  - intros (found & Hfound & Hret)%bind_Ok.
    destruct found as [x|]; injection Hret as <- <-; constructor; [|done].
    by eexists.
  - intros [= <- <-]. constructor.
Qed.

Lemma map_result_as_label (labels : list label) :
  map_result as_label (label_json <$> labels) = Ok labels.
Proof.
  apply map_result_Ok. induction labels as [|[[d s] e] labels IH]; simpl;
    by constructor.
Qed.

Lemma calc_ceil_rougel_Ok (answer_text : str) (sample sample' : gmap string json)
    (labels : list label) :
  sample !! "answer_labels" = Some (JList (label_json <$> labels)) →
  calc_ceil_rougel answer_text sample = Ok sample' →
  ∃ fake_answers,
    length fake_answers = length labels ∧
    sample' = <["ceil_rougel" := ceil_value fake_answers answer_text]>
                (<["fake_answers" := JList (JStr <$> fake_answers)]> sample).
Proof.
  intros Hl. unfold calc_ceil_rougel, get. rewrite Hl; simpl.
  rewrite map_result_as_label; simpl.
  intros (fake & Hfake%map_result_Ok & Hret)%bind_Ok. exists fake.
  split; [symmetry; by eapply Forall2_length|]. unfold ceil_value.
  destruct (length fake =? 0)%nat; by injection Hret as <-.
Qed.

Lemma doc_step_Ok (sup : gmap Z (list sup_para)) (answer : str) (id : Z)
    (texts texts' : list str) (labels labels' : list label)
    (sample sample' : gmap string json) :
  doc_step sup answer (texts, labels, sample) id = Ok (texts', labels', sample') →
  ∃ l, doc_labels sup answer id l ∧ labels' = labels ++ l ∧
       written sample' texts' labels' ∧
       ∀ k, k ≠ "answer_labels" → k ≠ "fake_answers" → k ≠ "ceil_rougel" →
            sample' !! k = sample !! k.
Proof.
  unfold doc_step. intros (paras & Hparas & Hrest)%bind_Ok.
  apply bind_Ok in Hrest as ([t1 l1] & Hloop & Hrest).
  apply bind_Ok in Hrest as (s1 & Hcalc & [= <- <- <-]).
  rewrite answer_loop_shift in Hloop.
  destruct (for_each _ _ ([], [])) as [[t l]|e] eqn:E; [|done].
  injection Hloop as <- <-.
  apply (calc_ceil_rougel_Ok _ _ _ (labels ++ l)) in Hcalc
    as (fake & Hlen & ->); [|by rewrite lookup_insert_eq].
  exists l. split; [|split; [done|split]].
  - exists paras, t. split; [|done]. by destruct (sup !! id); simplify_eq/=.
  - exists fake. split; [done|]. repeat split; by simplify_map_eq.
  - intros k ???. by rewrite !lookup_insert_ne.
Qed.

(** The whole loop: the labels of the documents are appended in the order
    of the ids, and after the last iteration the sample holds all of
    them. *)
Lemma doc_loop_Ok (sup : gmap Z (list sup_para)) (answer : str) (ids : list Z)
    (texts texts' : list str) (labels labels' : list label)
    (sample sample' : gmap string json) :
  for_each (doc_step sup answer) ids (texts, labels, sample)
  = Ok (texts', labels', sample') →
  ∃ per_doc,
    Forall2 (doc_labels sup answer) ids per_doc ∧
    labels' = labels ++ concat per_doc ∧
    (∀ k, k ≠ "answer_labels" → k ≠ "fake_answers" → k ≠ "ceil_rougel" →
          sample' !! k = sample !! k) ∧
    (ids = [] → sample' = sample) ∧
    (ids ≠ [] → written sample' texts' labels').
Proof.
  revert texts labels sample.
  induction ids as [|id ids IH]; intros texts labels sample; cbn [for_each].
  - intros [= <- <- <-]. exists []. rewrite app_nil_r.
    split; [constructor|]. done.
  - intros ([[t1 l1] s1] & H1 & H2)%bind_Ok.
    apply doc_step_Ok in H1 as (l & Hl & -> & Hw & Hframe).
    destruct (IH _ _ _ H2) as (per_doc & Hper & Hlabels & Hframe' & Hnil & Hcons).
    exists (l :: per_doc). split; [by constructor|].
    split; [by rewrite Hlabels, <-(assoc_L (++))|]. split.
    { intros k ???. by rewrite Hframe', Hframe. }
    split; [done|]. intros _. destruct ids as [|id' ids].
    + simpl in H2. by injection H2 as <- <- <-.
    + by apply Hcons.
Qed.

(** ** The resolver: [gen_mrc_dataset] *)



Lemma concat_doc_Ok (doc doc' : json) :
  concat_doc doc = Ok doc' ↔ joined doc doc'.
Proof.
  unfold concat_doc, joined. split.
  - intros (m & ->%as_dict_Ok & Hrest)%bind_Ok.
    apply bind_Ok in Hrest as (paragraphs & Hp%get_Ok & Hrest).
    apply bind_Ok in Hrest as (content & Hjoin & [= <-]).
    by exists m, paragraphs, content.
  - intros (m & paragraphs & content & -> & Hm & Hjoin & ->). simpl.
    unfold get. rewrite Hm; simpl. by rewrite Hjoin.
Qed.


Lemma concat_documents_Ok (sample s1 : gmap string json) :
  concat_documents sample = Ok s1 ↔
  ∃ documents docs docs',
    sample !! "documents" = Some documents ∧
    py_iter documents = Ok docs ∧
    Forall2 joined docs docs' ∧
    s1 = match documents with
         | JList _ => <["documents" := JList docs']> sample
         | _ => sample
         end.
Proof.
  unfold concat_documents. split.
  - intros (documents & Hv%get_Ok & Hrest)%bind_Ok.
    apply bind_Ok in Hrest as (docs & Hiter & Hrest).
    apply bind_Ok in Hrest as (docs' & Hdocs%map_result_Ok & Hret).
    exists documents, docs, docs'. split; [done|]. split; [done|].
    split; [eapply Forall2_impl; [done|]; by intros ?? ?%concat_doc_Ok|].
    by destruct documents; injection Hret as <-.
  - intros (documents & docs & docs' & Hd & Hiter & Hdocs & ->). unfold get.
    rewrite Hd; simpl. rewrite Hiter; simpl.
    assert (map_result concat_doc docs = Ok docs') as ->.
    { apply map_result_Ok. eapply Forall2_impl; [done|].
      by intros ?? ?%concat_doc_Ok. }
    simpl. by destruct documents.
Qed.

(** The first loop of a run changes ['documents'] only. *)
Lemma concat_documents_frame (sample s1 : gmap string json) (k : string) :
  concat_documents sample = Ok s1 → k ≠ "documents" →
  s1 !! k = sample !! k.
Proof.
  intros (documents & docs & docs' & _ & _ & _ & ->)%concat_documents_Ok Hk.
  destruct documents; by rewrite ?lookup_insert_ne.
Qed.

(** The first loop over a list of documents. *)
Lemma concat_documents_list (sample s1 : gmap string json) (docs : list json) :
  sample !! "documents" = Some (JList docs) →
  concat_documents sample = Ok s1 ↔
  ∃ docs', Forall2 joined docs docs' ∧
           s1 = <["documents" := JList docs']> sample.
Proof.
  intros Hd. rewrite concat_documents_Ok. split.
  - intros (documents & docs0 & docs' & Hd0 & Hiter & Hdocs & ->).
    rewrite Hd in Hd0. injection Hd0 as <-. injection Hiter as <-.
    by exists docs'.
  - intros (docs' & Hdocs & ->). by exists (JList docs), docs, docs'.
Qed.

(** The stages of a run on a sample with an answer. *)
Lemma gen_mrc_dataset_answer (sample sample' : gmap string json) (answer : str) :
  sample !! "answer" = Some (JStr answer) →
  gen_mrc_dataset sample = Ok sample' →
  ∃ s1 sp sup texts labels,
    concat_documents sample = Ok s1 ∧
    s1 !! "supporting_paragraph" = Some (JStr sp) ∧
    build_supported_paras s1 sp = Ok sup ∧
    label_answers sup answer s1 = Ok (texts, labels, sample').
Proof.
  intros Ha. unfold gen_mrc_dataset.
  intros (s1 & Hs1 & Hrest)%bind_Ok.
  assert (Ha1 : s1 !! "answer" = Some (JStr answer))
    by (by rewrite (concat_documents_frame _ _ _ Hs1)).
  rewrite Ha1 in Hrest.
  apply bind_Ok in Hrest as (sp & (v & Hv%get_Ok & ->%as_str_Ok)%bind_Ok & Hrest).
  apply bind_Ok in Hrest as (sup & Hsup & Hrest). simpl in Hrest.
  apply bind_Ok in Hrest as ([[texts labels] s2] & Hlab & [= <-]).
  by exists s1, sp, sup, texts, labels.
Qed.

Lemma doc_labels_valid (sample : gmap string json) (sp answer : str)
    (sup : gmap Z (list sup_para)) (ids : list Z) (id : Z) (l : list label) :
  supported_inv sample sp sup → id ∈ ids → 0 ≤ id ≤ 9 →
  doc_labels sup answer id l →
  Forall (valid_label sample ids) l.
Proof.
  intros Hinv Hid Hdigit (paras & texts & Hparas & Hloop).
  destruct (Hinv _ _ Hparas) as (_ & content & Hc & Hok).
  apply answer_loop_labels in Hloop. eapply Forall_impl; [done|].
  intros [[d s] e] (a & Ha). simpl.
  destruct (fragment_label_valid _ _ _ _ _ _ _ Hok Ha) as (-> & ? & ? & ?).
  split; [by exists id|].
  apply doc_content_Ok in Hc as (docs & m & ? & ? & ?). by exists docs, m, content.
Qed.

Lemma per_doc_valid (sample : gmap string json) (sp answer : str)
    (sup : gmap Z (list sup_para)) (ids ids0 : list Z)
    (per_doc : list (list label)) :
  supported_inv sample sp sup → (∀ id, id ∈ ids0 → id ∈ ids ∧ 0 ≤ id ≤ 9) →
  Forall2 (doc_labels sup answer) ids0 per_doc →
  Forall (valid_label sample ids) (concat per_doc).
Proof.
  intros Hinv Hincl Hper.
  induction Hper as [|id l ids0 per_doc Hl _ IH]; simpl; [constructor|].
  apply Forall_app. split.
  - destruct (Hincl id) as [? ?]; [by left|]. by eapply doc_labels_valid.
  - apply IH. intros id' ?. apply Hincl. by right.
Qed.

Lemma valid_label_frame (s s' : gmap string json) (ids : list Z) (l : label) :
  s' !! "documents" = s !! "documents" → valid_label s ids l → valid_label s' ids l.
Proof. destruct l as [[d b] e]. unfold valid_label. by intros ->. Qed.

End resolver_facts.

(** C3, amended. Every label [(d, s, e)] a run leaves in [answer_labels]
    has [d] one less than a marker id of the answer, a digit; [d] is an
    index Python accepts for [documents], and
    [0 <= s <= e < len(documents[d]['content'])].  When the marker id is at
    least 1, [d] is a zero-based index into [documents]; for the marker id
    0 it is [-1], which Python resolves to the last document. *)
Theorem answer_labels_valid `{Runtime} (sample sample' : gmap string json)
    (answer : str) :
  sample !! "answer" = Some (JStr answer) →
  gen_mrc_dataset sample = Ok sample' →
  ∃ labels,
    (find_answer_in_docid answer ≠ [] →
     sample' !! "answer_labels" = Some (JList (label_json <$> labels))) ∧
    (find_answer_in_docid answer = [] → labels = []) ∧
    Forall (λ l, valid_label sample' (find_answer_in_docid answer) l ∧
                 (zero_based sample' l ∨
                  (l.1.1 = -1 ∧ 0 ∈ find_answer_in_docid answer)))
           labels.
Proof.
  intros Ha Hrun.
  destruct (gen_mrc_dataset_answer _ _ _ Ha Hrun)
    as (s1 & sp & sup & texts & labels & Hs1 & Hsp & Hsup & Hlab).
  apply build_supported_paras_inv in Hsup.
  apply doc_loop_Ok in Hlab as (per_doc & Hper & Hlabels & Hframe & Hnil & Hw).
  simpl in Hlabels. subst labels. exists (concat per_doc).
  split; [|split].
  - intros Hne. by destruct (Hw Hne) as (fake & _ & ? & _).
  - intros Hids. rewrite Hids in Hper. by apply Forall2_nil_inv_l in Hper as ->.
  - eapply Forall_impl.
    + eapply per_doc_valid; [done| |done].
      intros id Hid. split; [done|]. by eapply find_answer_in_docid_range.
    + intros [[d s] e] Hv.
      assert (Hv' : valid_label sample' (find_answer_in_docid answer) (d, s, e))
        by (eapply valid_label_frame; [by apply Hframe|done]).
      split; [done|].
      destruct Hv' as ((id & Hid & Hrange & ->) & docs & m & content & Hd & Hi & _).
      simpl. destruct (decide (id = 0)) as [->|Hpos]; [by right|].
      left. exists docs. split; [done|]. apply py_index_Some in Hi. simpl. lia.
Qed.

Lemma answer_labels_valid_witness :
  ∃ labels,
    (find_answer_in_docid (lit "@content1@" ++ Demo.beijing ++ lit "@content1@") ≠ [] →
     Demo.output (gen_mrc_dataset Demo.scenario) !! "answer_labels"
     = Some (JList (label_json <$> labels))) ∧
    (find_answer_in_docid (lit "@content1@" ++ Demo.beijing ++ lit "@content1@") = [] →
     labels = []) ∧
    Forall (λ l,
              valid_label
                (Demo.output (gen_mrc_dataset Demo.scenario))
                (find_answer_in_docid
                   (lit "@content1@" ++ Demo.beijing ++ lit "@content1@")) l ∧
              (zero_based (Demo.output (gen_mrc_dataset Demo.scenario)) l ∨
               (l.1.1 = -1 ∧
                0 ∈ find_answer_in_docid
                      (lit "@content1@" ++ Demo.beijing ++ lit "@content1@"))))
           labels.
Proof.
  apply (answer_labels_valid Demo.scenario); [reflexivity | vm_compute; reflexivity].
Defined.

(** C3 as stated fails.  With the marker id 0 in the supporting paragraph
    and in the answer the run returns, the only label is [(-1, 0, 1)], and
    [-1] is no zero-based index into the documents. *)
Lemma marker_zero_label_not_zero_based :
  gen_mrc_dataset Demo.marker_zero
  = Ok (Demo.output (gen_mrc_dataset Demo.marker_zero)) ∧
  Demo.output (gen_mrc_dataset Demo.marker_zero) !! "answer_labels"
  = Some (JList [JList [JInt (-1); JInt 0; JInt 1]]) ∧
  ¬ zero_based (Demo.output (gen_mrc_dataset Demo.marker_zero)) (-1, 0, 1).
Proof.
  split; [vm_compute; reflexivity|]. split; [vm_compute; reflexivity|].
  intros (docs & _ & Hd). simpl in Hd. lia.
Qed.

(** C2, amended. For a fragment, let [p] be the first supporting paragraph
    of the document with the highest confidence [c], [c > 0], where the
    fragment is located at [(s, e)].  When the located span is not empty
    ([e <> -1]) the label is [(id - 1, s + start(p), s + start(p) + (e - s))];
    when it is empty (the fragment was emptied by the trimming of the
    locator, which returns [(0, -1, 1)]) there is no label.  A fragment that
    no paragraph locates with a positive confidence has no label. *)
Theorem fragment_label_of_best_paragraph `{Runtime} (id : Z) (answer_str : str)
    (paras : list sup_para) :
  ((∀ q, q ∈ paras → (confidence answer_str q <= 0)%Q) →
   fragment_label id answer_str paras = Ok None) ∧
  (∀ (i : nat) (p : sup_para) (s e : Z) (c : Q),
     paras !! i = Some p →
     find_best_match_index answer_str p.1.1 = (s, e, c) →
     (0 < c)%Q →
     (∀ j q, paras !! j = Some q → (confidence answer_str q <= c)%Q) →
     (∀ j q, (j < i)%nat → paras !! j = Some q →
             (confidence answer_str q < c)%Q) →
     fragment_label id answer_str paras
     = Ok (if e =? -1 then None
           else Some (id - 1, s + p.1.2, s + p.1.2 + (e - s)))).
Proof.
  split.
  - apply fragment_label_none.
  - intros i p s e c. apply fragment_label_first_best.
Qed.

(** The fragment 北京 against three supporting paragraphs of document 1:
    the first does not contain it, the second and the third do; the label
    comes from the second. *)
Lemma fragment_label_of_best_paragraph_witness :
  fragment_label 1 Demo.beijing
    [(Demo.centre_sentence, 9, 16); (Demo.capital_sentence, 0, 8);
     (Demo.beijing, 0, 1)]
  = Ok (Some (0, 0, 1)).
Proof.
  apply (proj2 (fragment_label_of_best_paragraph 1 Demo.beijing
                  [(Demo.centre_sentence, 9, 16); (Demo.capital_sentence, 0, 8);
                   (Demo.beijing, 0, 1)])
               1%nat (Demo.capital_sentence, 0, 8) 0 1 1%Q).
  - reflexivity.
  - reflexivity.
  - reflexivity.
  - intros [|[|[|j]]] q; simpl; intros [= <-]; vm_compute; discriminate.
  - intros [|[|j]] q Hj; [|lia..]. simpl; intros [= <-]. reflexivity.
Defined.

(** C2 as stated fails: the fragment 。 is located in the paragraph 北京
    with confidence 1 (its trailing full stop is trimmed and the empty
    remainder is found at offset 0), and no label is produced. *)
Lemma full_stop_fragment_has_no_label :
  find_best_match_index [full_stop] Demo.beijing = (0, -1, 1%Q) ∧
  max_rougel (best_match [full_stop] [(Demo.beijing, 0, 1)]) = 1%Q ∧
  fragment_label 1 [full_stop] [(Demo.beijing, 0, 1)] = Ok None ∧
  ∃ sample', gen_mrc_dataset Demo.full_stop_answer = Ok sample' ∧
             sample' !! "answer_labels" = Some (JList []).
Proof.
  repeat split; try reflexivity.
  exists (Demo.output (gen_mrc_dataset Demo.full_stop_answer)).
  split; vm_compute; reflexivity.
Qed.

(** C7. When the answer has document ids, the [answer_labels] a run leaves
    in the sample are the labels of all of them, document after document in
    the order the ids are processed. *)
Theorem labels_of_all_documents `{Runtime} (sample sample' : gmap string json)
    (answer : str) :
  sample !! "answer" = Some (JStr answer) →
  gen_mrc_dataset sample = Ok sample' →
  find_answer_in_docid answer ≠ [] →
  ∃ s1 sp sup per_doc,
    concat_documents sample = Ok s1 ∧
    s1 !! "supporting_paragraph" = Some (JStr sp) ∧
    build_supported_paras s1 sp = Ok sup ∧
    Forall2 (doc_labels sup answer) (find_answer_in_docid answer) per_doc ∧
    sample' !! "answer_labels" = Some (JList (label_json <$> concat per_doc)).
Proof.
  intros Ha Hrun Hids.
  destruct (gen_mrc_dataset_answer _ _ _ Ha Hrun)
    as (s1 & sp & sup & texts & labels & Hs1 & Hsp & Hsup & Hlab).
  apply doc_loop_Ok in Hlab as (per_doc & Hper & Hlabels & _ & _ & Hw).
  destruct (Hw Hids) as (fake & _ & Hal & _). simpl in Hlabels. subst labels.
  by exists s1, sp, sup, per_doc.
Qed.

Lemma labels_of_all_documents_witness :
  ∃ s1 sp sup per_doc,
    concat_documents Demo.two_documents = Ok s1 ∧
    s1 !! "supporting_paragraph" = Some (JStr sp) ∧
    build_supported_paras s1 sp = Ok sup ∧
    Forall2 (doc_labels sup
               (lit "@content1@" ++ Demo.beijing ++ lit "@content1@"
                ++ lit "@content2@" ++ Demo.shanghai ++ lit "@content2@"))
            (find_answer_in_docid
               (lit "@content1@" ++ Demo.beijing ++ lit "@content1@"
                ++ lit "@content2@" ++ Demo.shanghai ++ lit "@content2@"))
            per_doc ∧
    Demo.output (gen_mrc_dataset Demo.two_documents) !! "answer_labels"
    = Some (JList (label_json <$> concat per_doc)).
Proof.
  apply (labels_of_all_documents Demo.two_documents);
    [reflexivity | vm_compute; reflexivity | vm_compute; discriminate].
Defined.

(** The end-to-end scenario of the specification: the label [(0, 0, 1)]
    and the fake answer 北京. *)
Example scenario_labels :
  Demo.output (gen_mrc_dataset Demo.scenario) !! "answer_labels"
  = Some (JList [JList [JInt 0; JInt 0; JInt 1]]) ∧
  Demo.output (gen_mrc_dataset Demo.scenario) !! "fake_answers"
  = Some (JList [JStr Demo.beijing]).
Proof. split; vm_compute; reflexivity. Qed.

(** The run on the two documents: one label in each. *)
Example two_documents_labels :
  Demo.output (gen_mrc_dataset Demo.two_documents) !! "answer_labels"
  = Some (JList [JList [JInt 0; JInt 0; JInt 1]; JList [JInt 1; JInt 0; JInt 1]]).
Proof. vm_compute. reflexivity. Qed.

(** ** The resolver: documents without supporting paragraphs *)

Section resolver_abort.
Context `{Runtime}.

Lemma py_index_None {A} (l : list A) (i : Z) :
  py_index l i = None ↔ ¬ (- py_len l ≤ i < py_len l).
Proof.
  unfold py_index, py_len. destruct (Z.leb_spec 0 i).
  - rewrite lookup_ge_None. lia.
  - destruct (Z.leb_spec (- Z.of_nat (length l)) i); [|split; [lia|done]].
    rewrite lookup_ge_None. lia.
Qed.

(** A loop whose body raises nothing but [e] ends or raises [e]. *)
Lemma for_each_raises_or_returns {A S} (e : exn) (body : S → A → result S)
    (l : list A) (s : S) :
  (∀ s x, x ∈ l → body s x = Raise e ∨ ∃ s', body s x = Ok s') →
  for_each body l s = Raise e ∨ ∃ s', for_each body l s = Ok s'.
Proof.
  revert s. induction l as [|x l IH]; intros s Hbody; simpl.
  { right. by exists s. }
  destruct (Hbody s x) as [->|[s' ->]]; [by left|by left|]. simpl.
  apply IH. intros s0 y Hy. apply Hbody. by right.
Qed.

(** A loop raises [e] when its body does at [x] and, before [x], raises
    [e] or keeps an invariant. *)
Lemma for_each_raises_at {A S} (Inv : S → Prop) (e : exn)
    (body : S → A → result S) (l : list A) (s : S) (x : A) :
  x ∈ l → Inv s →
  (∀ s y, Inv s → y ∈ l →
          body s y = Raise e ∨ ∃ s', body s y = Ok s' ∧ Inv s') →
  (∀ s, Inv s → body s x = Raise e) →
  for_each body l s = Raise e.
Proof.
  intros Hx Hinv Hbody Hat. revert s Hinv.
  induction l as [|y l IH]; intros s Hinv; [by apply elem_of_nil in Hx|].
  simpl. destruct (Hbody s y Hinv) as [->|(s' & Hy & Hinv')]; [by left|done|].
  rewrite Hy. simpl. apply elem_of_cons in Hx as [->|Hx].
  { rewrite (Hat s Hinv) in Hy. done. }
  apply IH; [done| |done]. intros s0 z ? ?. apply Hbody; [done|by right].
Qed.

Lemma map_result_total {A B} (f : A → result B) (l : list A) :
  Forall (λ x, ∃ y, f x = Ok y) l → ∃ l', map_result f l = Ok l'.
Proof.
  induction 1 as [|x l [y Hy] _ [l' IH]]; simpl; [by eexists|].
  rewrite Hy; simpl. rewrite IH; simpl. by eexists.
Qed.

(** Among documents that the first loop has joined, reading the content of
    a document raises nothing but IndexError. *)
Lemma doc_content_joined (sample : gmap string json) (docs docs' : list json)
    (i : Z) :
  Forall2 joined docs docs' →
  sample !! "documents" = Some (JList docs') →
  doc_content sample i = Raise IndexError ∨ ∃ content, doc_content sample i = Ok content.
Proof.
  intros Hjoined Hd. unfold doc_content, get. rewrite Hd; simpl.
  destruct (py_index docs' i) as [doc|] eqn:Hi; simpl; [|by left]. right.
  assert (doc ∈ docs') as Hin.
  { unfold py_index in Hi. repeat case_match; try done;
      by eapply list_elem_of_lookup_2. }
  apply list_elem_of_lookup_1 in Hin as [k Hk].
  destruct (Forall2_lookup_r _ _ _ _ _ Hjoined Hk)
    as (doc0 & _ & m & paragraphs & content & _ & _ & _ & ->).
  simpl. rewrite lookup_delete_ne, lookup_insert_eq by done. simpl.
  by exists content.
Qed.

Lemma support_step_joined (sample : gmap string json) (docs docs' : list json)
    (id : Z) (sup : gmap Z (list sup_para)) (para_str : str) :
  Forall2 joined docs docs' →
  sample !! "documents" = Some (JList docs') →
  support_step sample id sup para_str = Raise IndexError
  ∨ ∃ sup', support_step sample id sup para_str = Ok sup'.
Proof.
  intros Hjoined Hd. unfold support_step.
  destruct (negb _ && negb _); [|right; by eexists].
  destruct (doc_content_joined sample docs docs' (id - 1) Hjoined Hd)
    as [->|[content ->]]; [by left|]. simpl.
  destruct (find_best_match_index _ content) as [[? ?] ?].
  right. destruct (sup !! id); by eexists.
Qed.

Lemma build_supported_paras_joined (sample : gmap string json)
    (docs docs' : list json) (sp : str) :
  Forall2 joined docs docs' →
  sample !! "documents" = Some (JList docs') →
  build_supported_paras sample sp = Raise IndexError
  ∨ ∃ sup, build_supported_paras sample sp = Ok sup.
Proof.
  intros Hjoined Hd. unfold build_supported_paras.
  apply for_each_raises_or_returns. intros sup id _.
  apply for_each_raises_or_returns. intros sup' para_str _.
  by eapply support_step_joined.
Qed.

(** The search for the label of a fragment raises nothing. *)
Lemma fragment_label_total (id : Z) (answer_str : str) (paras : list sup_para) :
  ∃ found, fragment_label id answer_str paras = Ok found.
Proof.
  unfold fragment_label.
  destruct (best_match_inv answer_str paras)
    as [(-> & _)|(i & p & Hi & Hp & _)]; [by eexists|].
  destruct (negb _ && negb _); [|by eexists].
  rewrite Hi; simpl. rewrite Hp; simpl. by eexists.
Qed.

Lemma answer_loop_total (id : Z) (paras : list sup_para) (frs : list str)
    (st : list str * list label) :
  ∃ st', for_each (answer_step id paras) frs st = Ok st'.
Proof.
  revert st. induction frs as [|fr frs IH]; intros [texts labels];
    cbn [for_each]; [by eexists|].
  unfold answer_step at 1. destruct (negb _ && negb _); simpl; [|apply IH].
  destruct (fragment_label_total id
              (str_replace (marker_tail id) [] (strip fr)) paras) as [found ->].
  simpl. destruct found; apply IH.
Qed.

(** The loop over the document ids raises KeyError at an id that is not a
    key of [supported_paras]: up to that id every iteration returns or
    raises KeyError itself. *)
Lemma label_answers_missing_key (sp answer : str)
    (sup : gmap Z (list sup_para)) (sample : gmap string json) (id : Z) :
  supported_inv sample sp sup →
  id ∈ find_answer_in_docid answer → sup !! id = None →
  label_answers sup answer sample = Raise KeyError.
Proof.
  intros Hinv Hid Hnone. unfold label_answers.
  apply (for_each_raises_at
           (λ st : list str * list label * gmap string json,
              st.2 !! "documents" = sample !! "documents" ∧
              Forall (λ l, ∃ f, fake_answer sample l = Ok f) st.1.2)
           KeyError _ _ _ id Hid).
  - split; [done|constructor].
  - intros [[texts labels] s] y [Hdocs Hfakes] _. simpl in Hdocs, Hfakes.
    unfold doc_step.
    destruct (sup !! y) as [paras|] eqn:Hparas; [|by left]. right.
    cbn [of_option bind].
    rewrite answer_loop_shift.
    destruct (answer_loop_total y paras (str_split (marker y) answer) ([], []))
      as [[t l] Hloop].
    rewrite Hloop. cbn [bind].
    assert (Hnew : Forall (λ l, ∃ f, fake_answer sample l = Ok f) (labels ++ l)).
    { apply Forall_app. split; [done|].
      destruct (Hinv _ _ Hparas) as (_ & content & Hc & Hok).
      apply answer_loop_labels in Hloop. eapply Forall_impl; [done|].
      intros [[d b] e] (a & Ha). simpl.
      destruct (fragment_label_valid _ _ _ _ _ _ _ Hok Ha) as (-> & _).
      unfold fake_answer. rewrite Hc. simpl. by eexists. }
    set (s2 := <["answer_labels" := JList (label_json <$> labels ++ l)]> s).
    assert (Hs2 : s2 !! "documents" = sample !! "documents")
      by (unfold s2; by rewrite lookup_insert_ne).
    unfold calc_ceil_rougel, get.
    assert (s2 !! "answer_labels" = Some (JList (label_json <$> labels ++ l))) as ->
      by (unfold s2; by rewrite lookup_insert_eq).
    cbn [of_option bind as_list]. rewrite map_result_as_label. cbn [bind].
    destruct (map_result_total (fake_answer s2) (labels ++ l)) as [fakes ->].
    { eapply Forall_impl; [exact Hnew|]. intros [[d b] e] [f Hf].
      exists f. unfold fake_answer in *.
      by rewrite (doc_content_frame sample s2). }
    cbn [bind].
    destruct (length fakes =? 0)%nat; cbn [bind]; eexists; (split; [done|]);
      simpl; by rewrite !lookup_insert_ne.
  - intros [[texts labels] s] _. unfold doc_step. by rewrite Hnone.
Qed.

(** A supporting paragraph whose text is empty locates no fragment. *)
Lemma fragment_label_empty_paras (id : Z) (answer_str : str)
    (paras : list sup_para) :
  Forall (λ p, p.1.1 = []) paras →
  fragment_label id answer_str paras = Ok None.
Proof.
  intros Hempty. unfold fragment_label.
  destruct (best_match_inv answer_str paras)
    as [(-> & _)|(i & p & _ & Hp & Hf & _)]; [done|].
  rewrite Forall_forall in Hempty.
  pose proof (find_best_match_index_nil answer_str) as Hnil.
  assert (Hp1 : p.1.1 = []) by (apply Hempty; by eapply list_elem_of_lookup_2).
  rewrite Hp1 in Hf. rewrite Hf in Hnil.
  simpl in Hnil. rewrite Hnil. by rewrite andb_false_r.
Qed.

Lemma answer_loop_empty_paras (id : Z) (paras : list sup_para) (frs : list str)
    (texts : list str) (labels : list label) :
  Forall (λ p, p.1.1 = []) paras →
  ∃ texts', for_each (answer_step id paras) frs (texts, labels)
            = Ok (texts', labels).
Proof.
  intros Hempty. revert texts.
  induction frs as [|fr frs IH]; intros texts; cbn [for_each].
  - by exists texts.
  - unfold answer_step at 1. destruct (negb _ && negb _); simpl.
    + rewrite fragment_label_empty_paras by done. simpl. apply IH.
    + apply IH.
Qed.

End resolver_abort.

(** C4, amended. On a sample whose documents the first loop joins, a
    document id of the answer that is absent from [documents], or for which
    the supporting paragraph has no fragment, makes the run raise: IndexError
    while the supporting paragraphs are located, or else KeyError at
    [supported_paras[ans_in_docid]].  The sample is not returned.  A
    document id whose supporting paragraphs were all stored with an empty
    text (none was located) gets no label from any of its fragments, and
    the loop over its fragments completes. *)
Theorem absent_support_raises `{Runtime} (sample s1 : gmap string json)
    (answer sp : str) (docs : list json) (id : Z) :
  (sample !! "answer" = Some (JStr answer) →
   sample !! "documents" = Some (JList docs) →
   sample !! "supporting_paragraph" = Some (JStr sp) →
   concat_documents sample = Ok s1 →
   id ∈ find_answer_in_docid answer →
   py_index docs (id - 1) = None ∨ ¬ has_support sp id →
   (build_supported_paras s1 sp = Raise IndexError ∧
    gen_mrc_dataset sample = Raise IndexError) ∨
   (∃ sup, build_supported_paras s1 sp = Ok sup ∧ sup !! id = None ∧
           gen_mrc_dataset sample = Raise KeyError)) ∧
  (∀ (paras : list sup_para) (frs texts : list str) (labels : list label),
     Forall (λ p, p.1.1 = []) paras →
     ∃ texts', for_each (answer_step id paras) frs (texts, labels)
               = Ok (texts', labels)).
Proof.
  split; [|intros; by apply answer_loop_empty_paras].
  intros Ha Hdocs Hsp Hs1 Hid Hmissing. unfold gen_mrc_dataset.
  rewrite Hs1. cbn [bind].
  rewrite (concat_documents_frame _ _ "answer" Hs1), Ha by done.
  unfold get. rewrite (concat_documents_frame _ _ _ Hs1), Hsp by done.
  cbn [of_option bind as_str].
  apply (concat_documents_list _ _ _ Hdocs) in Hs1 as (docs' & Hjoined & ->).
  set (s1 := <["documents" := JList docs']> sample).
  assert (Hd1 : s1 !! "documents" = Some (JList docs'))
    by apply lookup_insert_eq.
  destruct (build_supported_paras_joined s1 docs docs' sp Hjoined Hd1)
    as [Hraise|[sup Hsup]].
  { left. by rewrite Hraise. }
  right. exists sup. rewrite Hsup. cbn [bind]. split; [done|].
  pose proof (build_supported_paras_inv _ _ _ Hsup) as Hinv.
  assert (Hnone : sup !! id = None).
  { destruct (sup !! id) as [paras|] eqn:Hparas; [|done]. exfalso.
    destruct (Hinv _ _ Hparas) as (Hhas & content & Hc & _).
    destruct Hmissing as [Habsent|Hno]; [|done].
    apply doc_content_Ok in Hc as (docs1 & m & Hd & Hi & _).
    rewrite Hd1 in Hd. injection Hd as <-.
    apply py_index_Some in Hi. apply py_index_None in Habsent.
    apply Forall2_length in Hjoined. unfold py_len in *. lia. }
  split; [done|].
  by rewrite (label_answers_missing_key sp answer sup s1 id Hinv Hid Hnone).
Qed.

Lemma absent_support_raises_witness :
  ((build_supported_paras
      (Demo.output (concat_documents Demo.absent_document))
      (lit "@content1@" ++ Demo.capital_sentence ++ lit "@content1@")
    = Raise IndexError ∧
    gen_mrc_dataset Demo.absent_document = Raise IndexError) ∨
   (∃ sup,
      build_supported_paras
        (Demo.output (concat_documents Demo.absent_document))
        (lit "@content1@" ++ Demo.capital_sentence ++ lit "@content1@")
      = Ok sup ∧ sup !! 2 = None ∧
      gen_mrc_dataset Demo.absent_document = Raise KeyError)) ∧
  (∃ texts', for_each (answer_step 2 [([], -1, -1)]) [Demo.shanghai] ([], [])
             = Ok (texts', [])).
Proof.
  destruct (absent_support_raises Demo.absent_document
              (Demo.output (concat_documents Demo.absent_document))
              (lit "@content2@" ++ Demo.shanghai ++ lit "@content2@")
              (lit "@content1@" ++ Demo.capital_sentence ++ lit "@content1@")
              [JDict (Demo.doc_of [Demo.capital_sentence; Demo.centre_sentence])]
              2) as [Hraise Hskip].
  split.
  - apply Hraise; [reflexivity | reflexivity | reflexivity | | | ].
    + vm_compute. reflexivity.
    + vm_compute. apply list_elem_of_here.
    + left. reflexivity.
  - apply Hskip. repeat constructor.
Defined.

(** C4 as stated fails: the answer names document 2, the sample has one
    document, and the run ends in KeyError. *)
Lemma absent_document_raises :
  gen_mrc_dataset Demo.absent_document = Raise KeyError.
Proof. vm_compute. reflexivity. Qed.

(** ** The resolver: samples without labels, samples without an answer *)

Section resolver_fields.
Context `{Runtime}.

(** With at least one document id in the answer and no label, the three
    derived fields are written as empty, empty and 0. *)
Lemma no_label_fields (sample sample' : gmap string json) (answer : str) :
  sample !! "answer" = Some (JStr answer) →
  gen_mrc_dataset sample = Ok sample' →
  find_answer_in_docid answer ≠ [] →
  sample' !! "answer_labels" = Some (JList []) →
  sample' !! "fake_answers" = Some (JList []) ∧
  sample' !! "ceil_rougel" = Some (JInt 0).
Proof.
  intros Ha Hrun Hids Hnone.
  destruct (gen_mrc_dataset_answer _ _ _ Ha Hrun)
    as (s1 & sp & sup & texts & labels & _ & _ & _ & Hlab).
  apply doc_loop_Ok in Hlab as (_ & _ & _ & _ & _ & Hw).
  destruct (Hw Hids) as (fake & Hlen & Hal & Hfake & Hceil).
  rewrite Hal in Hnone. injection Hnone as Hnil.
  apply fmap_nil_inv in Hnil as ->. destruct fake; [|done]. done.
Qed.

(** Without a document id in the answer the loop body never runs, and the
    run returns the sample as [concat_documents] left it. *)
Lemma no_marker_fields (sample sample' : gmap string json) (answer : str) :
  sample !! "answer" = Some (JStr answer) →
  gen_mrc_dataset sample = Ok sample' →
  find_answer_in_docid answer = [] →
  concat_documents sample = Ok sample'.
Proof.
  intros Ha Hrun Hids.
  destruct (gen_mrc_dataset_answer _ _ _ Ha Hrun)
    as (s1 & sp & sup & texts & labels & Hs1 & _ & _ & Hlab).
  unfold label_answers in Hlab. rewrite Hids in Hlab. simpl in Hlab.
  by injection Hlab as <- <- <-.
Qed.

End resolver_fields.

(** C8, at the failing input. The answer 北京 has no marker: the run
    returns, and the sample has no [answer_labels], no [fake_answers] and no
    [ceil_rougel]. *)
Theorem unmarked_answer_leaves_fields_unset :
  ∃ sample',
    gen_mrc_dataset Demo.unmarked_answer = Ok sample' ∧
    find_answer_in_docid Demo.beijing = [] ∧
    sample' !! "answer_labels" = None ∧
    sample' !! "fake_answers" = None ∧
    sample' !! "ceil_rougel" = None.
Proof.
  exists (Demo.output (gen_mrc_dataset Demo.unmarked_answer)).
  repeat split; vm_compute; reflexivity.
Qed.


(** [''.join] takes a string for the list of its characters, and the loop
    over an empty string does not run. *)
Example string_paragraphs_joined :
  gen_mrc_dataset Demo.string_paragraphs
  = Ok (Demo.output (gen_mrc_dataset Demo.string_paragraphs)) ∧
  Demo.output (gen_mrc_dataset Demo.string_paragraphs) !! "documents"
  = Some (JList [JDict {[ "title" := JStr (lit "t");
                          "content" := JStr Demo.capital_sentence ]}]).
Proof. split; vm_compute; reflexivity. Qed.

Example no_documents_unchanged :
  gen_mrc_dataset Demo.no_documents = Ok Demo.no_documents.
Proof. vm_compute. reflexivity. Qed.


(** ** The paragraph ranker: the length of the passage *)

Section ranker_facts.
Import Ranker.
Context (match_score : list str → list str → Q).

Lemma total_app {A} (l1 l2 : list (list A)) : total (l1 ++ l2) = total l1 + total l2.
Proof. induction l1 as [|p l1 IH]; simpl; [done|]. rewrite IH. lia. Qed.

Lemma total_nonneg {A} (l : list (list A)) : 0 ≤ total l.
Proof. induction l as [|p l IH]; simpl; [done|]. unfold py_len. lia. Qed.

Lemma weight_app {A} (paras : list (list A)) (l1 l2 : list Z) :
  weight paras (l1 ++ l2) = weight paras l1 + weight paras l2.
Proof.
  induction l1 as [|i l1 IH]; simpl; [done|].
  destruct (py_index paras i); rewrite IH; lia.
Qed.

Lemma weight_perm {A} (paras : list (list A)) (l1 l2 : list Z) :
  l1 ≡ₚ l2 → weight paras l1 = weight paras l2.
Proof.
  induction 1 as [|i l1 l2 _ IH|i j l|l1 l2 l3 _ IH1 _ IH2]; simpl.
  - done.
  - by rewrite IH.
  - destruct (py_index paras i), (py_index paras j); lia.
  - by rewrite IH1.
Qed.

Lemma pick_total {A} (paras : list (list A)) (ids : list Z)
    (chosen : list (list A)) :
  pick paras ids = Ok chosen → total chosen = weight paras ids.
Proof.
  unfold pick. rewrite map_result_Ok.
  induction 1 as [|i p ids chosen Hp _ IH]; simpl; [done|].
  destruct (py_index paras i); simplify_eq/=. by rewrite IH.
Qed.

Lemma concat_with_length {A} (sep : A) (paras : list (list A)) :
  py_len (concat_with sep paras) = total paras.
Proof.
  unfold concat_with.
  assert (∀ acc : list A,
            py_len (foldl (λ passage para, passage ++ (para ++ [sep])) acc paras)
            = py_len acc + total paras) as Hacc.
  { induction paras as [|p paras IH]; intros acc; simpl; [lia|].
    rewrite IH. unfold py_len. rewrite !length_app. simpl. lia. }
  by rewrite Hacc.
Qed.

(** A passage is the concatenation without its last separator. *)
Lemma passage_length {A} (sep : A) (paras : list (list A)) :
  paras ≠ [] →
  py_len (py_slice_to (concat_with sep paras) (-1)) = total paras - 1.
Proof.
  intros Hne. rewrite py_slice_to_neg_length, concat_with_length by done.
  destruct paras as [|p paras]; [done|]. simpl.
  pose proof (total_nonneg paras). unfold py_len. lia.
Qed.

(** The part of a paragraph the budget leaves room for. *)
Lemma cut_length {A} (para : list A) (cut : Z) :
  cut ≤ 0 →
  py_len (py_slice_to para cut)
  = if cut =? 0 then 0 else Z.max 0 (py_len para + cut).
Proof.
  intros Hcut. destruct (cut =? 0) eqn:E.
  - apply Z.eqb_eq in E as ->. by rewrite py_slice_to_zero.
  - apply Z.eqb_neq in E. apply py_slice_to_neg_length. lia.
Qed.

(** ** The paragraph ranker: the selection *)

Lemma select_selected (doc : document) (max_doc_len : Z)
    (infos : list para_info) (st0 st : selection) :
  running doc max_doc_len st0 →
  select doc max_doc_len infos st0 = Ok st →
  selected doc max_doc_len infos st0 st.
Proof.
  revert st0. induction infos as [|info infos IH]; intros st0 (Hlast & Hlen & Hfit).
  - intros [= <-]. split; [by rewrite <-Hlen|]. exists 0%nat. simpl.
    rewrite app_nil_r. split; [done|]. by left.
  - cbn [select]. intros (para & Hpara & Hrest)%bind_Ok.
    assert (Hp : py_index (segmented_paragraphs doc) info.2 = Some para)
      by (by destruct (py_index _ _); simplify_eq/=).
    destruct (Z.leb_spec (selected_para_len st0 + (py_len para + 1)) max_doc_len)
      as [Hle|Hgt].
    + apply IH in Hrest as (Hfit' & k & Hids & Hcase).
      * split; [done|]. exists (S k). simpl in *.
        split; [by rewrite Hids, <-(assoc_L (++))|].
        destruct Hcase as [(? & Hall & ?)|Hbreak]; [|by right].
        left. split; [done|]. split; [by rewrite Hall|done].
      * split; [done|]. simpl. split; [|by right].
        rewrite weight_app. simpl. rewrite Hp, Hlen. lia.
    + injection Hrest as <-. unfold selected. simpl.
      split; [destruct Hfit as [?|?]; [by left|right; lia]|].
      exists 0%nat. simpl. rewrite app_nil_r. split; [done|]. right.
      exists info, para. simpl. repeat split; lia || done.
Qed.

Lemma enumerate_fst {A} (l : list A) : (enumerate l).*1 = seq 0 (length l).
Proof. unfold enumerate. apply fst_zip. by rewrite length_seq. Qed.

(** The original indices carried by the [para_infos] of a document. *)
Lemma para_infos_ids {A B} (f : A → B) (g : A → Z) (l : list A) :
  ((λ e : nat * A, (f e.2, g e.2, Z.of_nat e.1)) <$> enumerate l).*2
  = Z.of_nat <$> seq 0 (length l).
Proof.
  rewrite <-enumerate_fst, <-!list_fmap_compose. by apply list_fmap_ext.
Qed.

Lemma Sorted_le_NoDup_lt (l : list Z) :
  Sorted Z.le l → NoDup l → StronglySorted Z.lt l.
Proof.
  intros Hs%Sorted_StronglySorted; [|intros ???; lia].
  induction Hs as [|x l _ IH Hall]; intros Hnd; [constructor|].
  apply NoDup_cons in Hnd as [Hx Hnd]. constructor; [by apply IH|].
  rewrite Forall_forall in Hall |- *. intros y Hy.
  assert (x ≠ y) by (by intros ->). specialize (Hall y Hy). lia.
Qed.

(** The ranking carries every original index once. *)
Lemma ranked_ids (doc : document) (question : list str) :
  (py_sort (key_lt)
     ((λ e : nat * (list str * Q),
         let '(p_idx, (para_tokens, para_score)) := e in
         (para_score, py_len para_tokens, Z.of_nat p_idx))
        <$> enumerate (zip (segmented_paragraphs doc)
                           (calc_paragraph_match_scores match_score doc question)))).*2
  ≡ₚ Z.of_nat <$> seq 0 (length (segmented_paragraphs doc)).
Proof.
  rewrite py_sort_perm.
  pose proof (para_infos_ids (λ e : list str * Q, e.2)
                (λ e : list str * Q, py_len e.1)
                (zip (segmented_paragraphs doc)
                     (calc_paragraph_match_scores match_score doc question)))
    as Hpi.
  rewrite length_zip_with in Hpi. unfold calc_paragraph_match_scores in Hpi.
  rewrite length_fmap, Nat.min_id in Hpi. rewrite <-Hpi.
  apply reflexive_eq. f_equal. apply list_fmap_ext.
  by intros ? [? [? ?]].
Qed.

Lemma select_paragraphs_ok (doc : document) (question : list str)
    (max_doc_len : Z) (st : selection) :
  select_paragraphs match_score doc question max_doc_len = Ok st →
  selection_ok doc max_doc_len st.
Proof.
  unfold select_paragraphs. intros (st1 & Hsel & [= <-])%bind_Ok.
  set (infos := py_sort _ _) in Hsel.
  pose proof (ranked_ids doc question) as Hids. fold infos in Hids.
  assert (Hnd : NoDup infos.*2).
  { rewrite Hids. apply NoDup_fmap; [apply _|apply NoDup_seq]. }
  assert (Hrange : Forall (λ i, 0 ≤ i < py_len (segmented_paragraphs doc)) infos.*2).
  { rewrite Hids. apply Forall_forall.
    intros i (n & -> & Hn%elem_of_seq)%list_elem_of_fmap. unfold py_len. lia. }
  apply select_selected in Hsel as (Hfit & k & Hk & Hcase).
  2:{ split; [done|]. split; [simpl; lia|by left]. }
  simpl in Hk. unfold selection_ok. simpl.
  pose proof (py_sort_perm Z.ltb (selected_para_ids st1)) as Hperm.
  rewrite (weight_perm _ _ _ Hperm).
  assert (Htake : infos.*2 = selected_para_ids st1 ++ (drop k infos).*2).
  { by rewrite Hk, <-fmap_app, take_drop. }
  rewrite Htake in Hnd, Hrange.
  apply NoDup_app in Hnd as (Hnd1 & Hdisj & _).
  apply Forall_app in Hrange as [Hrange1 Hrange2].
  split; [apply Sorted_le_NoDup_lt; [apply py_sort_Z_sorted|by rewrite Hperm]|].
  split; [by rewrite Hperm|].
  split.
  { destruct Hfit as [E|?]; [left|by right].
    apply Permutation_nil_r. by rewrite <-E. }
  destruct Hcase as [(Hlast & Hall & _)|(info & para & Hinfo & Hlast & Hp & Hlen & Hgt & Hcut)].
  - left. split; [done|]. intros Hne Hnil.
    rewrite Hnil in Hperm. apply Permutation_nil_l in Hperm.
    rewrite <-Hperm, Hall in Hk. simpl in Hk.
    assert (length infos.*2 = length (segmented_paragraphs doc)) as Hl
      by (by rewrite Hids, length_fmap, length_seq).
    rewrite <-Hk in Hl. destruct (segmented_paragraphs doc); done.
  - right. exists para.
    assert (Hin : info.2 ∈ (drop k infos).*2).
    { apply list_elem_of_fmap. exists info. split; [done|].
      apply list_elem_of_lookup. exists 0%nat. by rewrite lookup_drop, Nat.add_0_r. }
    rewrite Hlast. split; [by eapply Forall_forall in Hrange2|].
    split; [rewrite Hperm; intros ?; by eapply Hdisj|].
    split; [done|]. rewrite <-Hlen. done.
Qed.

(** ** The paragraph ranker: the passage *)

Lemma extract_paragraph_doc_Ok (question : list str) (max_doc_len : Z)
    (doc : document) (out : passage) :
  extract_paragraph_doc match_score question max_doc_len doc = Ok out →
  ∃ st chosen tail,
    select_paragraphs match_score doc question max_doc_len = Ok st ∧
    passage_of doc st chosen tail out.
Proof.
  unfold extract_paragraph_doc.
  intros (st & Hst & H1)%bind_Ok.
  apply bind_Ok in H1 as (chosen & Hchosen & H1).
  apply bind_Ok in H1 as (scores & _ & H1).
  apply bind_Ok in H1 as (pos & _ & H1).
  apply bind_Ok in H1 as (kw & _ & H1).
  apply bind_Ok in H1 as (wiq & _ & H1).
  apply bind_Ok in H1 as ([[[[seg sc] ps] ks] ws] & Hif & H1).
  apply bind_Ok in H1 as (best & _ & [= <-]). simpl.
  exists st, chosen. unfold passage_of.
  destruct (-1 <? last_para_id st).
  - apply bind_Ok in Hif as (lseg & Hlast & H2).
    apply bind_Ok in H2 as (lpos & _ & H2).
    apply bind_Ok in H2 as (lkw & _ & H2).
    apply bind_Ok in H2 as (lwiq & _ & [= <- <- <- <- <-]).
    exists [lseg]. split; [done|]. split; [done|]. split; [by exists lseg|done].
  - injection Hif as <- <- <- <- <-. exists []. by rewrite app_nil_r.
Qed.

Lemma pick_length {A} (paras : list A) (ids : list Z) (chosen : list A) :
  pick paras ids = Ok chosen → length chosen = length ids.
Proof. unfold pick. rewrite map_result_Ok. intros Hf. symmetry. by eapply Forall2_length. Qed.

(** The length of the token passage. *)
Lemma passage_tokens (doc : document) (max_doc_len : Z) (st : selection)
    (chosen tail : list (list str)) (out : passage) :
  selection_ok doc max_doc_len st → passage_of doc st chosen tail out →
  let kept := py_len (segmented_title doc) + 1
              + weight (segmented_paragraphs doc) (selected_para_ids st) in
  (last_para_id st = -1 ∧ py_len (segmented_passage out) = kept - 1) ∨
  (0 ≤ last_para_id st ∧
   py_len (segmented_passage out) ≤ Z.max kept max_doc_len ∧
   kept ≤ py_len (segmented_passage out)).
Proof.
  intros (_ & _ & _ & Hcase) (Hchosen & Htail & ->). simpl.
  rewrite passage_length by done. simpl. rewrite total_app.
  rewrite (pick_total _ _ _ Hchosen).
  destruct Hcase as [(Hlast & _)|(para & Hrange & _ & Hp & Hgt & Hcut)].
  - left. split; [done|]. rewrite Hlast in Htail. simpl in Htail. subst tail.
    simpl. lia.
  - right. split; [lia|].
    destruct (Z.ltb_spec (-1) (last_para_id st)); [|lia].
    destruct Htail as (lseg & Hlast & ->). unfold cut_last in Hlast.
    rewrite Hp in Hlast. simpl in Hlast. injection Hlast as <-. simpl.
    rewrite cut_length by lia.
    destruct (last_para_cut_idx st =? 0) eqn:E; lia.
Qed.

Lemma py_index_in_range {A} (l : list A) (i : Z) :
  0 ≤ i < py_len l → is_Some (py_index l i).
Proof.
  intros Hi. rewrite py_index_nonneg by lia. apply lookup_lt_is_Some.
  unfold py_len in Hi. lia.
Qed.

Lemma pick_in_range {A} (paras : list A) (ids : list Z) :
  Forall (λ i, 0 ≤ i < py_len paras) ids → ∃ chosen, pick paras ids = Ok chosen.
Proof.
  unfold pick. induction 1 as [|i ids Hi _ [chosen IH]]; simpl; [by eexists|].
  destruct (py_index_in_range _ _ Hi) as [p ->]. simpl. rewrite IH. simpl.
  by eexists.
Qed.

Lemma cut_last_in_range {A} (paras : list (list A)) (st : selection) :
  0 ≤ last_para_id st < py_len paras → ∃ cut, cut_last paras st = Ok cut.
Proof.
  intros Hi. unfold cut_last.
  destruct (py_index_in_range _ _ Hi) as [p ->]. simpl. by eexists.
Qed.

Lemma select_in_range (doc : document) (max_doc_len : Z)
    (infos : list para_info) (st0 : selection) :
  Forall (λ i, 0 ≤ i < py_len (segmented_paragraphs doc)) infos.*2 →
  ∃ st, select doc max_doc_len infos st0 = Ok st.
Proof.
  revert st0. induction infos as [|info infos IH]; intros st0 Hr; simpl.
  - by eexists.
  - apply Forall_cons in Hr as [Hi Hr].
    destruct (py_index_in_range _ _ Hi) as [p ->]. simpl.
    destruct (_ <=? _); [by apply IH|by eexists].
Qed.

Lemma index_of_py_max (l : list Q) (best : Q) :
  py_max l = Some best → is_Some (index_of best l).
Proof.
  destruct l as [|x l]; [done|]. unfold py_max. intros [= <-].
  assert (∀ (full : list Q) v, v ∈ full → is_Some (index_of v full)) as Hidx.
  { induction full as [|y full IH]; intros v Hv; [by apply elem_of_nil in Hv|].
    simpl. destruct (Qeq_bool y v) eqn:E; [by eexists|].
    apply elem_of_cons in Hv as [Heq|Hv].
    - subst y. rewrite (proj2 (Qeq_bool_iff v v)) in E; [done|apply Qeq_refl].
    - destruct (IH _ Hv) as [n ->]. by eexists. }
  apply Hidx.
  assert (∀ (l' full : list Q) m, m ∈ full → (∀ y, y ∈ l' → y ∈ full) →
            foldl (λ m y, if Qlt_b m y then y else m) m l' ∈ full) as Hgen.
  { induction l' as [|y l' IH]; intros full m Hm Hsub; simpl; [done|].
    apply IH; [|intros ??; apply Hsub; by right].
    destruct (Qlt_b m y); [apply Hsub; by left|done]. }
  apply Hgen; [by left|]. intros y Hy. by right.
Qed.

(** On a well-formed document the ranker returns. *)
Lemma select_paragraphs_total (doc : document) (question : list str)
    (max_doc_len : Z) :
  ∃ st, select_paragraphs match_score doc question max_doc_len = Ok st.
Proof.
  unfold select_paragraphs.
  edestruct (select_in_range doc max_doc_len) as [st ->].
  - rewrite ranked_ids. apply Forall_forall.
    intros i (n & -> & Hn%elem_of_seq)%list_elem_of_fmap. unfold py_len. lia.
  - simpl. by eexists.
Qed.

Lemma most_related_total (scores : list Q) :
  scores ≠ [] → ∃ n, (best ← py_max scores; index_of best scores) = Some n.
Proof.
  intros Hne. destruct (py_max scores) as [best|] eqn:E.
  - destruct (index_of_py_max _ _ E) as [n Hn]. exists n. by simpl.
  - by destruct scores.
Qed.

Lemma extract_paragraph_doc_total (question : list str) (max_doc_len : Z)
    (doc : document) :
  well_formed doc →
  ∃ out, extract_paragraph_doc match_score question max_doc_len doc = Ok out.
Proof.
  intros (Hpos & Hkw & Hwiq). unfold extract_paragraph_doc.
  destruct (select_paragraphs_total doc question max_doc_len) as [st Hst].
  rewrite Hst. cbn [bind].
  destruct (select_paragraphs_ok _ _ _ _ Hst) as (_ & Hrange & _ & Hcase).
  assert (Hlens : py_len (calc_paragraph_match_scores match_score doc question)
                  = py_len (segmented_paragraphs doc)
                  ∧ py_len (pos_paragraphs doc) = py_len (segmented_paragraphs doc)
                  ∧ py_len (keyword_paragraphs doc) = py_len (segmented_paragraphs doc)
                  ∧ py_len (paragraphs_word_in_question doc)
                    = py_len (segmented_paragraphs doc)).
  { unfold py_len, calc_paragraph_match_scores. rewrite length_fmap.
    by rewrite Hpos, Hkw, Hwiq. }
  destruct Hlens as (Hl1 & Hl2 & Hl3 & Hl4).
  destruct (pick_in_range (segmented_paragraphs doc) _ Hrange) as [chosen ->].
  destruct (pick_in_range (calc_paragraph_match_scores match_score doc question)
              (selected_para_ids st)) as [scores ->]; [by rewrite Hl1|].
  destruct (pick_in_range (pos_paragraphs doc) (selected_para_ids st))
    as [pos ->]; [by rewrite Hl2|].
  destruct (pick_in_range (keyword_paragraphs doc) (selected_para_ids st))
    as [kw ->]; [by rewrite Hl3|].
  destruct (pick_in_range (paragraphs_word_in_question doc) (selected_para_ids st))
    as [wiq ->]; [by rewrite Hl4|].
  cbn [bind].
  destruct Hcase as [(Hlast & _)|(para & Hr & _)].
  - rewrite Hlast. change (-1 <? -1) with false. cbn [bind].
    destruct (most_related_total
                (match_score (segmented_title doc) question :: scores))
      as [n ->]; [done|].
    cbn [bind of_option]. by eexists.
  - destruct (Z.ltb_spec (-1) (last_para_id st)); [|lia].
    destruct (cut_last_in_range (segmented_paragraphs doc) st Hr) as [c1 ->].
    destruct (cut_last_in_range (pos_paragraphs doc) st) as [c2 ->];
      [by rewrite Hl2|].
    destruct (cut_last_in_range (keyword_paragraphs doc) st) as [c3 ->];
      [by rewrite Hl3|].
    destruct (cut_last_in_range (paragraphs_word_in_question doc) st) as [c4 ->];
      [by rewrite Hl4|].
    cbn [bind].
    destruct (most_related_total
                ((match_score (segmented_title doc) question :: scores)
                 ++ [match_score c1 question]))
      as [n ->]; [done|].
    cbn [bind of_option]. by eexists.
Qed.

Lemma weight_nonneg {A} (paras : list (list A)) (ids : list Z) :
  0 ≤ weight paras ids.
Proof.
  induction ids as [|i ids IH]; simpl; [done|].
  destruct (py_index paras i); unfold py_len; lia.
Qed.

Lemma total_pos {A} (paras : list (list A)) : paras ≠ [] → 1 ≤ total paras.
Proof.
  destruct paras as [|p paras]; [done|]. intros _. simpl.
  pose proof (total_nonneg paras). unfold py_len. lia.
Qed.

End ranker_facts.

(** C5, amended. On a well-formed document the ranker returns a passage of
    at most [max(M, len(title) + 1)] tokens, hence of at most [M] tokens
    when [M >= len(title) + 1]; the title is never cut.  The passage is not
    empty as soon as the title has a token or the document a paragraph. *)
Theorem passage_within_budget (match_score : list str → list str → Q)
    (question : list str) (max_doc_len : Z) (doc : Ranker.document) :
  well_formed doc →
  ∃ out,
    Ranker.extract_paragraph_doc match_score question max_doc_len doc = Ok out ∧
    py_len (Ranker.segmented_passage out)
    ≤ Z.max max_doc_len (py_len (Ranker.segmented_title doc) + 1) ∧
    (py_len (Ranker.segmented_title doc) + 1 ≤ max_doc_len →
     py_len (Ranker.segmented_passage out) ≤ max_doc_len) ∧
    (Ranker.segmented_title doc ≠ [] ∨ Ranker.segmented_paragraphs doc ≠ [] →
     Ranker.segmented_passage out ≠ []).
Proof.
  intros Hwf.
  destruct (extract_paragraph_doc_total match_score question max_doc_len doc Hwf)
    as [out Hout].
  exists out. split; [done|].
  destruct (extract_paragraph_doc_Ok _ _ _ _ _ Hout) as (st & chosen & tail & Hst & Hp).
  pose proof (select_paragraphs_ok _ _ _ _ _ Hst) as Hok.
  pose proof (passage_tokens _ _ _ _ _ _ Hok Hp) as Hlen. simpl in Hlen.
  destruct Hok as (_ & _ & Hfit & Hcase).
  destruct Hp as (Hchosen & _ & _).
  pose proof (weight_nonneg (Ranker.segmented_paragraphs doc)
                (Ranker.selected_para_ids st)) as Hw.
  assert (Hempty : Ranker.selected_para_ids st = [] →
                   weight (Ranker.segmented_paragraphs doc)
                          (Ranker.selected_para_ids st) = 0)
    by (by intros ->).
  assert (Hbound : py_len (Ranker.segmented_passage out)
                   ≤ Z.max max_doc_len (py_len (Ranker.segmented_title doc) + 1)).
  { destruct Hlen as [(_ & ->)|(_ & Hle & _)];
      (destruct Hfit as [E%Hempty|?]; lia). }
  split; [done|]. split; [lia|].
  intros Hne Hnil. rewrite Hnil in Hlen.
  change (py_len (@nil str)) with 0 in Hlen.
  assert (Htitle : Ranker.segmented_title doc ≠ [] →
                   1 ≤ py_len (Ranker.segmented_title doc)).
  { destruct (Ranker.segmented_title doc); [done|]. unfold py_len. simpl. lia. }
  destruct Hne as [Hne|Hne].
  - specialize (Htitle Hne). destruct Hlen as [(_ & ?)|(_ & _ & ?)]; lia.
  - pose proof (Z.le_refl 0) as Htl.
    assert (0 ≤ py_len (Ranker.segmented_title doc)) by (unfold py_len; lia).
    destruct Hlen as [(Hlast & Hlen)|(_ & _ & ?)]; [|lia].
    destruct Hcase as [(_ & Hsel)|(para & ? & _)]; [|lia].
    specialize (Hsel Hne).
    assert (Hch : chosen ≠ []).
    { pose proof (pick_length _ _ _ Hchosen) as Hl. intros ->.
      by destruct (Ranker.selected_para_ids st). }
    pose proof (total_pos chosen Hch) as Hpos.
    rewrite (pick_total _ _ _ Hchosen) in Hpos. lia.
Qed.

Lemma passage_within_budget_witness :
  ∃ out,
    Ranker.extract_paragraph_doc Demo.overlap_score [lit "q"] 6 Demo.ranked_doc
    = Ok out ∧
    py_len (Ranker.segmented_passage out)
    ≤ Z.max 6 (py_len (Ranker.segmented_title Demo.ranked_doc) + 1) ∧
    (py_len (Ranker.segmented_title Demo.ranked_doc) + 1 ≤ 6 →
     py_len (Ranker.segmented_passage out) ≤ 6) ∧
    (Ranker.segmented_title Demo.ranked_doc ≠ []
     ∨ Ranker.segmented_paragraphs Demo.ranked_doc ≠ [] →
     Ranker.segmented_passage out ≠ []).
Proof.
  apply (passage_within_budget Demo.overlap_score [lit "q"] 6 Demo.ranked_doc).
  repeat split; reflexivity.
Defined.

(** C5 as stated fails.  With a title of three tokens and a budget of 2 the
    passage is the title and one separator, four tokens; with an empty
    title, no paragraph and a budget of 1, which is [len(title) + 1], the
    passage is empty. *)
Lemma passage_over_budget :
  Demo.tokens (Ranker.extract_paragraph_doc Demo.overlap_score [lit "q"] 2
                 Demo.long_title_doc)
  = [lit "a"; lit "b"; lit "c"; Ranker.splitter] ∧
  ¬ (py_len (Demo.tokens (Ranker.extract_paragraph_doc Demo.overlap_score
                            [lit "q"] 2 Demo.long_title_doc)) ≤ 2) ∧
  py_len (Ranker.segmented_title Demo.empty_doc) + 1 ≤ 1 ∧
  (∃ out, Ranker.extract_paragraph_doc Demo.overlap_score [lit "q"] 1
            Demo.empty_doc = Ok out ∧
          Ranker.segmented_passage out = []).
Proof.
  split; [vm_compute; reflexivity|]. split; [vm_compute; by intros H|].
  split; [vm_compute; discriminate|].
  eexists. split; vm_compute; reflexivity.
Qed.

(** C6, amended. In the passage the title is followed by the selected
    paragraphs in strictly increasing order of their original indices, and
    then, when the selection stopped on a paragraph that did not fit, by the
    cut part of that paragraph, whatever its original index. *)
Theorem selected_paragraphs_in_document_order
    (match_score : list str → list str → Q) (question : list str)
    (max_doc_len : Z) (doc : Ranker.document) (out : Ranker.passage) :
  Ranker.extract_paragraph_doc match_score question max_doc_len doc = Ok out →
  ∃ st chosen tail,
    Ranker.select_paragraphs match_score doc question max_doc_len = Ok st ∧
    StronglySorted Z.lt (Ranker.selected_para_ids st) ∧
    (Ranker.last_para_id st ∉ Ranker.selected_para_ids st) ∧
    passage_of doc st chosen tail out.
Proof.
  intros Hout.
  destruct (extract_paragraph_doc_Ok _ _ _ _ _ Hout) as (st & chosen & tail & Hst & Hp).
  exists st, chosen, tail. split; [done|].
  destruct (select_paragraphs_ok _ _ _ _ _ Hst) as (Hsorted & Hrange & _ & Hcase).
  split; [done|]. split; [|done].
  destruct Hcase as [(-> & _)|(para & _ & Hnot & _)]; [|done].
  intros Hin. rewrite Forall_forall in Hrange. apply Hrange in Hin. lia.
Qed.

Lemma selected_paragraphs_in_document_order_witness :
  ∃ st chosen tail,
    Ranker.select_paragraphs Demo.overlap_score Demo.ranked_doc [lit "q"] 9
    = Ok st ∧
    StronglySorted Z.lt (Ranker.selected_para_ids st) ∧
    (Ranker.last_para_id st ∉ Ranker.selected_para_ids st) ∧
    passage_of Demo.ranked_doc st chosen tail
      (Ranker.Passage 2
         [lit "t"; Ranker.splitter; lit "a"; lit "b"; lit "c"; lit "d";
          Ranker.splitter; lit "q"]
         [lit "n"; Ranker.splitter; lit "n"; lit "n"; lit "n"; lit "n";
          Ranker.splitter; lit "n"]
         [1; 0; 1; 1; 1; 1; 0; 1] [0; 0; 0; 0; 0; 0; 0; 0]
         [0%Q; 0 # 4; 1 # 1] 1).
Proof.
  apply (selected_paragraphs_in_document_order Demo.overlap_score [lit "q"] 9
           Demo.ranked_doc).
  vm_compute. reflexivity.
Defined.

(** C6 as stated fails.  With a budget of 6 the ranker selects paragraph 1,
    stops on paragraph 0 and appends its first two tokens: in the passage
    the tokens of paragraph 1 come before those of paragraph 0. *)
Lemma cut_paragraph_out_of_order :
  ∃ st out,
    Ranker.select_paragraphs Demo.overlap_score Demo.ranked_doc [lit "q"] 6
    = Ok st ∧
    Ranker.extract_paragraph_doc Demo.overlap_score [lit "q"] 6 Demo.ranked_doc
    = Ok out ∧
    Ranker.selected_para_ids st = [1] ∧
    Ranker.last_para_id st = 0 ∧
    Ranker.segmented_passage out
    = [lit "t"; Ranker.splitter; lit "q"; Ranker.splitter; lit "a"; lit "b"] ∧
    ¬ Sorted Z.le (Ranker.selected_para_ids st ++ [Ranker.last_para_id st]).
Proof.
  eexists _, _. split; [vm_compute; reflexivity|].
  split; [vm_compute; reflexivity|]. simpl.
  repeat split; try reflexivity.
  intros Hs. apply Sorted_inv in Hs as [_ Hhd]. apply HdRel_inv in Hhd. lia.
Qed.

(** * Further properties of the code *)

(** ** The span locator: the variants and the fallback search *)

Section locator_more.
Context `{Runtime}.

(** [l[:-1]] drops the last element. *)
Lemma py_slice_to_last {A} (l : list A) (x : A) : py_slice_to (l ++ [x]) (-1) = l.
Proof.
  unfold py_slice_to, py_slice, slice_bound, py_len.
  change (0 <? 0) with false. change (-1 <? 0) with true. cbv iota.
  rewrite length_app. simpl.
  replace (Z.to_nat (0 `min` _)) with 0%nat by lia.
  replace (Z.to_nat _) with (length l) by lia.
  by rewrite drop_0, take_app_length.
Qed.

Lemma endswith_char_snoc (s : str) (c : char) :
  endswith_char s c = true → s = py_slice_to s (-1) ++ [c].
Proof.
  unfold endswith_char. destruct s as [|x s _] using rev_ind; [done|].
  rewrite last_snoc. intros ->%N.eqb_eq. by rewrite py_slice_to_last.
Qed.

(** [s.replace(' ', '')] deletes the spaces. *)
Lemma replace_space_filter (s : list char) :
  str_replace [space] [] s = filter (λ c, c ≠ space) s.
Proof.
  unfold str_replace. induction s as [|c s IH]; [done|].
  destruct (decide (c = space)) as [->|Hne].
  - rewrite filter_cons_False by (intros Hn; by apply Hn).
    simpl. exact IH.
  - rewrite filter_cons_True by done. cbn [replace_go startswith].
    destruct (N.eqb_spec space c) as [E|_]; [by subst|].
    cbn [andb]. by rewrite IH.
Qed.

(** The container sliced at an occurrence of [sub] is [sub]. *)
Lemma py_slice_occurrence (sub doc : str) (i : nat) :
  sub `prefix_of` drop i doc → (i + length sub ≤ length doc)%nat →
  py_slice doc (Z.of_nat i) (Z.of_nat i + py_len sub - 1 + 1) = sub.
Proof.
  intros [k Hk] Hlen. unfold py_slice, slice_bound, py_len.
  destruct (Z.ltb_spec (Z.of_nat i) 0); [lia|].
  destruct (Z.ltb_spec (Z.of_nat i + Z.of_nat (length sub) - 1 + 1) 0); [lia|].
  replace (Z.to_nat (Z.of_nat i `min` _)) with i by lia.
  replace (Z.to_nat _) with (length sub) by lia.
  by rewrite Hk, take_app_length.
Qed.

Lemma exact_hit_slice (sub doc : str) (i : nat) :
  str_find sub doc = Some i →
  py_slice doc (exact_hit sub i).1.1 ((exact_hit sub i).1.2 + 1) = sub.
Proof.
  intros (Hp & Hlen & _)%str_find_Some. simpl. by apply py_slice_occurrence.
Qed.

(** The fallback search keeps [window_inv]. *)
Lemma end_step_window (sub doc : str) (start_idx end_idx : Z) (st : search) :
  0 ≤ start_idx → start_idx < py_len doc - py_len sub →
  (∃ c, py_index doc start_idx = Some c ∧ c ∈ sub) →
  start_idx ≤ end_idx → end_idx < py_len doc →
  window_inv sub doc st →
  window_inv sub doc
    (end_step sub doc (list_to_set sub) start_idx st end_idx).
Proof.
  intros H0 Hs Hc Hse He Hinv. unfold end_step.
  destruct (py_index doc end_idx) as [c|] eqn:Hi; [|done].
  destruct (bool_decide_reflect (c ∈ (list_to_set sub : gset char)))
    as [Hin%elem_of_list_to_set|]; [|done].
  destruct (Qlt_b _ _) eqn:Hlt; [|done].
  right. simpl. split.
  { apply Qlt_b_true in Hlt. destruct Hinv as [->|(Hpos & _)]; [done|].
    by eapply Qlt_trans. }
  repeat split; try lia; try done. by exists c.
Qed.

Lemma start_step_window (sub doc : str) (start_idx : Z) (st : search) :
  0 ≤ start_idx → start_idx < py_len doc - py_len sub →
  window_inv sub doc st →
  window_inv sub doc (start_step sub doc (list_to_set sub) st start_idx).
Proof.
  intros H0 Hs Hinv. unfold start_step.
  destruct (py_index doc start_idx) as [c|] eqn:Hi; [|done].
  destruct (bool_decide_reflect (c ∈ (list_to_set sub : gset char)))
    as [Hin%elem_of_list_to_set|]; [|done].
  assert (Hlast : last_end_in_sub_text st < py_len doc).
  { destruct Hinv as [->|(_ & _ & _ & _ & ? & _ & _ & _ & ->)]; simpl; lia. }
  assert (Hends : Forall (λ e, start_idx ≤ e ∧ e < py_len doc)
                         (range_down (last_end_in_sub_text st) (start_idx - 1))).
  { apply Forall_forall. intros e He%elem_of_range_down. lia. }
  revert Hinv Hends. generalize (range_down (last_end_in_sub_text st) (start_idx - 1)).
  intros ends Hinv Hends. revert st Hinv Hlast.
  induction Hends as [|e ends [??] _ IH]; intros st Hinv Hlast; simpl; [done|].
  apply IH.
  - apply end_step_window; try done. by exists c.
  - unfold end_step. destruct (py_index doc e); [|done].
    destruct (bool_decide _); [|done]. destruct (Qlt_b _ _); [simpl; lia|done].
Qed.

Lemma fuzzy_search_window (sub doc : str) :
  window_inv sub doc (fuzzy_search sub doc).
Proof.
  unfold fuzzy_search.
  assert (Hstarts : Forall (λ i, 0 ≤ i ∧ i < py_len doc - py_len sub)
                           (range 0 (py_len doc - py_len sub))).
  { apply Forall_forall. intros i Hi%elem_of_range. lia. }
  assert (Hinit : window_inv sub doc (Search 0 (-1) (-1) (py_len doc - 1)))
    by (by left).
  revert Hinit. generalize (Search 0 (-1) (-1) (py_len doc - 1)).
  induction Hstarts as [|i starts [??] _ IH]; intros st Hinv; simpl; [done|].
  apply IH. by apply start_step_window.
Qed.

(** A start position whose character is not in the fragment is skipped. *)
Lemma fuzzy_search_disjoint (sub doc : str) :
  (∀ c, c ∈ doc → c ∉ sub) →
  fuzzy_search sub doc = Search 0 (-1) (-1) (py_len doc - 1).
Proof.
  intros Hdisj. unfold fuzzy_search.
  assert (Hskip : ∀ st i, start_step sub doc (list_to_set sub) st i = st).
  { intros st i. unfold start_step.
    destruct (py_index doc i) as [c|] eqn:Hi; [|done].
    destruct (bool_decide_reflect (c ∈ (list_to_set sub : gset char)))
      as [Hin%elem_of_list_to_set|]; [|done].
    exfalso. apply (Hdisj c); [|done].
    unfold py_index in Hi.
    destruct (0 <=? i); [by eapply list_elem_of_lookup_2|].
    destruct (_ <=? i); [by eapply list_elem_of_lookup_2|done]. }
  generalize (Search 0 (-1) (-1) (py_len doc - 1)) as st.
  induction (range 0 (py_len doc - py_len sub)) as [|i starts IH]; intros st;
    simpl; [done|].
  by rewrite Hskip.
Qed.

Lemma located_span_exact (sub doc : str) :
  (∃ l r, doc = l ++ sub ++ r) →
  py_slice doc (find_best_match_index sub doc).1.1
           ((find_best_match_index sub doc).1.2 + 1) = sub.
Proof.
  intros (l & r & Hc). destruct (str_find_infix _ _ _ _ Hc) as [i Hi].
  unfold find_best_match_index. rewrite Hi. by apply exact_hit_slice.
Qed.

End locator_more.

(** X1. Whatever the fragment and the container, the locator returns the
    not-found triple [(-1, -1, 0)], or the empty span [(0, -1, 1)], or a span
    [0 <= start <= end < len(container)] with a positive confidence. *)
Theorem span_within_container `{Runtime} (fragment container : str) :
  ∃ s e c,
    find_best_match_index fragment container = (s, e, c) ∧
    ((s = -1 ∧ e = -1 ∧ c = 0%Q) ∨
     (s = 0 ∧ e = -1 ∧ c = 1%Q) ∨
     (0 ≤ s ∧ s ≤ e ∧ e < py_len container ∧ (0 < c)%Q)).
Proof.
  pose proof (find_best_match_index_located fragment container) as Hloc.
  destruct (find_best_match_index fragment container) as [[s e] c].
  by exists s, e, c.
Qed.

(** X2. A fragment that is not in the container but ends with a full stop
    and occurs without it is located as its trimmed variant: the start is
    the first occurrence of the trimmed text, the end is
    [start + len(fragment) - 2], the confidence is 1, and the container
    sliced at the span is the trimmed text. *)
Theorem trimmed_variant_located `{Runtime} (fragment container : str) :
  str_in fragment container = false →
  endswith_char fragment full_stop = true →
  str_in (py_slice_to fragment (-1)) container = true →
  ∃ i : nat,
    fragment = py_slice_to fragment (-1) ++ [full_stop] ∧
    find_best_match_index fragment container
    = (Z.of_nat i, Z.of_nat i + py_len fragment - 2, 1%Q) ∧
    py_slice_to fragment (-1) `prefix_of` drop i container ∧
    (∀ j, (j < i)%nat → ¬ py_slice_to fragment (-1) `prefix_of` drop j container) ∧
    py_slice container (Z.of_nat i) (Z.of_nat i + py_len fragment - 2 + 1)
    = py_slice_to fragment (-1).
Proof.
  intros Hnot Hend Hin. unfold str_in in *.
  destruct (str_find fragment container) eqn:E1; [done|].
  destruct (str_find (py_slice_to fragment (-1)) container) as [i|] eqn:E2; [|done].
  pose proof (endswith_char_snoc _ _ Hend) as Hfr.
  assert (Hlen : py_len (py_slice_to fragment (-1)) = py_len fragment - 1).
  { rewrite Hfr at 2. unfold py_len. rewrite length_app. simpl. lia. }
  exists i. split; [done|].
  unfold find_best_match_index. rewrite E1, Hend, E2. unfold exact_hit.
  rewrite Hlen. split; [f_equal; f_equal; lia|].
  pose proof (exact_hit_slice _ _ _ E2) as Hslice. simpl in Hslice.
  rewrite Hlen in Hslice.
  apply str_find_Some in E2 as (Hp & _ & Hmin). split; [done|]. split; [done|].
  rewrite <-Hslice. f_equal. lia.
Qed.

Lemma trimmed_variant_located_witness :
  ∃ i : nat,
    [21271; 20140; 24066; 12290]%N
    = py_slice_to [21271; 20140; 24066; 12290]%N (-1) ++ [full_stop] ∧
    find_best_match_index [21271; 20140; 24066; 12290]%N
      [20182; 22312; 21271; 20140; 24066; 24037; 20316]%N
    = (Z.of_nat i, Z.of_nat i + py_len [21271; 20140; 24066; 12290]%N - 2, 1%Q) ∧
    py_slice_to [21271; 20140; 24066; 12290]%N (-1)
      `prefix_of` drop i [20182; 22312; 21271; 20140; 24066; 24037; 20316]%N ∧
    (∀ j, (j < i)%nat →
          ¬ py_slice_to [21271; 20140; 24066; 12290]%N (-1)
            `prefix_of` drop j [20182; 22312; 21271; 20140; 24066; 24037; 20316]%N) ∧
    py_slice [20182; 22312; 21271; 20140; 24066; 24037; 20316]%N (Z.of_nat i)
      (Z.of_nat i + py_len [21271; 20140; 24066; 12290]%N - 2 + 1)
    = py_slice_to [21271; 20140; 24066; 12290]%N (-1).
Proof.
  apply (trimmed_variant_located [21271; 20140; 24066; 12290]%N
           [20182; 22312; 21271; 20140; 24066; 24037; 20316]%N); reflexivity.
Defined.

(** X3. A fragment for which the first two variants fail but which occurs
    in the container once its spaces are deleted is located as that
    squeezed text: first occurrence, [end = start + len(squeezed) - 1],
    confidence 1, and the container sliced at the span is the squeezed
    text. *)
Theorem squeezed_variant_located `{Runtime} (fragment container : list char) :
  str_in fragment container = false →
  endswith_char fragment full_stop
    && str_in (py_slice_to fragment (-1)) container = false →
  str_in (filter (λ c, c ≠ space) fragment) container = true →
  ∃ i : nat,
    find_best_match_index fragment container
    = (Z.of_nat i,
       Z.of_nat i + py_len (filter (λ c, c ≠ space) fragment) - 1, 1%Q) ∧
    filter (λ c, c ≠ space) fragment `prefix_of` drop i container ∧
    (∀ j, (j < i)%nat →
          ¬ filter (λ c, c ≠ space) fragment `prefix_of` drop j container) ∧
    py_slice container (Z.of_nat i)
      (Z.of_nat i + py_len (filter (λ c, c ≠ space) fragment) - 1 + 1)
    = filter (λ c, c ≠ space) fragment.
Proof.
  intros H1 H2 H3. rewrite <-replace_space_filter in *. unfold str_in in *.
  destruct (str_find fragment container) eqn:E1; [done|].
  destruct (str_find (str_replace [space] [] fragment) container)
    as [i|] eqn:E3; [|done].
  exists i.
  assert (Hfind : find_best_match_index fragment container
                  = exact_hit (str_replace [space] [] fragment) i).
  { unfold find_best_match_index. rewrite E1.
    destruct (endswith_char fragment full_stop); simpl in H2.
    - destruct (str_find (py_slice_to fragment (-1)) container); [done|].
      by rewrite E3.
    - by rewrite E3. }
  split; [done|].
  pose proof (exact_hit_slice _ _ _ E3) as Hslice.
  apply str_find_Some in E3 as (Hp & _ & Hmin). done.
Qed.

Lemma squeezed_variant_located_witness :
  ∃ i : nat,
    find_best_match_index (lit "b c") (lit "abcd")
    = (Z.of_nat i,
       Z.of_nat i + py_len (filter (λ c, c ≠ space) (lit "b c")) - 1, 1%Q) ∧
    filter (λ c, c ≠ space) (lit "b c") `prefix_of` drop i (lit "abcd") ∧
    (∀ j, (j < i)%nat →
          ¬ filter (λ c, c ≠ space) (lit "b c") `prefix_of` drop j (lit "abcd")) ∧
    py_slice (lit "abcd") (Z.of_nat i)
      (Z.of_nat i + py_len (filter (λ c, c ≠ space) (lit "b c")) - 1 + 1)
    = filter (λ c, c ≠ space) (lit "b c").
Proof.
  apply (squeezed_variant_located (lit "b c") (lit "abcd")); reflexivity.
Defined.

(** X4. When the fragment occurs in the container, slicing the container
    at the span the locator returns gives the fragment back. *)
Theorem located_span_is_fragment `{Runtime} (fragment container : str) :
  (∃ l r, container = l ++ fragment ++ r) →
  py_slice container (find_best_match_index fragment container).1.1
           ((find_best_match_index fragment container).1.2 + 1)
  = fragment.
Proof. apply located_span_exact. Qed.

Lemma located_span_is_fragment_witness :
  py_slice (lit "abcdecd") (find_best_match_index (lit "cd") (lit "abcdecd")).1.1
           ((find_best_match_index (lit "cd") (lit "abcdecd")).1.2 + 1)
  = lit "cd".
Proof.
  apply (located_span_is_fragment (lit "cd") (lit "abcdecd")).
  exists (lit "ab"), (lit "ecd"). reflexivity.
Defined.

(** X5. When the three exact variants fail, the locator returns
    [(-1, -1, 0)] or a window found by the fallback search: it starts at an
    enumerated position ([start < len(container) - len(fragment)]), its
    first and last characters are characters of the fragment, and the
    confidence is the Rouge-L score of the window against the fragment. *)
Theorem fallback_window_scored `{Runtime} (fragment container : str) :
  str_in fragment container = false →
  endswith_char fragment full_stop
    && str_in (py_slice_to fragment (-1)) container = false →
  str_in (str_replace [space] [] fragment) container = false →
  find_best_match_index fragment container = (-1, -1, 0%Q) ∨
  ∃ s e c,
    find_best_match_index fragment container = (s, e, c) ∧
    (0 < c)%Q ∧ 0 ≤ s ∧ s < py_len container - py_len fragment ∧
    s ≤ e ∧ e < py_len container ∧
    (∃ a, py_index container s = Some a ∧ a ∈ fragment) ∧
    (∃ b, py_index container e = Some b ∧ b ∈ fragment) ∧
    c = rouge_l (py_slice container s (e + 1)) fragment.
Proof.
  intros H1 H2 H3. unfold str_in in *.
  assert (Hfind : find_best_match_index fragment container
                  = let st := fuzzy_search fragment container in
                    if Qeq_bool (best_score st) 0 then (-1, -1, 0%Q)
                    else (best_start st, best_end st, best_score st)).
  { unfold find_best_match_index.
    destruct (str_find fragment container); [done|].
    destruct (endswith_char fragment full_stop); simpl in H2.
    - destruct (str_find (py_slice_to fragment (-1)) container); [done|].
      by destruct (str_find (str_replace [space] [] fragment) container).
    - by destruct (str_find (str_replace [space] [] fragment) container). }
  rewrite Hfind. simpl.
  destruct (fuzzy_search_window fragment container)
    as [->|(Hpos & ? & ? & ? & ? & ? & ? & Hscore & _)]; [by left|].
  destruct (Qeq_bool _ 0) eqn:E0; [by left|]. right.
  eexists _, _, _. split; [done|]. repeat split; done.
Qed.

Lemma fallback_window_scored_witness :
  find_best_match_index (lit "abd") (lit "xxabcxx") = (-1, -1, 0%Q) ∨
  ∃ s e c,
    find_best_match_index (lit "abd") (lit "xxabcxx") = (s, e, c) ∧
    (0 < c)%Q ∧ 0 ≤ s ∧ s < py_len (lit "xxabcxx") - py_len (lit "abd") ∧
    s ≤ e ∧ e < py_len (lit "xxabcxx") ∧
    (∃ a, py_index (lit "xxabcxx") s = Some a ∧ a ∈ lit "abd") ∧
    (∃ b, py_index (lit "xxabcxx") e = Some b ∧ b ∈ lit "abd") ∧
    c = rouge_l (py_slice (lit "xxabcxx") s (e + 1)) (lit "abd").
Proof.
  apply (fallback_window_scored (lit "abd") (lit "xxabcxx")); reflexivity.
Defined.

(** X6. A fragment that shares no character with the container, has a
    character other than a space and is not a lone full stop is not found,
    whatever the scorer: the result is [(-1, -1, 0)]. *)
Theorem disjoint_characters_not_found `{Runtime} (fragment container : list char) :
  Forall (λ c, c ∉ fragment) container →
  filter (λ c, c ≠ space) fragment ≠ [] →
  fragment ≠ [full_stop] →
  find_best_match_index fragment container = (-1, -1, 0%Q).
Proof.
  intros Hdisj Hsq Hfs. rewrite Forall_forall in Hdisj.
  assert (Hno : ∀ sub : list char,
            sub ≠ [] → (∀ c, c ∈ sub → c ∈ fragment) →
            str_find sub container = None).
  { intros [|a sub] Hne Hsub; [done|].
    destruct (str_find (a :: sub) container) as [i|] eqn:E; [|done]. exfalso.
    apply str_find_Some in E as ([k Hk] & _ & _).
    apply (Hdisj a); [|apply Hsub; by left].
    rewrite <-(take_drop i container), Hk. apply elem_of_app. right. by left. }
  unfold find_best_match_index.
  rewrite Hno; [|by intros ->|done].
  assert (Htrim : (if endswith_char fragment full_stop
                   then str_find (py_slice_to fragment (-1)) container
                   else None) = None).
  { destruct (endswith_char fragment full_stop) eqn:Hend; [|done].
    apply endswith_char_snoc in Hend. apply Hno.
    - intros Hnil. rewrite Hnil in Hend. by apply Hfs.
    - intros c Hc. rewrite Hend. apply elem_of_app. by left. }
  rewrite Htrim, replace_space_filter.
  rewrite Hno; [|done|by intros c [_ ?]%list_elem_of_filter].
  by rewrite fuzzy_search_disjoint.
Qed.

Lemma disjoint_characters_not_found_witness :
  find_best_match_index (lit "xyz123")
    [23436; 20840; 19981; 30456; 20851; 30340; 25991; 26412]%N
  = (-1, -1, 0%Q).
Proof.
  apply (disjoint_characters_not_found (lit "xyz123")
           [23436; 20840; 19981; 30456; 20851; 30340; 25991; 26412]%N).
  - apply (bool_decide_unpack _). vm_compute. exact I.
  - vm_compute. discriminate.
  - vm_compute. discriminate.
Defined.

(** ** The document ids of a marked string *)

Section marker_facts.
Context `{Runtime}.

Lemma findall_go_infix (skip : nat) (s m : str) :
  m ∈ findall_go skip s → ∃ l r, s = l ++ m ++ r.
Proof.
  revert skip. induction s as [|c s IH]; intros skip; simpl.
  { by intros ?%elem_of_nil. }
  assert (Hrec : ∀ k, m ∈ findall_go k s → ∃ l r, c :: s = l ++ m ++ r).
  { intros k (l & r & ->)%IH. by exists (c :: l), r. }
  destruct skip; [|apply Hrec].
  destruct (match_marker (c :: s)) as [m'|] eqn:Hm; [|apply Hrec].
  intros [->|Hin]%elem_of_cons; [|by eapply Hrec].
  exists [], (drop 10 (c :: s)).
  unfold match_marker in Hm. destruct (startswith _ _); [|done].
  destruct (drop 8 (c :: s)) as [|d [|a rest]]; [done..|].
  destruct (digit_value d); [|done]. destruct (a =? 64)%N; [|done].
  injection Hm as <-. exact (eq_sym (take_drop 10 (c :: s))).
Qed.

Lemma findall_no_marker (s : str) :
  str_in (lit "@content") s = false → findall s = [].
Proof.
  intros Hno. destruct (findall s) as [|m ms] eqn:E; [done|]. exfalso.
  assert (Hm : m ∈ findall s) by (rewrite E; by left).
  pose proof (findall_markers s) as Hall. rewrite Forall_forall in Hall.
  destruct (Hall m Hm) as (d & v & _ & ->).
  apply findall_go_infix in Hm as (l & r & Hs).
  assert (str_in (lit "@content") s = true); [|congruence].
  apply str_in_spec. exists l, ([d; 64%N] ++ r).
  by rewrite Hs, <-!(assoc_L (++)).
Qed.

End marker_facts.

(** X7. The document ids read from a marked string are distinct, each is
    between 0 and 9, and each is the value of the digit of a marker
    [@content<digit>@] that occurs in the string. *)
Theorem document_ids_are_marker_digits `{Runtime} (s : str) :
  NoDup (find_answer_in_docid s) ∧
  ∀ id, id ∈ find_answer_in_docid s →
    0 ≤ id ≤ 9 ∧
    ∃ d l r, digit_value d = Some id ∧
             s = l ++ (lit "@content" ++ [d; 64%N]) ++ r.
Proof.
  split; [apply find_answer_in_docid_NoDup|].
  intros id Hid. split; [by eapply find_answer_in_docid_range|].
  revert Hid. unfold find_answer_in_docid.
  rewrite set_order_perm, elem_of_remove_dups.
  intros (m & Hm & Hint)%list_elem_of_omap.
  pose proof (findall_markers s) as Hall. rewrite Forall_forall in Hall.
  destruct (Hall m Hm) as (d & v & Hd & ->).
  change (digit_value d = Some id) in Hint.
  apply findall_go_infix in Hm as (l & r & Hs). by exists d, l, r.
Qed.

(** X8. A string in which ["@content"] does not occur has no document
    id. *)
Theorem no_marker_no_document_id `{Runtime} (s : str) :
  str_in (lit "@content") s = false → find_answer_in_docid s = [].
Proof.
  intros Hno. unfold find_answer_in_docid. rewrite findall_no_marker by done.
  simpl. apply Permutation_nil_r. by rewrite set_order_perm.
Qed.

Lemma no_marker_no_document_id_witness :
  find_answer_in_docid Demo.beijing = [].
Proof. apply (no_marker_no_document_id Demo.beijing). reflexivity. Defined.

(** Matches do not overlap: in [@content1@content2@] the second marker
    shares its first character with the first one and is not read. *)
Example overlapping_markers :
  find_answer_in_docid (lit "@content1@content2@") = [1].
Proof. reflexivity. Qed.

(** ** The resolver: offsets into the document *)

Section offset_facts.
Context `{Runtime}.

Lemma py_slice_in_range {A} (l : list A) (a b : Z) :
  0 ≤ a → a ≤ b → b ≤ py_len l →
  py_slice l a b = take (Z.to_nat (b - a)) (drop (Z.to_nat a) l).
Proof.
  intros Ha Hab Hb. unfold py_slice, slice_bound.
  destruct (Z.ltb_spec a 0); [lia|]. destruct (Z.ltb_spec b 0); [lia|].
  by rewrite !Z.min_l by lia.
Qed.

(** A slice of a slice is a slice of the list, at the shifted offsets. *)
Lemma py_slice_slice {A} (l : list A) (a b i j : Z) :
  0 ≤ a → a ≤ b → b ≤ py_len l → 0 ≤ i → i ≤ j → j ≤ b - a →
  py_slice (py_slice l a b) i j = py_slice l (i + a) (j + a).
Proof.
  intros Ha Hab Hb Hi Hij Hj.
  assert (Hlen : py_len (py_slice l a b) = b - a) by (by apply py_slice_length).
  rewrite (py_slice_in_range (py_slice l a b)) by lia.
  rewrite (py_slice_in_range l a b), (py_slice_in_range l (i + a)) by lia.
  rewrite skipn_firstn_comm, take_take, drop_drop.
  f_equal; [lia|]. f_equal. lia.
Qed.

Lemma located_entry_slice (content : str) (s e : Z) (c : Q) :
  located content (s, e, c) →
  entry_slice content (py_slice content s (e + 1), s, e).
Proof.
  unfold entry_slice; simpl. intros Hloc. split; [done|].
  destruct Hloc as [(-> & -> & _)|[(-> & -> & _)|(? & ? & ? & _)]]; auto.
Qed.

Lemma support_step_slices (sample : gmap string json) (id : Z)
    (sup sup' : gmap Z (list sup_para)) (para_str : str) :
  supported_slices sample sup →
  support_step sample id sup para_str = Ok sup' →
  supported_slices sample sup'.
Proof.
  intros Hinv. unfold support_step.
  destruct (negb _ && negb _) eqn:Hq; [|by intros [= <-]].
  intros (content & Hc & Hstep)%bind_Ok.
  pose proof (find_best_match_index_located
                (str_replace (marker_tail id) [] para_str) content) as Hloc.
  destruct (find_best_match_index _ content) as [[s e] c].
  apply located_entry_slice in Hloc.
  intros id' paras' Hl.
  destruct (decide (id' = id)) as [->|Hne].
  - destruct (sup !! id) as [l|] eqn:El; simplify_eq/=;
      rewrite lookup_insert_eq in Hl; simplify_eq.
    + split; [by destruct l|]. exists content. split; [done|].
      destruct (Hinv _ _ El) as (_ & content' & Hc' & Hl').
      rewrite Hc in Hc'. simplify_eq. apply Forall_app. split; [done|].
      by constructor.
    + split; [done|]. exists content. split; [done|]. by constructor.
  - apply Hinv. destruct (sup !! id); simplify_eq/=;
      by rewrite lookup_insert_ne in Hl.
Qed.

Lemma build_supported_paras_slices (sample : gmap string json) (sp : str)
    (sup : gmap Z (list sup_para)) :
  build_supported_paras sample sp = Ok sup → supported_slices sample sup.
Proof.
  unfold build_supported_paras.
  apply (for_each_invariant _ (supported_slices sample)).
  - intros sup0 id sup1 Hid Hinv.
    apply (for_each_invariant _ (supported_slices sample)); [|done].
    intros sup2 para_str sup3 _ Hinv2. by apply support_step_slices.
  - intros id paras Hl. by rewrite lookup_empty in Hl.
Qed.

End offset_facts.

(** X9. After the supporting paragraphs are located, every document id
    that is a key of [supported_paras] has at least one entry, its document
    exists, and every entry [(text, start, end)] has
    [text = content[start : end + 1]], with the offsets [(-1, -1)] or
    [(0, -1)] (empty text) or [0 <= start <= end < len(content)]. *)
Theorem supported_paragraphs_are_slices `{Runtime} (sample : gmap string json)
    (sp : str) (sup : gmap Z (list sup_para)) (id : Z) (paras : list sup_para) :
  build_supported_paras sample sp = Ok sup →
  sup !! id = Some paras →
  paras ≠ [] ∧
  ∃ content,
    doc_content sample (id - 1) = Ok content ∧
    Forall (entry_slice content) paras.
Proof.
  intros Hsup%build_supported_paras_slices Hparas. by apply Hsup.
Qed.

Lemma supported_paragraphs_are_slices_witness :
  [(Demo.capital_sentence, 0, 8)] ≠ [] ∧
  ∃ content,
    doc_content (Demo.output (concat_documents Demo.scenario)) (1 - 1)
    = Ok content ∧
    Forall (entry_slice content) [(Demo.capital_sentence, 0, 8)].
Proof.
  apply (supported_paragraphs_are_slices
           (Demo.output (concat_documents Demo.scenario))
           (lit "@content1@" ++ Demo.capital_sentence ++ lit "@content1@")
           {[ 1 := [(Demo.capital_sentence, 0, 8)] ]} 1).
  - vm_compute. reflexivity.
  - reflexivity.
Defined.

(** X10. The offsets of a label are the offsets of the located span shifted
    by the start of the supporting paragraph it was located in: when the
    entries are slices of the content, the content sliced at the label is
    the paragraph text sliced at the local span, and it is the answer
    fragment itself when the fragment occurs in that paragraph. *)
Theorem label_slices_located_span `{Runtime} (id : Z) (answer_str content : str)
    (paras : list sup_para) (d s e : Z) :
  Forall (entry_slice content) paras →
  fragment_label id answer_str paras = Ok (Some (d, s, e)) →
  ∃ (i : nat) (p : sup_para) (ls le : Z) (c : Q),
    paras !! i = Some p ∧
    find_best_match_index answer_str p.1.1 = (ls, le, c) ∧
    s = ls + p.1.2 ∧ e = le + p.1.2 ∧
    py_slice content s (e + 1) = py_slice p.1.1 ls (le + 1) ∧
    ((∃ l r, p.1.1 = l ++ answer_str ++ r) →
     py_slice content s (e + 1) = answer_str).
Proof.
  intros Hok. unfold fragment_label.
  destruct (best_match_inv answer_str paras)
    as [(-> & _)|(i & p & Hi & Hp & Hf & Hpos & _)]; [done|].
  set (b := best_match answer_str paras) in *.
  pose proof (find_best_match_index_located answer_str p.1.1) as Hloc.
  rewrite Hf in Hloc.
  destruct (negb _ && negb _) eqn:Hc; [|done].
  rewrite Hi; simpl. rewrite Hp; simpl. intros [= <- <- <-].
  apply andb_true_iff in Hc as [Hs%negb_true_iff%Z.eqb_neq He%negb_true_iff%Z.eqb_neq].
  destruct Hloc as [(? & _)|[(_ & ? & _)|(Hls & Hle & Hlen & _)]]; [done..|].
  rewrite Forall_forall in Hok.
  destruct (Hok p) as [Htext Hshape]; [by eapply list_elem_of_lookup_2|].
  assert (Hslice : py_slice content
                     (best_start_in_sup_para b + p.1.2)
                     (best_start_in_sup_para b + p.1.2
                      + (best_end_in_sup_para b - best_start_in_sup_para b) + 1)
                   = py_slice p.1.1 (best_start_in_sup_para b)
                       (best_end_in_sup_para b + 1)).
  { destruct Hshape as [(Hs0 & He0)|[(Hs0 & He0)|(Hs0 & Hse0 & He0)]].
    - rewrite Htext, Hs0, He0, py_slice_not_found in Hlen.
      unfold py_len in Hlen. simpl in Hlen. lia.
    - rewrite Htext, Hs0, He0, py_slice_zero in Hlen.
      unfold py_len in Hlen. simpl in Hlen. lia.
    - rewrite Htext in Hlen |- *. rewrite py_slice_length in Hlen by lia.
      rewrite py_slice_slice by lia. f_equal; lia. }
  exists i, p, (best_start_in_sup_para b), (best_end_in_sup_para b), (max_rougel b).
  split; [done|]. split; [done|]. split; [done|]. split; [lia|].
  split; [done|]. intros Hin. rewrite Hslice.
  pose proof (located_span_exact answer_str p.1.1 Hin) as Hx.
  by rewrite Hf in Hx.
Qed.

(** The fragment 经济 against the supporting paragraph 上海是经济中心。 stored at
    offsets 9 to 16 of the content. *)
Lemma label_slices_located_span_witness :
  ∃ (i : nat) (p : str * Z * Z) (ls le : Z) (c : Q),
    [(Demo.centre_sentence, 9, 16)] !! i = Some p ∧
    find_best_match_index [32463; 27982]%N p.1.1 = (ls, le, c) ∧
    12 = ls + p.1.2 ∧ 13 = le + p.1.2 ∧
    py_slice (Demo.capital_sentence ++ Demo.centre_sentence) 12 (13 + 1)
    = py_slice p.1.1 ls (le + 1) ∧
    ((∃ l r, p.1.1 = l ++ [32463; 27982]%N ++ r) →
     py_slice (Demo.capital_sentence ++ Demo.centre_sentence) 12 (13 + 1)
     = [32463; 27982]%N).
Proof.
  apply (label_slices_located_span 1 [32463; 27982]%N
           (Demo.capital_sentence ++ Demo.centre_sentence)
           [(Demo.centre_sentence, 9, 16)] 0 12 13).
  - constructor; [|constructor]. split; [reflexivity|].
    right; right. vm_compute. repeat split; discriminate.
  - reflexivity.
Defined.

(** ** The resolver: what a run leaves in the sample *)

Section run_facts.
Context `{Runtime}.

Lemma for_each_snoc {A S} (body : S → A → result S) (l : list A) (x : A)
    (s s' : S) :
  for_each body (l ++ [x]) s = Ok s' →
  ∃ s1, for_each body l s = Ok s1 ∧ body s1 x = Ok s'.
Proof.
  rewrite for_each_app. intros (s1 & H1 & H2)%bind_Ok. exists s1.
  split; [done|]. simpl in H2. by destruct (body s1 x).
Qed.

Lemma fake_answer_Ok (sample : gmap string json) (d s e : Z) (f : str) :
  fake_answer sample (d, s, e) = Ok f ↔
  ∃ content, doc_content sample d = Ok content ∧ f = py_slice content s (e + 1).
Proof.
  unfold fake_answer. rewrite bind_Ok. split.
  - intros (content & Hc & [= <-]). by exists content.
  - intros (content & Hc & ->). by exists content.
Qed.

Lemma fake_answer_frame (s s' : gmap string json) (l : label) :
  s' !! "documents" = s !! "documents" → fake_answer s' l = fake_answer s l.
Proof.
  intros Hd. destruct l as [[d b] e]. unfold fake_answer.
  by rewrite (doc_content_frame _ _ _ Hd).
Qed.

Lemma calc_ceil_rougel_fakes (answer_text : str)
    (sample sample' : gmap string json) (labels : list label) :
  sample !! "answer_labels" = Some (JList (label_json <$> labels)) →
  calc_ceil_rougel answer_text sample = Ok sample' →
  ∃ fake_answers,
    Forall2 (λ l f, fake_answer sample l = Ok f) labels fake_answers ∧
    sample' = <["ceil_rougel" := ceil_value fake_answers answer_text]>
                (<["fake_answers" := JList (JStr <$> fake_answers)]> sample).
Proof.
  intros Hl. unfold calc_ceil_rougel, get. rewrite Hl; simpl.
  rewrite map_result_as_label; simpl.
  intros (fake & Hfake%map_result_Ok & Hret)%bind_Ok. exists fake.
  split; [done|]. unfold ceil_value.
  destruct (length fake =? 0)%nat; by injection Hret as <-.
Qed.

(** The stages of a run that returns. *)
Lemma gen_mrc_dataset_Ok (sample sample' : gmap string json) :
  gen_mrc_dataset sample = Ok sample' →
  ∃ s1, concat_documents sample = Ok s1 ∧
        ((s1 !! "answer" = None ∧ sample' = s1) ∨
         (∃ answer sp sup texts labels,
            s1 !! "answer" = Some (JStr answer) ∧
            s1 !! "supporting_paragraph" = Some (JStr sp) ∧
            build_supported_paras s1 sp = Ok sup ∧
            label_answers sup answer s1 = Ok (texts, labels, sample'))).
Proof.
  unfold gen_mrc_dataset. intros (s1 & Hs1 & Hrest)%bind_Ok.
  exists s1. split; [done|].
  destruct (s1 !! "answer") as [v|] eqn:Ha; [right|left; by injection Hrest as <-].
  apply bind_Ok in Hrest as (sp & (w & Hw%get_Ok & ->%as_str_Ok)%bind_Ok & Hrest).
  apply bind_Ok in Hrest as (sup & Hsup & Hrest).
  apply bind_Ok in Hrest as (answer & ->%as_str_Ok & Hrest).
  apply bind_Ok in Hrest as ([[texts labels] s2] & Hlab & [= <-]).
  by exists answer, sp, sup, texts, labels.
Qed.

(** A run changes ["documents"] as [concat_documents] does and, beyond
    that, only the three derived fields. *)
Lemma gen_mrc_dataset_frame (sample sample' : gmap string json) :
  gen_mrc_dataset sample = Ok sample' →
  ∃ documents docs docs',
    sample !! "documents" = Some documents ∧
    py_iter documents = Ok docs ∧
    Forall2 joined docs docs' ∧
    sample' !! "documents"
    = Some (match documents with
            | JList _ => JList docs'
            | _ => documents
            end) ∧
    ∀ k, k ≠ "documents" → k ≠ "answer_labels" → k ≠ "fake_answers" →
         k ≠ "ceil_rougel" → sample' !! k = sample !! k.
Proof.
  intros (s1 & Hs1 & Hcase)%gen_mrc_dataset_Ok.
  assert (Hframe1 : ∀ k, k ≠ "documents" → s1 !! k = sample !! k)
    by (intros k; by apply concat_documents_frame).
  apply concat_documents_Ok in Hs1
    as (documents & docs & docs' & Hdocs & Hiter & Hjoined & Hs1).
  exists documents, docs, docs'. split; [done|]. split; [done|]. split; [done|].
  assert (Hd1 : s1 !! "documents"
                = Some (match documents with
                        | JList _ => JList docs'
                        | _ => documents
                        end)).
  { rewrite Hs1. destruct documents; by rewrite ?lookup_insert_eq. }
  destruct Hcase as [(_ & ->)|(answer & sp & sup & texts & labels & _ & _ & _ & Hlab)].
  - split; [done|]. intros k ? _ _ _. by apply Hframe1.
  - apply doc_loop_Ok in Hlab as (_ & _ & _ & Hframe & _ & _).
    split; [by rewrite Hframe|]. intros k ????.
    rewrite Hframe by done. by apply Hframe1.
Qed.

End run_facts.

(** X11. After a run on a sample whose answer has a document id,
    [fake_answers] has one entry per label, and the entry of the label
    [(d, s, e)] is [documents[d]['content'][s : e + 1]], a string of
    [e - s + 1] characters. *)
Theorem fake_answers_are_label_slices `{Runtime}
    (sample sample' : gmap string json) (answer : str) :
  sample !! "answer" = Some (JStr answer) →
  gen_mrc_dataset sample = Ok sample' →
  find_answer_in_docid answer ≠ [] →
  ∃ (labels : list (Z * Z * Z)) (fake_answers : list str),
    sample' !! "answer_labels" = Some (JList (label_json <$> labels)) ∧
    sample' !! "fake_answers" = Some (JList (JStr <$> fake_answers)) ∧
    Forall2 (λ l f, ∃ content,
               doc_content sample' l.1.1 = Ok content ∧
               f = py_slice content l.1.2 (l.2 + 1) ∧
               py_len f = l.2 - l.1.2 + 1)
            labels fake_answers.
Proof.
  intros Ha Hrun Hids.
  destruct (gen_mrc_dataset_answer _ _ _ Ha Hrun)
    as (s1 & sp & sup & texts & labels & Hs1 & Hsp & Hsup & Hlab).
  apply build_supported_paras_inv in Hsup.
  pose proof (doc_loop_Ok _ _ _ _ _ _ _ _ _ Hlab)
    as (per_doc & Hper & Hlabels & Hframe & _ & _).
  simpl in Hlabels.
  assert (Hvalid : Forall (valid_label s1 (find_answer_in_docid answer)) labels).
  { rewrite Hlabels. eapply per_doc_valid; [done| |done].
    intros id Hid. split; [done|]. by eapply find_answer_in_docid_range. }
  unfold label_answers in Hlab.
  destruct (find_answer_in_docid answer) as [|idl ids0 _] using rev_ind; [done|].
  apply for_each_snoc in Hlab as ([[t1 l1] sm1] & Hinit & Hstep).
  apply doc_loop_Ok in Hinit as (_ & _ & _ & Hframe1 & _ & _).
  unfold doc_step in Hstep.
  apply bind_Ok in Hstep as (paras & _ & Hstep).
  apply bind_Ok in Hstep as ([t2 l2] & _ & Hstep).
  apply bind_Ok in Hstep as (sm2 & Hcalc & [= <- <- <-]).
  apply (calc_ceil_rougel_fakes _ _ _ l2) in Hcalc as (fakes & Hfakes & ->);
    [|by rewrite lookup_insert_eq].
  exists l2, fakes. split; [by simplify_map_eq|]. split; [by simplify_map_eq|].
  assert (Hfakes1 : Forall2 (λ l f, fake_answer s1 l = Ok f) l2 fakes).
  { eapply Forall2_impl; [exact Hfakes|]. intros l f <-. symmetry.
    apply fake_answer_frame. by rewrite lookup_insert_ne, Hframe1. }
  assert (Hdc : ∀ d, doc_content
                       (<["ceil_rougel" := ceil_value fakes (str_join t2)]>
                          (<["fake_answers" := JList (JStr <$> fakes)]>
                             (<["answer_labels" := JList (label_json <$> l2)]> sm1))) d
                     = doc_content s1 d).
  { intros d. apply doc_content_frame. by apply Hframe. }
  revert Hdc. generalize (ceil_value fakes (str_join t2)).
  generalize (JList (JStr <$> fakes)) (JList (label_json <$> l2)).
  intros j1 j2 j3 Hdc. revert Hvalid. clear -Hfakes1 Hdc.
  induction Hfakes1 as [|[[d s] e] f labels fakes Hf _ IH]; intros Hvalid;
    [constructor|].
  apply Forall_cons in Hvalid as [Hv Hvalid]. constructor; [|by apply IH].
  apply fake_answer_Ok in Hf as (content & Hc & ->).
  simpl. exists content. split; [by rewrite Hdc|]. split; [done|].
  destruct Hv as (_ & docs & m & content' & Hd & Hi & Hm & ? & ? & ?).
  assert (content' = content) as ->.
  { assert (doc_content s1 d = Ok content') as Hc'
      by (apply doc_content_Ok; by exists docs, m).
    rewrite Hc in Hc'. by injection Hc'. }
  rewrite py_slice_length; lia.
Qed.

Lemma fake_answers_are_label_slices_witness :
  ∃ (labels : list (Z * Z * Z)) (fake_answers : list str),
    Demo.output (gen_mrc_dataset Demo.two_documents) !! "answer_labels"
    = Some (JList (label_json <$> labels)) ∧
    Demo.output (gen_mrc_dataset Demo.two_documents) !! "fake_answers"
    = Some (JList (JStr <$> fake_answers)) ∧
    Forall2 (λ l f, ∃ content,
               doc_content (Demo.output (gen_mrc_dataset Demo.two_documents)) l.1.1
               = Ok content ∧
               f = py_slice content l.1.2 (l.2 + 1) ∧
               py_len f = l.2 - l.1.2 + 1)
            labels fake_answers.
Proof.
  apply (fake_answers_are_label_slices Demo.two_documents _
           (lit "@content1@" ++ Demo.beijing ++ lit "@content1@"
            ++ lit "@content2@" ++ Demo.shanghai ++ lit "@content2@"));
    [reflexivity | vm_compute; reflexivity | vm_compute; discriminate].
Defined.



(** X13. A run is not repeatable: on the sample a run returned, with at
    least one document, a second run raises KeyError, because the first run
    deleted ['paragraphs'] from every document. *)
Theorem second_run_raises `{Runtime} (sample sample' : gmap string json)
    (doc : json) (docs : list json) :
  sample !! "documents" = Some (JList (doc :: docs)) →
  gen_mrc_dataset sample = Ok sample' →
  gen_mrc_dataset sample' = Raise KeyError.
Proof.
  intros Hd (documents & docs0 & docs' & Hdocs & Hiter & Hjoined & Hdocs' & _)
              %gen_mrc_dataset_frame.
  rewrite Hd in Hdocs. injection Hdocs as <-. injection Hiter as <-.
  apply Forall2_cons_inv_l in Hjoined
    as (doc' & rest & (m & paragraphs & content & -> & _ & _ & ->) & _ & ->).
  unfold gen_mrc_dataset, concat_documents, get. rewrite Hdocs'.
  cbn [of_option bind py_iter map_result].
  unfold concat_doc at 1. cbn [as_dict bind]. unfold get.
  by rewrite lookup_delete_eq.
Qed.

Lemma second_run_raises_witness :
  gen_mrc_dataset (Demo.output (gen_mrc_dataset Demo.scenario)) = Raise KeyError.
Proof.
  apply (second_run_raises Demo.scenario _
           (JDict (Demo.doc_of [Demo.capital_sentence; Demo.centre_sentence])) []);
    [reflexivity | vm_compute; reflexivity].
Defined.

(** ** The paragraph ranker: the fields of the passage *)

Section ranker_more.
Import Ranker.
Context (match_score : list str → list str → Q).

Lemma concat_with_acc {A} (sep : A) (paras : list (list A)) (acc : list A) :
  foldl (λ passage para, passage ++ (para ++ [sep])) acc paras
  = acc ++ concat_with sep paras.
Proof.
  unfold concat_with. revert acc.
  induction paras as [|p paras IH]; intros acc; simpl; [by rewrite app_nil_r|].
  rewrite (IH (acc ++ _)), (IH (p ++ _)). by rewrite <-(assoc_L (++) acc).
Qed.

Lemma concat_with_cons {A} (sep : A) (p : list A) (paras : list (list A)) :
  concat_with sep (p :: paras) = p ++ sep :: concat_with sep paras.
Proof.
  unfold concat_with at 1. simpl. rewrite concat_with_acc.
  by rewrite <-(assoc_L (++)).
Qed.

Lemma py_slice_to_app_last {A} (a b : list A) :
  b ≠ [] → py_slice_to (a ++ b) (-1) = a ++ py_slice_to b (-1).
Proof.
  destruct b as [|x b _] using rev_ind; [done|]. intros _.
  by rewrite (assoc_L (++)), !py_slice_to_last.
Qed.

Lemma py_slice_to_prefix {A} (a b : list A) :
  py_slice_to (a ++ b) (py_len a) = a.
Proof.
  unfold py_slice_to, py_slice, slice_bound, py_len.
  change (0 <? 0) with false. cbv iota.
  destruct (Z.ltb_spec (Z.of_nat (length a)) 0); [lia|]. rewrite length_app.
  replace (Z.to_nat (0 `min` _)) with 0%nat by lia.
  replace (Z.to_nat _) with (length a) by lia.
  by rewrite drop_0, take_app_length.
Qed.

(** [passage[:-1]] of the concatenation is the paragraphs joined by the
    separator. *)
Lemma passage_join {A} (sep : A) (paras : list (list A)) :
  py_slice_to (concat_with sep paras) (-1) = join_with sep paras.
Proof.
  induction paras as [|p paras IH]; [done|].
  rewrite concat_with_cons. destruct paras as [|q paras].
  - apply (py_slice_to_last p sep).
  - rewrite py_slice_to_app_last by done.
    change (sep :: concat_with sep (q :: paras))
      with ([sep] ++ concat_with sep (q :: paras)).
    rewrite py_slice_to_app_last, IH; [done|].
    rewrite concat_with_cons. by destruct q.
Qed.

Lemma join_with_length {A B} (sep : A) (sep' : B) (l : list (list A))
    (l' : list (list B)) :
  Forall2 (λ p q, length p = length q) l l' →
  length (join_with sep l) = length (join_with sep' l').
Proof.
  induction 1 as [|p q l l' Hpq Hl IH]; [done|].
  destruct Hl as [|p1 q1 l l' H1 Hl]; [done|].
  cbn [join_with] in *. rewrite !length_app. cbn [length]. by rewrite Hpq, IH.
Qed.

Lemma py_index_fmap {A B} (f : A → B) (l : list A) (i : Z) :
  py_index (f <$> l) i = f <$> py_index l i.
Proof.
  unfold py_index, py_len. rewrite length_fmap, !list_lookup_fmap.
  by repeat case_match.
Qed.

Lemma pick_fmap {A B} (f : A → B) (paras : list A) (ids : list Z)
    (chosen : list A) :
  pick paras ids = Ok chosen → pick (f <$> paras) ids = Ok (f <$> chosen).
Proof.
  unfold pick. rewrite !map_result_Ok.
  induction 1 as [|i p ids chosen Hp _ IH]; [constructor|].
  rewrite fmap_cons. constructor; [|done].
  rewrite py_index_fmap. by destruct (py_index paras i); simplify_eq/=.
Qed.

Lemma py_index_Forall2 {A B} (R : A → B → Prop) (l : list A) (l' : list B)
    (i : Z) (x : A) (y : B) :
  Forall2 R l l' → py_index l i = Some x → py_index l' i = Some y → R x y.
Proof.
  intros HR. unfold py_index, py_len. rewrite <-(Forall2_length _ _ _ HR).
  repeat case_match; try done; intros; by eapply Forall2_lookup_lr.
Qed.

Lemma pick_Forall2 {A B} (R : A → B → Prop) (paras : list A) (paras' : list B)
    (ids : list Z) (chosen : list A) (chosen' : list B) :
  Forall2 R paras paras' →
  pick paras ids = Ok chosen → pick paras' ids = Ok chosen' →
  Forall2 R chosen chosen'.
Proof.
  intros HR. unfold pick. rewrite !map_result_Ok. intros Hc. revert chosen'.
  induction Hc as [|i p ids chosen Hp _ IH]; intros chosen' Hc'.
  - apply Forall2_nil_inv_l in Hc' as ->. constructor.
  - apply Forall2_cons_inv_l in Hc' as (q & chosen'' & Hq & Hc' & ->).
    constructor; [|by apply IH].
    destruct (py_index paras i) eqn:E1; [|done].
    destruct (py_index paras' i) eqn:E2; [|done]. simplify_eq/=.
    by eapply py_index_Forall2.
Qed.

Lemma py_slice_same_length {A B} (p : list A) (q : list B) (a b : Z) :
  length p = length q → length (py_slice p a b) = length (py_slice q a b).
Proof.
  intros Hl. unfold py_slice, py_len.
  by rewrite !length_take, !length_drop, Hl.
Qed.

Lemma cut_last_same_length {A B} (paras : list (list A))
    (paras' : list (list B)) (st : selection) (c : list A) (c' : list B) :
  Forall2 (λ p q, length p = length q) paras paras' →
  cut_last paras st = Ok c → cut_last paras' st = Ok c' →
  length c = length c'.
Proof.
  intros HR. unfold cut_last.
  destruct (py_index paras _) as [p|] eqn:E1; [|done].
  destruct (py_index paras' _) as [q|] eqn:E2; [|done].
  intros [= <-] [= <-]. apply py_slice_same_length.
  by eapply (py_index_Forall2 _ _ _ _ _ _ HR).
Qed.

(** Everything a run of the loop body computes. *)
Lemma extract_paragraph_doc_fields (question : list str) (max_doc_len : Z)
    (doc : document) (out : passage) :
  extract_paragraph_doc match_score question max_doc_len doc = Ok out →
  ∃ st c_seg c_pos c_kw c_wiq t_seg t_pos t_kw t_wiq,
    select_paragraphs match_score doc question max_doc_len = Ok st ∧
    pick (segmented_paragraphs doc) (selected_para_ids st) = Ok c_seg ∧
    pick (pos_paragraphs doc) (selected_para_ids st) = Ok c_pos ∧
    pick (keyword_paragraphs doc) (selected_para_ids st) = Ok c_kw ∧
    pick (paragraphs_word_in_question doc) (selected_para_ids st) = Ok c_wiq ∧
    (if -1 <? last_para_id st
     then ∃ l_seg l_pos l_kw l_wiq,
            cut_last (segmented_paragraphs doc) st = Ok l_seg ∧
            cut_last (pos_paragraphs doc) st = Ok l_pos ∧
            cut_last (keyword_paragraphs doc) st = Ok l_kw ∧
            cut_last (paragraphs_word_in_question doc) st = Ok l_wiq ∧
            t_seg = [l_seg] ∧ t_pos = [l_pos] ∧ t_kw = [l_kw] ∧ t_wiq = [l_wiq]
     else t_seg = [] ∧ t_pos = [] ∧ t_kw = [] ∧ t_wiq = []) ∧
    paragraph_match_score out
    = (λ para, match_score para question)
        <$> (segmented_title doc :: c_seg ++ t_seg) ∧
    (best ← py_max (paragraph_match_score out);
     index_of best (paragraph_match_score out)) = Some (most_related_para_id out) ∧
    segmented_passage out
    = join_with splitter (segmented_title doc :: c_seg ++ t_seg) ∧
    pos_passage out = join_with splitter (pos_title doc :: c_pos ++ t_pos) ∧
    keyword_passage out = join_with 0 (keyword_title doc :: c_kw ++ t_kw) ∧
    passage_word_in_question out
    = join_with 0 (title_word_in_question doc :: c_wiq ++ t_wiq) ∧
    title_len out = py_len (segmented_title doc).
Proof.
  unfold extract_paragraph_doc.
  intros (st & Hst & H1)%bind_Ok.
  apply bind_Ok in H1 as (c_seg & Hseg & H1).
  apply bind_Ok in H1 as (c_sc & Hsc & H1).
  apply bind_Ok in H1 as (c_pos & Hpos & H1).
  apply bind_Ok in H1 as (c_kw & Hkw & H1).
  apply bind_Ok in H1 as (c_wiq & Hwiq & H1).
  apply bind_Ok in H1 as ([[[[seg sc] ps] ks] ws] & Hif & H1).
  apply bind_Ok in H1 as (best & Hbest & [= <-]).
  cbn [most_related_para_id segmented_passage pos_passage keyword_passage
       passage_word_in_question paragraph_match_score title_len].
  unfold calc_paragraph_match_scores in Hsc.
  rewrite (pick_fmap _ _ _ _ Hseg) in Hsc. injection Hsc as <-.
  assert (Hbest' : (b ← py_max sc; index_of b sc) = Some best).
  { destruct (b ← py_max sc; index_of b sc); by simplify_eq/=. }
  exists st, c_seg, c_pos, c_kw, c_wiq.
  destruct (-1 <? last_para_id st).
  - apply bind_Ok in Hif as (l_seg & Hl1 & H2).
    apply bind_Ok in H2 as (l_pos & Hl2 & H2).
    apply bind_Ok in H2 as (l_kw & Hl3 & H2).
    apply bind_Ok in H2 as (l_wiq & Hl4 & [= <- <- <- <- <-]).
    exists [l_seg], [l_pos], [l_kw], [l_wiq].
    do 5 (split; [done|]). split; [by exists l_seg, l_pos, l_kw, l_wiq|].
    split; [by rewrite fmap_cons, fmap_app|]. split; [done|].
    by rewrite <-!passage_join.
  - injection Hif as <- <- <- <- <-. exists [], [], [], [].
    rewrite !app_nil_r. do 7 (split; [done|]). by rewrite <-!passage_join.
Qed.

(** [max] and [list.index]. *)
Lemma py_max_spec (l : list Q) (best : Q) :
  py_max l = Some best → best ∈ l ∧ Forall (λ s, (s <= best)%Q) l.
Proof.
  destruct l as [|x l]; [done|]. unfold py_max. intros [= <-].
  assert (∀ (l' : list Q) m,
            let b := foldl (λ m y, if Qlt_b m y then y else m) m l' in
            (m <= b)%Q ∧ Forall (λ s, (s <= b)%Q) l' ∧ (b = m ∨ b ∈ l')) as Hgen.
  { induction l' as [|y l' IH]; intros m; simpl.
    - split; [apply Qle_refl|]. split; [constructor|by left].
    - destruct (Qlt_b m y) eqn:E.
      + apply Qlt_b_true in E. destruct (IH y) as (Hy & Hall & Hin).
        split; [eapply Qle_trans; [by apply Qlt_le_weak|done]|].
        split; [by constructor|]. right.
        destruct Hin as [->|?]; [by left|by right].
      + apply Qlt_b_false in E. destruct (IH m) as (Hm & Hall & Hin).
        split; [done|]. split; [constructor; [by eapply Qle_trans|done]|].
        destruct Hin as [?|?]; [by left|right; by right]. }
  destruct (Hgen l x) as (Hx & Hall & Hin). split.
  - destruct Hin as [->|?]; [by left|by right].
  - by constructor.
Qed.

Lemma index_of_spec (v : Q) (l : list Q) (n : nat) :
  index_of v l = Some n →
  ∃ x, l !! n = Some x ∧ (x == v)%Q ∧
       ∀ (j : nat) (y : Q), (j < n)%nat → l !! j = Some y → ¬ (y == v)%Q.
Proof.
  revert n. induction l as [|x l IH]; intros n; simpl; [done|].
  destruct (Qeq_bool x v) eqn:E.
  - intros [= <-]. exists x. split; [done|].
    split; [by apply Qeq_bool_iff|]. intros j y Hj. lia.
  - destruct (index_of v l) as [m|]; [|done]. intros [= <-].
    destruct (IH m eq_refl) as (x' & Hx' & Heq & Hbefore).
    exists x'. split; [done|]. split; [done|].
    intros [|j] y Hj; simpl.
    + intros [= <-] Hxv. apply Qeq_bool_iff in Hxv. congruence.
    + apply Hbefore. lia.
Qed.

Lemma most_related_first_max (scores : list Q) (n : nat) :
  (best ← py_max scores; index_of best scores) = Some n → first_max scores n.
Proof.
  destruct (py_max scores) as [best|] eqn:Hmax; [|done]. simpl.
  intros (x & Hx & Heq & Hbefore)%index_of_spec.
  apply py_max_spec in Hmax as (_ & Hall).
  exists x. split; [done|]. split.
  - eapply Forall_impl; [exact Hall|]. intros s Hs. simpl in Hs. by rewrite Heq.
  - intros j s Hj Hs. rewrite Heq.
    assert (s <= best)%Q as Hle
      by (rewrite Forall_forall in Hall; apply Hall; by eapply list_elem_of_lookup_2).
    apply Qle_lt_or_eq in Hle as [?|Hsb]; [done|]. by apply Hbefore in Hs.
Qed.

End ranker_more.

(** X14. On a document whose part-of-speech tags, keyword weights and
    question-overlap flags are given token by token, the four passages of a
    run have the same length: position [i] of each describes token [i] of
    [segmented_passage]. *)
Theorem feature_passages_aligned (match_score : list str → list str → Q)
    (question : list str) (max_doc_len : Z) (doc : Ranker.document)
    (out : Ranker.passage) :
  token_aligned doc →
  Ranker.extract_paragraph_doc match_score question max_doc_len doc = Ok out →
  length (Ranker.pos_passage out) = length (Ranker.segmented_passage out) ∧
  length (Ranker.keyword_passage out) = length (Ranker.segmented_passage out) ∧
  length (Ranker.passage_word_in_question out)
  = length (Ranker.segmented_passage out).
Proof.
  intros (Ht1 & Ht2 & Ht3 & Hp1 & Hp2 & Hp3) Hout.
  destruct (extract_paragraph_doc_fields _ _ _ _ _ Hout)
    as (st & c_seg & c_pos & c_kw & c_wiq & t_seg & t_pos & t_kw & t_wiq
        & _ & Hseg & Hpos & Hkw & Hwiq & Htail & _ & _ & -> & -> & -> & -> & _).
  assert (Forall2 (λ p q, length p = length q) t_seg t_pos
          ∧ Forall2 (λ p q, length p = length q) t_seg t_kw
          ∧ Forall2 (λ p q, length p = length q) t_seg t_wiq) as (Hl1 & Hl2 & Hl3).
  { destruct (-1 <? Ranker.last_para_id st).
    - destruct Htail as (l1 & l2 & l3 & l4 & H1 & H2 & H3 & H4 & -> & -> & -> & ->).
      split; [|split]; (constructor; [|constructor]).
      + eapply (cut_last_same_length _ _ st _ _ Hp1); eassumption.
      + eapply (cut_last_same_length _ _ st _ _ Hp2); eassumption.
      + eapply (cut_last_same_length _ _ st _ _ Hp3); eassumption.
    - destruct Htail as (-> & -> & -> & ->). repeat split; constructor. }
  split; [|split]; symmetry; apply join_with_length;
    (constructor; [done|]); (apply Forall2_app; [|done]).
  - eapply (pick_Forall2 _ _ _ _ _ _ Hp1); eassumption.
  - eapply (pick_Forall2 _ _ _ _ _ _ Hp2); eassumption.
  - eapply (pick_Forall2 _ _ _ _ _ _ Hp3); eassumption.
Qed.

Lemma feature_passages_aligned_witness :
  ∃ out,
    Ranker.extract_paragraph_doc Demo.overlap_score [lit "q"] 6 Demo.ranked_doc
    = Ok out ∧
    length (Ranker.pos_passage out) = length (Ranker.segmented_passage out) ∧
    length (Ranker.keyword_passage out) = length (Ranker.segmented_passage out) ∧
    length (Ranker.passage_word_in_question out)
    = length (Ranker.segmented_passage out).
Proof.
  eexists. split; [vm_compute; reflexivity|].
  apply (feature_passages_aligned Demo.overlap_score [lit "q"] 6 Demo.ranked_doc).
  - repeat split; try reflexivity; repeat constructor.
  - vm_compute. reflexivity.
Defined.

(** X15. [most_related_para_id] is an index into [paragraph_match_score];
    the score it points at is the largest of the list, and every score
    before it is strictly smaller: a tie goes to the entry that comes
    first, the title before any paragraph. *)
Theorem most_related_is_first_maximum (match_score : list str → list str → Q)
    (question : list str) (max_doc_len : Z) (doc : Ranker.document)
    (out : Ranker.passage) :
  Ranker.extract_paragraph_doc match_score question max_doc_len doc = Ok out →
  first_max (Ranker.paragraph_match_score out) (Ranker.most_related_para_id out).
Proof.
  intros Hout.
  destruct (extract_paragraph_doc_fields _ _ _ _ _ Hout)
    as (st & c_seg & c_pos & c_kw & c_wiq & t_seg & t_pos & t_kw & t_wiq
        & _ & _ & _ & _ & _ & _ & _ & Hbest & _).
  by apply most_related_first_max.
Qed.

Lemma most_related_is_first_maximum_witness :
  ∃ out,
    Ranker.extract_paragraph_doc Demo.overlap_score [lit "q"] 6 Demo.ranked_doc
    = Ok out ∧
    first_max (Ranker.paragraph_match_score out) (Ranker.most_related_para_id out).
Proof.
  eexists. split; [vm_compute; reflexivity|].
  apply (most_related_is_first_maximum Demo.overlap_score [lit "q"] 6
           Demo.ranked_doc).
  vm_compute. reflexivity.
Defined.

(** X16. The token passage is the title, the selected paragraphs and the
    cut paragraph, if any, joined by the splitter, with no splitter after
    the last; [paragraph_match_score] holds the score of each of these
    paragraphs in the same order, the cut paragraph being scored on the
    tokens that were kept of it. *)
Theorem scores_follow_passage (match_score : list str → list str → Q)
    (question : list str) (max_doc_len : Z) (doc : Ranker.document)
    (out : Ranker.passage) :
  Ranker.extract_paragraph_doc match_score question max_doc_len doc = Ok out →
  ∃ st chosen tail,
    Ranker.select_paragraphs match_score doc question max_doc_len = Ok st ∧
    passage_of doc st chosen tail out ∧
    Ranker.segmented_passage out
    = join_with Ranker.splitter (Ranker.segmented_title doc :: chosen ++ tail) ∧
    Ranker.paragraph_match_score out
    = (λ para, match_score para question)
        <$> (Ranker.segmented_title doc :: chosen ++ tail).
Proof.
  intros Hout.
  destruct (extract_paragraph_doc_fields _ _ _ _ _ Hout)
    as (st & c_seg & c_pos & c_kw & c_wiq & t_seg & t_pos & t_kw & t_wiq
        & Hst & Hseg & _ & _ & _ & Htail & Hsc & _ & Hpass & _).
  exists st, c_seg, t_seg. split; [done|]. split; [|done].
  split; [done|]. split; [|by rewrite passage_join].
  destruct (-1 <? Ranker.last_para_id st).
  - destruct Htail as (l1 & l2 & l3 & l4 & H1 & _ & _ & _ & -> & _).
    by exists l1.
  - by destruct Htail as (-> & _).
Qed.

Lemma scores_follow_passage_witness :
  ∃ out st chosen tail,
    Ranker.extract_paragraph_doc Demo.overlap_score [lit "q"] 6 Demo.ranked_doc
    = Ok out ∧
    Ranker.select_paragraphs Demo.overlap_score Demo.ranked_doc [lit "q"] 6
    = Ok st ∧
    passage_of Demo.ranked_doc st chosen tail out ∧
    Ranker.segmented_passage out
    = join_with Ranker.splitter
        (Ranker.segmented_title Demo.ranked_doc :: chosen ++ tail) ∧
    Ranker.paragraph_match_score out
    = (λ para, Demo.overlap_score para [lit "q"])
        <$> (Ranker.segmented_title Demo.ranked_doc :: chosen ++ tail).
Proof.
  eexists.
  assert (∀ (P : Prop) (Q : Ranker.selection → list (list str) → list (list str) → Prop),
            P → (P → ∃ st chosen tail, Q st chosen tail) →
            ∃ st chosen tail, P ∧ Q st chosen tail) as Hcut.
  { intros P Q HP HQ. destruct (HQ HP) as (st & chosen & tail & H).
    by exists st, chosen, tail. }
  apply Hcut; [vm_compute; reflexivity|].
  apply (scores_follow_passage Demo.overlap_score [lit "q"] 6 Demo.ranked_doc).
Defined.

(** X17. [title_len] is the number of tokens of the title; the passage
    begins with these tokens, and when it is longer the token after them is
    the splitter. *)
Theorem title_leads_passage (match_score : list str → list str → Q)
    (question : list str) (max_doc_len : Z) (doc : Ranker.document)
    (out : Ranker.passage) :
  Ranker.extract_paragraph_doc match_score question max_doc_len doc = Ok out →
  Ranker.title_len out = py_len (Ranker.segmented_title doc) ∧
  py_slice_to (Ranker.segmented_passage out) (Ranker.title_len out)
  = Ranker.segmented_title doc ∧
  (Ranker.title_len out < py_len (Ranker.segmented_passage out) →
   py_index (Ranker.segmented_passage out) (Ranker.title_len out)
   = Some Ranker.splitter).
Proof.
  intros Hout.
  destruct (extract_paragraph_doc_fields _ _ _ _ _ Hout)
    as (st & c_seg & c_pos & c_kw & c_wiq & t_seg & t_pos & t_kw & t_wiq
        & _ & _ & _ & _ & _ & _ & _ & _ & -> & _ & _ & _ & ->).
  split; [done|].
  assert (∀ title rest,
            join_with Ranker.splitter (title :: rest) = title
            ∨ ∃ more, join_with Ranker.splitter (title :: rest)
                      = title ++ Ranker.splitter :: more) as Hjoin.
  { intros title [|p rest]; [by left|right]. by eexists. }
  destruct (Hjoin (Ranker.segmented_title doc) (c_seg ++ t_seg))
    as [->|[more ->]].
  - split; [|lia].
    rewrite <-(app_nil_r (Ranker.segmented_title doc)) at 1.
    apply py_slice_to_prefix.
  - split; [apply py_slice_to_prefix|].
    intros _. rewrite py_index_nonneg by (unfold py_len; lia).
    unfold py_len. rewrite Nat2Z.id. by rewrite list_lookup_middle.
Qed.

Lemma title_leads_passage_witness :
  ∃ out,
    Ranker.extract_paragraph_doc Demo.overlap_score [lit "q"] 6 Demo.ranked_doc
    = Ok out ∧
    Ranker.title_len out = py_len (Ranker.segmented_title Demo.ranked_doc) ∧
    py_slice_to (Ranker.segmented_passage out) (Ranker.title_len out)
    = Ranker.segmented_title Demo.ranked_doc ∧
    (Ranker.title_len out < py_len (Ranker.segmented_passage out) →
     py_index (Ranker.segmented_passage out) (Ranker.title_len out)
     = Some Ranker.splitter).
Proof.
  eexists. split; [vm_compute; reflexivity|].
  apply (title_leads_passage Demo.overlap_score [lit "q"] 6 Demo.ranked_doc).
  vm_compute. reflexivity.
Defined.

(** ** The paragraph ranker: the ranking and the budget *)

Section ranker_order.
Import Ranker.
Context (match_score : list str → list str → Q).

Lemma pick_all {A} (paras : list A) :
  pick paras (Z.of_nat <$> seq 0 (length paras)) = Ok paras.
Proof.
  unfold pick. apply map_result_Ok. apply Forall2_same_length_lookup_2.
  - by rewrite length_fmap, length_seq.
  - intros i x y Hx Hy. rewrite list_lookup_fmap in Hx.
    destruct (seq 0 (length paras) !! i) as [n|] eqn:E; [|done].
    apply lookup_seq in E as [-> _]. simpl in Hx. injection Hx as <-.
    rewrite py_index_nonneg, Nat2Z.id by lia. by rewrite Hy.
Qed.

Lemma weight_all {A} (paras : list (list A)) :
  weight paras (Z.of_nat <$> seq 0 (length paras)) = total paras.
Proof. symmetry. apply pick_total, pick_all. Qed.

Lemma seq_sorted (k n : nat) : Sorted Z.le (Z.of_nat <$> seq k n).
Proof.
  revert k. induction n as [|n IH]; intros k; simpl; [constructor|].
  constructor; [apply IH|]. destruct n; simpl; constructor. lia.
Qed.

(** While the budget holds everything that is left, the loop selects it. *)
Lemma select_all_fit (doc : document) (max_doc_len : Z)
    (infos : list para_info) (st0 : selection) :
  Forall (λ i, 0 ≤ i < py_len (segmented_paragraphs doc)) infos.*2 →
  selected_para_len st0 + weight (segmented_paragraphs doc) infos.*2
  ≤ max_doc_len →
  select doc max_doc_len infos st0
  = Ok (Selection
          (selected_para_len st0 + weight (segmented_paragraphs doc) infos.*2)
          (selected_para_ids st0 ++ infos.*2)
          (last_para_id st0) (last_para_cut_idx st0)).
Proof.
  revert st0. induction infos as [|info infos IH]; intros st0 Hr Hfit.
  - destruct st0. simpl. by rewrite Z.add_0_r, app_nil_r.
  - rewrite fmap_cons in Hr, Hfit |- *. apply Forall_cons in Hr as [Hi Hr].
    cbn [select]. cbn [weight foldr] in Hfit |- *.
    destruct (py_index_in_range _ _ Hi) as [p Hp]. rewrite Hp in Hfit |- *.
    cbn [of_option bind].
    pose proof (weight_nonneg (segmented_paragraphs doc) infos.*2) as Hw.
    fold (weight (segmented_paragraphs doc) infos.*2) in Hfit |- *.
    destruct (Z.leb_spec (selected_para_len st0 + (py_len p + 1)) max_doc_len);
      [|lia].
    rewrite IH; [|done|simpl; lia]. simpl.
    do 2 f_equal; [lia|by rewrite <-(assoc_L (++))].
Qed.

(** The order of the ranking, as a relation. *)
Lemma key_lt_false (x y : para_info) :
  key_lt y x = false ↔
  (y.1.1 <= x.1.1)%Q ∧ ((x.1.1 == y.1.1)%Q → x.1.2 ≤ y.1.2).
Proof.
  destruct x as [[sx lx] ix], y as [[sy ly] iy]. simpl.
  destruct (Qeq_bool (- sy) (- sx)) eqn:E.
  - apply Qeq_bool_iff in E.
    assert (sx == sy)%Q as Heq.
    { rewrite <-(Qopp_involutive sx), <-(Qopp_involutive sy). by rewrite E. }
    rewrite Z.ltb_ge. split.
    + intros Hl. split; [|done]. rewrite Heq. apply Qle_refl.
    + intros [_ Hl]. by apply Hl.
  - apply Qeq_bool_neq in E. rewrite Qlt_b_false. split.
    + intros Hle. apply Qopp_le_compat in Hle.
      rewrite !Qopp_involutive in Hle. split; [done|].
      intros Heq. destruct E. by rewrite Heq.
    + intros [Hle _]. by apply Qopp_le_compat.
Qed.

Lemma key_lt_asym (x y : para_info) : key_lt x y = true → key_lt y x = false.
Proof.
  intros Hxy. destruct (key_lt y x) eqn:Hyx; [|done]. exfalso.
  apply not_false_iff_true in Hxy, Hyx.
  rewrite key_lt_false in Hxy, Hyx.
  destruct x as [[sx lx] ix], y as [[sy ly] iy]. simpl in *.
  destruct (Qlt_le_dec sx sy) as [Hlt|Hle].
  - apply Hxy. split; [by apply Qlt_le_weak|].
    intros Heq. rewrite Heq in Hlt. by apply Qlt_irrefl in Hlt.
  - destruct (Qlt_le_dec sy sx) as [Hlt'|Hle'].
    + apply Hyx. split; [by apply Qlt_le_weak|].
      intros Heq. rewrite Heq in Hlt'. by apply Qlt_irrefl in Hlt'.
    + assert (sx == sy)%Q as Heq by (by apply Qle_antisym).
      destruct (Z.le_gt_cases lx ly).
      * apply Hyx. split; [done|]. intros _. done.
      * apply Hxy. split; [done|]. intros _. lia.
Qed.

Lemma key_le_trans (x y z : para_info) :
  key_lt y x = false → key_lt z y = false → key_lt z x = false.
Proof.
  rewrite !key_lt_false. intros [Hyx Hl1] [Hzy Hl2].
  split; [by eapply Qle_trans|]. intros Heq.
  assert (x.1.1 == y.1.1)%Q as Hxy.
  { apply Qle_antisym; [|done]. by rewrite Heq. }
  assert (y.1.1 == z.1.1)%Q as Hyz by (by rewrite <-Hxy).
  specialize (Hl1 Hxy). specialize (Hl2 Hyz). lia.
Qed.

Lemma insert_sorted_sorted {A} (lt : A → A → bool) (x : A) (l : list A) :
  (∀ a b, lt a b = true → lt b a = false) →
  Sorted (λ a b, lt b a = false) l →
  Sorted (λ a b, lt b a = false) (insert_sorted lt x l).
Proof.
  intros Hasym. induction 1 as [|y l Hs IH Hhd]; simpl.
  - repeat constructor.
  - destruct (lt y x) eqn:E.
    + constructor; [done|]. destruct Hhd as [|z l Hz]; simpl.
      * constructor. by apply Hasym.
      * destruct (lt z x); constructor; [done|by apply Hasym].
    + repeat constructor; done.
Qed.

Lemma py_sort_sorted {A} (lt : A → A → bool) (l : list A) :
  (∀ a b, lt a b = true → lt b a = false) →
  Sorted (λ a b, lt b a = false) (py_sort lt l).
Proof.
  intros Hasym. induction l as [|x l IH]; simpl; [constructor|].
  by apply insert_sorted_sorted.
Qed.

Lemma elem_of_enumerate {A} (l : list A) (n : nat) (x : A) :
  (n, x) ∈ enumerate l → l !! n = Some x.
Proof.
  intros (i & Hi)%list_elem_of_lookup_1. unfold enumerate in Hi.
  apply lookup_zip_with_Some in Hi as (a & b & [= -> ->] & Ha & Hb).
  by apply lookup_seq in Ha as [-> _].
Qed.

(** The ranking of a document: sorted by the key, and each entry carries
    the score and the length of the paragraph at its index. *)
Lemma ranking_sorted (doc : document) (question : list str)
    (infos : list para_info) :
  infos = py_sort key_lt
            ((λ e : nat * (list str * Q),
                let '(p_idx, (para_tokens, para_score)) := e in
                (para_score, py_len para_tokens, Z.of_nat p_idx))
               <$> enumerate (zip (segmented_paragraphs doc)
                                  (calc_paragraph_match_scores match_score doc
                                                               question))) →
  StronglySorted (λ a b, key_lt b a = false) infos ∧
  ∀ info, info ∈ infos →
    ∃ para, py_index (segmented_paragraphs doc) info.2 = Some para ∧
            0 ≤ info.2 ∧
            info.1.1 = match_score para question ∧ info.1.2 = py_len para.
Proof.
  intros ->. split.
  - apply Sorted_StronglySorted.
    + intros x y z Hxy Hyz. by eapply key_le_trans.
    + apply py_sort_sorted, key_lt_asym.
  - intros info. rewrite py_sort_perm.
    intros ([n [p s]] & -> & Hin%elem_of_enumerate)%list_elem_of_fmap.
    apply lookup_zip_with_Some in Hin as (a & b & [= <- <-] & Ha & Hb).
    unfold calc_paragraph_match_scores in Hb.
    rewrite list_lookup_fmap, Ha in Hb. injection Hb as <-.
    exists p. simpl. rewrite py_index_nonneg, Nat2Z.id by lia.
    repeat split; [done|lia].
Qed.

End ranker_order.

(** X18. When the title and all the paragraphs, each with its splitter,
    fit into the budget, nothing is dropped or cut: the passage is the title
    and every paragraph in the order of the document, whatever the ranking,
    and [paragraph_match_score] holds the score of the title and of each
    paragraph. *)
Theorem whole_document_kept (match_score : list str → list str → Q)
    (question : list str) (max_doc_len : Z) (doc : Ranker.document)
    (out : Ranker.passage) :
  py_len (Ranker.segmented_title doc) + 1
  + total (Ranker.segmented_paragraphs doc) ≤ max_doc_len →
  Ranker.extract_paragraph_doc match_score question max_doc_len doc = Ok out →
  Ranker.segmented_passage out
  = join_with Ranker.splitter
      (Ranker.segmented_title doc :: Ranker.segmented_paragraphs doc) ∧
  Ranker.paragraph_match_score out
  = (λ para, match_score para question)
      <$> (Ranker.segmented_title doc :: Ranker.segmented_paragraphs doc).
Proof.
  intros Hfit Hout.
  destruct (extract_paragraph_doc_fields _ _ _ _ _ Hout)
    as (st & c_seg & c_pos & c_kw & c_wiq & t_seg & t_pos & t_kw & t_wiq
        & Hst & Hseg & _ & _ & _ & Htail & -> & _ & -> & _).
  assert (Ranker.selected_para_ids st
          = Z.of_nat <$> seq 0 (length (Ranker.segmented_paragraphs doc))
          ∧ Ranker.last_para_id st = -1) as [Hids Hlast].
  { unfold Ranker.select_paragraphs in Hst.
    pose proof (ranked_ids match_score doc question) as Hperm.
    rewrite select_all_fit in Hst.
    - injection Hst as <-. simpl. split; [|done].
      apply (Sorted_unique Z.le).
      + apply py_sort_Z_sorted.
      + apply seq_sorted.
      + by rewrite py_sort_perm.
    - rewrite Hperm. apply Forall_forall.
      intros i (n & -> & Hn%elem_of_seq)%list_elem_of_fmap. unfold py_len. lia.
    - rewrite (weight_perm _ _ _ Hperm), weight_all. simpl. lia. }
  rewrite Hids, pick_all in Hseg. injection Hseg as <-.
  rewrite Hlast in Htail. change (-1 <? -1) with false in Htail.
  destruct Htail as (-> & _). by rewrite app_nil_r.
Qed.

Lemma whole_document_kept_witness :
  ∃ out,
    Ranker.extract_paragraph_doc Demo.overlap_score [lit "q"] 9 Demo.ranked_doc
    = Ok out ∧
    Ranker.segmented_passage out
    = join_with Ranker.splitter
        (Ranker.segmented_title Demo.ranked_doc
         :: Ranker.segmented_paragraphs Demo.ranked_doc) ∧
    Ranker.paragraph_match_score out
    = (λ para, Demo.overlap_score para [lit "q"])
        <$> (Ranker.segmented_title Demo.ranked_doc
             :: Ranker.segmented_paragraphs Demo.ranked_doc).
Proof.
  eexists. split; [vm_compute; reflexivity|].
  apply (whole_document_kept Demo.overlap_score [lit "q"] 9 Demo.ranked_doc).
  - vm_compute. discriminate.
  - vm_compute. reflexivity.
Defined.

(** X19. When the selection stopped on a paragraph and the budget holds at
    least the title and its splitter, the cut index is zero or negative.
    If it is negative the passage has exactly [max_doc_len] tokens.  If it
    is zero, which is when the paragraph would fit but for its splitter,
    nothing of the paragraph is kept: the passage has [max_doc_len] tokens
    less the length of that paragraph. *)
Theorem cut_fills_budget (match_score : list str → list str → Q)
    (question : list str) (max_doc_len : Z) (doc : Ranker.document)
    (st : Ranker.selection) (out : Ranker.passage) :
  Ranker.select_paragraphs match_score doc question max_doc_len = Ok st →
  Ranker.extract_paragraph_doc match_score question max_doc_len doc = Ok out →
  -1 < Ranker.last_para_id st →
  py_len (Ranker.segmented_title doc) + 1 ≤ max_doc_len →
  Ranker.last_para_cut_idx st ≤ 0 ∧
  (Ranker.last_para_cut_idx st < 0 →
   py_len (Ranker.segmented_passage out) = max_doc_len) ∧
  (Ranker.last_para_cut_idx st = 0 →
   ∃ para,
     py_index (Ranker.segmented_paragraphs doc) (Ranker.last_para_id st)
     = Some para ∧
     py_len (Ranker.segmented_passage out) = max_doc_len - py_len para).
Proof.
  intros Hst Hout Hlast Hbudget.
  destruct (extract_paragraph_doc_fields _ _ _ _ _ Hout)
    as (st' & c_seg & c_pos & c_kw & c_wiq & t_seg & t_pos & t_kw & t_wiq
        & Hst' & Hseg & _ & _ & _ & Htail & _ & _ & -> & _).
  rewrite Hst in Hst'. injection Hst' as <-.
  destruct (select_paragraphs_ok _ _ _ _ _ Hst) as (_ & _ & Hfit & Hcase).
  destruct Hcase as [(? & _)|(para & _ & _ & Hp & Hgt & Hcut)]; [lia|].
  destruct (Z.ltb_spec (-1) (Ranker.last_para_id st)); [|lia].
  destruct Htail as (l_seg & _ & _ & _ & Hl & _ & _ & _ & -> & _).
  unfold Ranker.cut_last in Hl. rewrite Hp in Hl. injection Hl as <-.
  rewrite <-passage_join, passage_length by done.
  assert (Htotal : ∀ (p : list str) l, total (p :: l) = py_len p + 1 + total l)
    by done.
  rewrite Htotal, total_app, Htotal. change (total (@nil (list str))) with 0.
  rewrite (pick_total _ _ _ Hseg), cut_length by lia.
  assert (Hkept : py_len (Ranker.segmented_title doc) + 1
                  + weight (Ranker.segmented_paragraphs doc)
                           (Ranker.selected_para_ids st) ≤ max_doc_len).
  { destruct Hfit as [->|?]; [simpl; lia|done]. }
  split; [lia|]. split.
  - intros Hneg. destruct (Z.eqb_spec (Ranker.last_para_cut_idx st) 0); lia.
  - intros Hzero. exists para. split; [done|]. rewrite Hzero. simpl. lia.
Qed.

Lemma cut_fills_budget_witness :
  ∃ st out,
    Ranker.select_paragraphs Demo.overlap_score Demo.ranked_doc [lit "q"] 6
    = Ok st ∧
    Ranker.extract_paragraph_doc Demo.overlap_score [lit "q"] 6 Demo.ranked_doc
    = Ok out ∧
    Ranker.last_para_cut_idx st ≤ 0 ∧
    (Ranker.last_para_cut_idx st < 0 →
     py_len (Ranker.segmented_passage out) = 6) ∧
    (Ranker.last_para_cut_idx st = 0 →
     ∃ para,
       py_index (Ranker.segmented_paragraphs Demo.ranked_doc)
                (Ranker.last_para_id st) = Some para ∧
       py_len (Ranker.segmented_passage out) = 6 - py_len para).
Proof.
  eexists _, _. split; [vm_compute; reflexivity|].
  split; [vm_compute; reflexivity|].
  apply (cut_fills_budget Demo.overlap_score [lit "q"] 6 Demo.ranked_doc).
  - vm_compute. reflexivity.
  - vm_compute. reflexivity.
  - vm_compute. reflexivity.
  - vm_compute. discriminate.
Defined.

(** X20. The selection follows the ranking: a paragraph that was selected
    scores at least as high as any paragraph of the document that was not,
    and when the two scores are equal it is not the longer one. *)
Theorem selected_outrank_the_rest (match_score : list str → list str → Q)
    (question : list str) (max_doc_len : Z) (doc : Ranker.document)
    (st : Ranker.selection) (i j : Z) (para_i para_j : list str) :
  Ranker.select_paragraphs match_score doc question max_doc_len = Ok st →
  i ∈ Ranker.selected_para_ids st →
  j ∉ Ranker.selected_para_ids st →
  0 ≤ j →
  py_index (Ranker.segmented_paragraphs doc) i = Some para_i →
  py_index (Ranker.segmented_paragraphs doc) j = Some para_j →
  (match_score para_j question <= match_score para_i question)%Q ∧
  ((match_score para_i question == match_score para_j question)%Q →
   py_len para_i ≤ py_len para_j).
Proof.
  intros Hst Hi Hj Hj0 Hpi Hpj.
  unfold Ranker.select_paragraphs in Hst.
  apply bind_Ok in Hst as (st1 & Hsel & [= <-]). simpl in Hi, Hj.
  rewrite py_sort_perm in Hi, Hj.
  pose proof (ranked_ids match_score doc question) as Hperm.
  destruct (ranking_sorted match_score doc question _ eq_refl) as [Hsorted Hinfo].
  set (infos := py_sort _ _) in Hsel, Hperm, Hsorted, Hinfo.
  apply select_selected in Hsel as (_ & k & Hk & _).
  2:{ split; [done|]. split; [simpl; lia|by left]. }
  simpl in Hk. rewrite Hk in Hi, Hj.
  apply list_elem_of_fmap in Hi as (a & -> & Ha).
  assert (j ∈ infos.*2) as Hjin.
  { rewrite Hperm. apply list_elem_of_fmap. exists (Z.to_nat j).
    split; [lia|]. apply elem_of_seq. apply py_index_Some in Hpj.
    unfold py_len in Hpj. lia. }
  rewrite <-(take_drop k infos), fmap_app in Hjin.
  apply elem_of_app in Hjin as [?|Hjin]; [done|].
  apply list_elem_of_fmap in Hjin as (b & -> & Hb).
  rewrite <-(take_drop k infos) in Hsorted.
  pose proof (StronglySorted_app_1_elem_of _ _ _ _ _ Hsorted Ha Hb) as Hab.
  simpl in Hab. apply key_lt_false in Hab as [Hle Hlen].
  destruct (Hinfo a) as (pa & Hpa & _ & Hsa & Hla);
    [rewrite <-(take_drop k infos); apply elem_of_app; by left|].
  destruct (Hinfo b) as (pb & Hpb & _ & Hsb & Hlb);
    [rewrite <-(take_drop k infos); apply elem_of_app; by right|].
  rewrite Hpi in Hpa. injection Hpa as <-.
  rewrite Hpj in Hpb. injection Hpb as <-.
  rewrite Hsa, Hsb in Hle, Hlen. rewrite Hla, Hlb in Hlen. done.
Qed.

Lemma selected_outrank_the_rest_witness :
  (Demo.overlap_score [lit "a"; lit "b"; lit "c"; lit "d"] [lit "q"]
   <= Demo.overlap_score [lit "q"] [lit "q"])%Q ∧
  ((Demo.overlap_score [lit "q"] [lit "q"]
    == Demo.overlap_score [lit "a"; lit "b"; lit "c"; lit "d"] [lit "q"])%Q →
   py_len [lit "q"] ≤ py_len [lit "a"; lit "b"; lit "c"; lit "d"]).
Proof.
  apply (selected_outrank_the_rest Demo.overlap_score [lit "q"] 6
           Demo.ranked_doc (Ranker.Selection 9 [1] 0 (-2)) 1 0).
  - vm_compute. reflexivity.
  - simpl. apply list_elem_of_singleton. reflexivity.
  - simpl. intros Hin. apply list_elem_of_singleton in Hin. discriminate.
  - lia.
  - reflexivity.
  - reflexivity.
Defined.

(** ** The paragraph ranker: ties and the uncut passage *)

Section ranker_ties.
Import Ranker.
Context (match_score : list str → list str → Q).

(** [list.sort] is stable: elements the key does not order keep the order
    they had, here the order of an index that increases along the list. *)
Lemma insert_sorted_stable {A} (lt : A → A → bool) (idx : A → Z) (x : A)
    (l : list A) :
  (∀ a b, lt a b = true → lt b a = false) →
  Forall (λ y, idx x < idx y) l →
  Sorted (λ a b, lt b a = false ∧ (lt a b = false → idx a < idx b)) l →
  Sorted (λ a b, lt b a = false ∧ (lt a b = false → idx a < idx b))
         (insert_sorted lt x l).
Proof.
  intros Hasym Hidx. induction 1 as [|y l Hs IH Hhd]; simpl.
  - repeat constructor.
  - apply Forall_cons in Hidx as [Hxy Hidx]. destruct (lt y x) eqn:E.
    + constructor; [by apply IH|]. destruct Hhd as [|z l Hz]; simpl.
      * constructor. split; [by apply Hasym|]. by rewrite E.
      * destruct (lt z x); constructor; [done|].
        split; [by apply Hasym|]. by rewrite E.
    + repeat constructor; done.
Qed.

Lemma py_sort_stable {A} (lt : A → A → bool) (idx : A → Z) (l : list A) :
  (∀ a b, lt a b = true → lt b a = false) →
  StronglySorted (λ a b, idx a < idx b) l →
  Sorted (λ a b, lt b a = false ∧ (lt a b = false → idx a < idx b))
         (py_sort lt l).
Proof.
  intros Hasym. induction 1 as [|x l _ IH Hx]; simpl; [constructor|].
  apply insert_sorted_stable; [done| |exact IH].
  apply Forall_forall. intros y Hy. rewrite py_sort_perm in Hy.
  rewrite Forall_forall in Hx. by apply Hx.
Qed.

Lemma StronglySorted_fmap_inv {A B} (f : A → B) (R : relation B) (l : list A) :
  StronglySorted R (f <$> l) → StronglySorted (λ a b, R (f a) (f b)) l.
Proof.
  induction l as [|x l IH]; [constructor|]. rewrite fmap_cons. intros Hs.
  apply StronglySorted_inv in Hs as [Hs Hall].
  constructor; [by apply IH|]. rewrite Forall_forall in Hall.
  apply Forall_forall. intros y Hy. apply Hall. apply list_elem_of_fmap. by exists y.
Qed.

Lemma ranking_stable (doc : document) (question : list str) :
  StronglySorted
    (λ a b : para_info, key_lt b a = false ∧ (key_lt a b = false → a.2 < b.2))
    (py_sort key_lt
       ((λ e : nat * (list str * Q),
           let '(p_idx, (para_tokens, para_score)) := e in
           (para_score, py_len para_tokens, Z.of_nat p_idx))
          <$> enumerate (zip (segmented_paragraphs doc)
                             (calc_paragraph_match_scores match_score doc
                                                          question)))).
Proof.
  apply Sorted_StronglySorted.
  - intros x y z [Hxy Hxy'] [Hyz Hyz']. split; [by eapply key_le_trans|].
    intros Hzx.
    assert (key_lt x y = false) by (by eapply key_le_trans).
    assert (key_lt y z = false) by (by eapply key_le_trans).
    specialize (Hxy' ltac:(done)). specialize (Hyz' ltac:(done)). lia.
  - apply (py_sort_stable key_lt (λ a : para_info, a.2)); [apply key_lt_asym|].
    apply (StronglySorted_fmap_inv snd Z.lt).
    pose proof (para_infos_ids (λ e : list str * Q, e.2)
                  (λ e : list str * Q, py_len e.1)
                  (zip (segmented_paragraphs doc)
                       (calc_paragraph_match_scores match_score doc question)))
      as Hpi.
    match goal with
    | |- StronglySorted _ (snd <$> ?l) =>
      replace (snd <$> l)
        with (Z.of_nat <$> seq 0 (length (zip (segmented_paragraphs doc)
               (calc_paragraph_match_scores match_score doc question))))
    end.
    + apply Sorted_le_NoDup_lt; [apply seq_sorted|].
      apply NoDup_fmap; [apply _|apply NoDup_seq].
    + rewrite <-Hpi. f_equal. apply list_fmap_ext. by intros ? [? [? ?]].
Qed.

(** The ids of a run of the loop that did not stop on a paragraph. *)
Lemma everything_selected (doc : document) (question : list str)
    (max_doc_len : Z) (st : selection) :
  select_paragraphs match_score doc question max_doc_len = Ok st →
  last_para_id st = -1 →
  selected_para_ids st
  = Z.of_nat <$> seq 0 (length (segmented_paragraphs doc)).
Proof.
  unfold select_paragraphs. intros (st1 & Hsel & [= <-])%bind_Ok. simpl.
  pose proof (ranked_ids match_score doc question) as Hperm.
  destruct (ranking_sorted match_score doc question _ eq_refl) as [_ Hinfo].
  set (infos := py_sort _ _) in Hsel, Hperm, Hinfo.
  apply select_selected in Hsel as (_ & k & Hk & Hcase).
  2:{ split; [done|]. split; [simpl; lia|by left]. }
  intros Hlast. simpl in Hk.
  destruct Hcase as [(_ & Hall & _)|(info & para & Hi & Hl & _)].
  - apply (Sorted_unique Z.le).
    + apply py_sort_Z_sorted.
    + apply seq_sorted.
    + by rewrite py_sort_perm, Hk, Hall.
  - exfalso. destruct (Hinfo info) as (_ & _ & Hpos & _).
    { by eapply list_elem_of_lookup_2. }
    lia.
Qed.

End ranker_ties.

(** X21. The ranking is stable: of two paragraphs with equal score and equal
    length the one that comes first in the document is ranked first, so the
    later one is selected only if the earlier one is. *)
Theorem ties_keep_document_order (match_score : list str → list str → Q)
    (question : list str) (max_doc_len : Z) (doc : Ranker.document)
    (st : Ranker.selection) (i j : Z) (para_i para_j : list str) :
  Ranker.select_paragraphs match_score doc question max_doc_len = Ok st →
  0 ≤ i < j →
  py_index (Ranker.segmented_paragraphs doc) i = Some para_i →
  py_index (Ranker.segmented_paragraphs doc) j = Some para_j →
  (match_score para_i question == match_score para_j question)%Q →
  py_len para_i = py_len para_j →
  j ∈ Ranker.selected_para_ids st →
  i ∈ Ranker.selected_para_ids st.
Proof.
  intros Hst Hij Hpi Hpj Hscore Hlen Hj.
  unfold Ranker.select_paragraphs in Hst.
  apply bind_Ok in Hst as (st1 & Hsel & [= <-]). simpl in Hj |- *.
  rewrite py_sort_perm in Hj |- *.
  pose proof (ranked_ids match_score doc question) as Hperm.
  pose proof (ranking_stable match_score doc question) as Hsorted.
  destruct (ranking_sorted match_score doc question _ eq_refl) as [_ Hinfo].
  set (infos := py_sort _ _) in Hsel, Hperm, Hsorted, Hinfo.
  apply select_selected in Hsel as (_ & k & Hk & _).
  2:{ split; [done|]. split; [simpl; lia|by left]. }
  simpl in Hk. rewrite Hk in Hj |- *.
  apply list_elem_of_fmap in Hj as (b & -> & Hb).
  assert (i ∈ infos.*2) as Hin.
  { rewrite Hperm. apply list_elem_of_fmap. exists (Z.to_nat i).
    split; [lia|]. apply elem_of_seq. apply py_index_Some in Hpi.
    unfold py_len in Hpi. lia. }
  rewrite <-(take_drop k infos), fmap_app in Hin.
  apply elem_of_app in Hin as [?|Hin]; [done|]. exfalso.
  apply list_elem_of_fmap in Hin as (a & -> & Ha).
  rewrite <-(take_drop k infos) in Hsorted.
  pose proof (StronglySorted_app_1_elem_of _ _ _ _ _ Hsorted Hb Ha) as [_ Hidx].
  destruct (Hinfo a) as (pa & Hpa & _ & Hsa & Hla);
    [rewrite <-(take_drop k infos); apply elem_of_app; by right|].
  destruct (Hinfo b) as (pb & Hpb & _ & Hsb & Hlb);
    [rewrite <-(take_drop k infos); apply elem_of_app; by left|].
  rewrite Hpi in Hpa. injection Hpa as <-.
  rewrite Hpj in Hpb. injection Hpb as <-.
  assert (Ranker.key_lt b a = false) as Hba.
  { apply key_lt_false. rewrite Hsa, Hsb, Hla, Hlb.
    split; [rewrite Hscore; apply Qle_refl|]. intros _. lia. }
  specialize (Hidx Hba). lia.
Qed.

Lemma ties_keep_document_order_witness :
  0 ∈ Ranker.selected_para_ids (Ranker.Selection 6 [0; 1] (-1) (-1)).
Proof.
  apply (ties_keep_document_order Demo.overlap_score [lit "q"] 9
           (Demo.document_of [lit "t"] [[lit "a"]; [lit "b"]])
           (Ranker.Selection 6 [0; 1] (-1) (-1)) 0 1 [lit "a"] [lit "b"]).
  - vm_compute. reflexivity.
  - lia.
  - reflexivity.
  - reflexivity.
  - vm_compute. reflexivity.
  - reflexivity.
  - apply elem_of_cons. right. apply list_elem_of_singleton. reflexivity.
Defined.

(** X22. Paragraphs are dropped only when one paragraph overflowed the
    budget: when the selection loop ran to its end ([last_para_id] is still
    [-1]), the passage is the title and every paragraph of the document in
    document order, and a document with a paragraph fits into the budget
    with all its splitters. *)
Theorem uncut_passage_is_whole_document
    (match_score : list str → list str → Q) (question : list str)
    (max_doc_len : Z) (doc : Ranker.document) (st : Ranker.selection)
    (out : Ranker.passage) :
  Ranker.select_paragraphs match_score doc question max_doc_len = Ok st →
  Ranker.extract_paragraph_doc match_score question max_doc_len doc = Ok out →
  Ranker.last_para_id st = -1 →
  Ranker.segmented_passage out
  = join_with Ranker.splitter
      (Ranker.segmented_title doc :: Ranker.segmented_paragraphs doc) ∧
  (Ranker.segmented_paragraphs doc ≠ [] →
   py_len (Ranker.segmented_title doc) + 1
   + total (Ranker.segmented_paragraphs doc) ≤ max_doc_len).
Proof.
  intros Hst Hout Hlast.
  destruct (extract_paragraph_doc_fields _ _ _ _ _ Hout)
    as (st' & c_seg & c_pos & c_kw & c_wiq & t_seg & t_pos & t_kw & t_wiq
        & Hst' & Hseg & _ & _ & _ & Htail & _ & _ & -> & _).
  rewrite Hst in Hst'. injection Hst' as <-.
  pose proof (everything_selected _ _ _ _ _ Hst Hlast) as Hids.
  destruct (select_paragraphs_ok _ _ _ _ _ Hst) as (_ & _ & Hfit & _).
  rewrite Hids in Hseg, Hfit. rewrite weight_all in Hfit.
  rewrite pick_all in Hseg. injection Hseg as <-.
  rewrite Hlast in Htail. change (-1 <? -1) with false in Htail.
  destruct Htail as (-> & _). rewrite app_nil_r. split; [done|].
  intros Hne. destruct Hfit as [Hnil|?]; [|done].
  by destruct (Ranker.segmented_paragraphs doc).
Qed.

Lemma uncut_passage_is_whole_document_witness :
  ∃ out,
    Ranker.extract_paragraph_doc Demo.overlap_score [lit "q"] 9 Demo.ranked_doc
    = Ok out ∧
    Ranker.segmented_passage out
    = join_with Ranker.splitter
        (Ranker.segmented_title Demo.ranked_doc
         :: Ranker.segmented_paragraphs Demo.ranked_doc) ∧
    (Ranker.segmented_paragraphs Demo.ranked_doc ≠ [] →
     py_len (Ranker.segmented_title Demo.ranked_doc) + 1
     + total (Ranker.segmented_paragraphs Demo.ranked_doc) ≤ 9).
Proof.
  eexists. split; [vm_compute; reflexivity|].
  apply (uncut_passage_is_whole_document Demo.overlap_score [lit "q"] 9
           Demo.ranked_doc (Ranker.Selection 9 [0; 1] (-1) (-1))).
  - vm_compute. reflexivity.
  - vm_compute. reflexivity.
  - reflexivity.
Defined.

(** ** The resolver: fragments that can be located *)

Section locatable.
Context `{Runtime}.

(** The empty span is returned only for a fragment that is empty, a lone
    full stop, or nothing but spaces. *)
Lemma empty_span_degenerate (sub doc : str) (s e : Z) (c : Q) :
  find_best_match_index sub doc = (s, e, c) → (0 < c)%Q → e = -1 →
  sub = [] ∨ sub = [full_stop] ∨ str_replace [space] [] sub = [].
Proof.
  assert (Hhit : ∀ (t : str) (i : nat),
            exact_hit t i = (s, e, c) → e = -1 → t = []).
  { intros t i [= _ He _] ->. destruct t; [done|].
    unfold py_len in He. simpl in He. lia. }
  unfold find_best_match_index.
  destruct (str_find sub doc) as [i|] eqn:E1.
  { intros Hr _ He. left. by eapply Hhit. }
  destruct (endswith_char sub full_stop) eqn:Eend.
  - destruct (str_find (py_slice_to sub (-1)) doc) as [i|] eqn:E2.
    { intros Hr _ He. right; left.
      rewrite (endswith_char_snoc _ _ Eend). by rewrite (Hhit _ _ Hr He). }
    destruct (str_find (str_replace _ _ _) doc) as [i|] eqn:E3.
    { intros Hr _ He. right; right. by eapply Hhit. }
    destruct (fuzzy_search_inv sub doc) as [_ Hinv].
    destruct (Qeq_bool _ 0) eqn:E0.
    { intros [= _ _ <-] Hc. by apply Qlt_irrefl in Hc. }
    intros [= <- <- <-] _ He.
    destruct Hinv as [(Hz & _ & _)|(_ & ? & ? & _)]; [|lia].
    by rewrite Hz in E0.
  - destruct (str_find (str_replace _ _ _) doc) as [i|] eqn:E3.
    { intros Hr _ He. right; right. by eapply Hhit. }
    destruct (fuzzy_search_inv sub doc) as [_ Hinv].
    destruct (Qeq_bool _ 0) eqn:E0.
    { intros [= _ _ <-] Hc. by apply Qlt_irrefl in Hc. }
    intros [= <- <- <-] _ He.
    destruct Hinv as [(Hz & _ & _)|(_ & ? & ? & _)]; [|lia].
    by rewrite Hz in E0.
Qed.

Lemma confidence_exact (sub : str) (p : sup_para) :
  (∃ l r, p.1.1 = l ++ sub ++ r) → confidence sub p = 1%Q.
Proof.
  intros (l & r & Hc). destruct (str_find_infix _ _ _ _ Hc) as [i Hi].
  unfold confidence, find_best_match_index. by rewrite Hi.
Qed.

End locatable.

(** X23. An answer fragment that occurs in one of the supporting paragraphs
    of its document, and that is not empty, not a lone full stop and not
    made of spaces only, always gets a label: the search over the paragraphs
    cannot end without a best paragraph, nor on an empty span. *)
Theorem locatable_fragment_is_labelled `{Runtime} (id : Z) (fragment : str)
    (paras : list (str * Z * Z)) (p : str * Z * Z) :
  p ∈ paras →
  (∃ l r, p.1.1 = l ++ fragment ++ r) →
  fragment ≠ [] → fragment ≠ [full_stop] →
  str_replace [space] [] fragment ≠ [] →
  ∃ s e, fragment_label id fragment paras = Ok (Some (id - 1, s, e)) ∧ s ≤ e.
Proof.
  intros Hp Hocc Hne Hfs Hsq.
  pose proof (confidence_exact _ _ Hocc) as Hconf.
  destruct (best_match_inv fragment paras)
    as [(_ & Hall)|(i & q & _ & Hq & Hf & Hpos & Hmax & Hfirst)].
  { specialize (Hall p Hp). rewrite Hconf in Hall. by apply Qle_not_lt in Hall. }
  rewrite (fragment_label_first_best id _ _ _ _ _ _ _ Hq Hf Hpos Hmax Hfirst).
  pose proof (find_best_match_index_located fragment q.1.1) as Hloc.
  rewrite Hf in Hloc.
  destruct (Z.eqb_spec (best_end_in_sup_para (best_match fragment paras)) (-1))
    as [He|He].
  { destruct (empty_span_degenerate _ _ _ _ _ Hf Hpos He) as [?|[?|?]]; done. }
  eexists _, _. split; [done|].
  destruct Hloc as [(_ & ? & _)|[(_ & ? & _)|(? & ? & _)]]; lia.
Qed.

Lemma locatable_fragment_is_labelled_witness :
  ∃ s e,
    fragment_label 1 Demo.beijing [(Demo.capital_sentence, 0, 8)]
    = Ok (Some (1 - 1, s, e)) ∧ s ≤ e.
Proof.
  apply (locatable_fragment_is_labelled 1 Demo.beijing
           [(Demo.capital_sentence, 0, 8)] (Demo.capital_sentence, 0, 8)).
  - apply list_elem_of_singleton. reflexivity.
  - exists [], [26159; 20013; 22269; 30340; 39318; 37117; 12290]%N. reflexivity.
  - discriminate.
  - discriminate.
  - vm_compute. discriminate.
Defined.

(** * Neighbouring stages *)

(** ** Cleaning: the paragraphs of a document *)

Section cleaning_facts.
Import Cleaning.

Lemma keep_new_loop (acc paras : list str) :
  NoDup acc → Forall (λ p, p ≠ []) acc →
  ∃ added,
    foldl keep_new acc paras = acc ++ added ∧
    NoDup (acc ++ added) ∧ Forall (λ p, p ≠ []) (acc ++ added) ∧
    added `sublist_of` paras ∧
    ∀ p, p ∈ paras → p ≠ [] → p ∈ acc ++ added.
Proof.
  revert acc. induction paras as [|para paras IH]; intros acc Hnd Hne.
  { exists []. rewrite app_nil_r. repeat split; try done.
    by intros p ?%elem_of_nil. }
  simpl. unfold keep_new at 2.
  destruct (is_empty para) eqn:Eempty; simpl.
  - destruct para; [|done]. destruct (IH acc Hnd Hne) as (added & -> & ? & ? & ? & Hin).
    exists added. repeat split; try done; [by apply sublist_cons|].
    intros p [->|?]%elem_of_cons ?; [done|by apply Hin].
  - case_bool_decide as Hmem; simpl.
    + destruct (IH acc Hnd Hne) as (added & -> & ? & ? & ? & Hin).
      exists added. repeat split; try done; [by apply sublist_cons|].
      intros p [->|?]%elem_of_cons ?; [|by apply Hin].
      apply elem_of_app. by left.
    + destruct (IH (acc ++ [para])) as (added & -> & Hnd' & Hne' & Hsub & Hin).
      * apply NoDup_app. split; [done|]. split; [|apply NoDup_singleton].
        intros x Hx ->%list_elem_of_singleton. done.
      * apply Forall_app. split; [done|]. constructor; [|constructor].
        by destruct para.
      * exists (para :: added). rewrite <-(assoc_L (++)) in Hnd', Hne', Hin |- *.
        repeat split; try done; [by apply sublist_skip|].
        intros p [->|?]%elem_of_cons ?; [|by apply Hin].
        apply elem_of_app. right. by left.
Qed.

End cleaning_facts.

(** X24. After [clean_sample] the paragraphs of a document are pairwise
    distinct and none is empty; they are the cleaned paragraphs that are not
    empty, each once, in the order of their first occurrence: what stands
    before a paragraph in the result occurs before its first occurrence in
    the input. *)
Theorem cleaned_paragraphs_distinct (clean_text : str → str)
    (paragraphs : list str) :
  NoDup (Cleaning.clean_paragraphs clean_text paragraphs) ∧
  (∀ para, para ∈ Cleaning.clean_paragraphs clean_text paragraphs ↔
           para ≠ [] ∧ para ∈ clean_text <$> paragraphs) ∧
  ∀ before para after,
    clean_text <$> paragraphs = before ++ para :: after →
    para ≠ [] → para ∉ before →
    ∃ kept rest,
      Cleaning.clean_paragraphs clean_text paragraphs = kept ++ para :: rest ∧
      kept `sublist_of` before.
Proof.
  unfold Cleaning.clean_paragraphs.
  destruct (keep_new_loop [] (clean_text <$> paragraphs))
    as (added & Hrun & Hnd & Hne & Hsub & Hin); [constructor..|].
  rewrite Hrun. simpl in *. split; [done|]. split.
  - intros para. split.
    + intros Hp. rewrite Forall_forall in Hne. split; [by apply Hne|].
      by eapply elem_of_sublist.
    + intros [? ?]. by apply Hin.
  - intros before para after Hsplit Hpara Hfirst.
    rewrite <-Hrun, Hsplit, foldl_app.
    destruct (keep_new_loop [] before) as (kept & -> & Hnd1 & Hne1 & Hsub1 & _);
      [constructor..|].
    simpl in *. unfold Cleaning.keep_new at 2.
    assert (is_empty para = false) as -> by (by destruct para).
    rewrite bool_decide_eq_false_2; simpl.
    2:{ intros Hk. apply Hfirst. by eapply elem_of_sublist. }
    destruct (keep_new_loop (kept ++ [para]) after) as (rest & Hrest & _).
    + apply NoDup_app. split; [done|]. split; [|apply NoDup_singleton].
      intros x Hx ->%list_elem_of_singleton. apply Hfirst.
      by eapply elem_of_sublist.
    + apply Forall_app. split; [done|]. by repeat constructor.
    + exists kept, rest. split; [|done].
      etransitivity; [exact Hrest|]. by rewrite <-(assoc_L (++)).
Qed.

(** ** Match features: a column and the characters of the content *)

Section column_facts.
Import MatchFeatures.
Context {V : Type} (distance : str → str → V).

Lemma blocks_cons (que_str sent : str) (sents : list str) :
  blocks distance que_str (sent :: sents)
  = replicate (S (length sent)) (distance sent que_str) ++ blocks distance que_str sents.
Proof. done. Qed.

Lemma blocks_app (que_str : str) (l1 l2 : list str) :
  blocks distance que_str (l1 ++ l2) = blocks distance que_str l1 ++ blocks distance que_str l2.
Proof.
  induction l1 as [|sent l1 IH]; [done|].
  by rewrite <-app_comm_cons, !blocks_cons, IH, (assoc_L (++)).
Qed.

Lemma blocks_singleton (que_str sent : str) :
  blocks distance que_str [sent] = replicate (S (length sent)) (distance sent que_str).
Proof. by rewrite blocks_cons, app_nil_r. Qed.

Lemma re_split_go_total (sent s : str) :
  total (re_split_go sent s) = py_len sent + py_len s + 1.
Proof.
  revert sent. induction s as [|c s IH]; intros sent; simpl.
  { unfold py_len. simpl. lia. }
  destruct (is_separator c); simpl; rewrite IH; unfold py_len;
    rewrite ?length_app; simpl; lia.
Qed.

Lemma blocks_length (que_str : str) (sents : list str) :
  py_len (blocks distance que_str sents) = total sents.
Proof.
  unfold py_len. induction sents as [|sent sents IH]; [done|].
  rewrite blocks_cons, length_app, length_replicate.
  rewrite Nat2Z.inj_add, Nat2Z.inj_succ, IH.
  change (total (sent :: sents)) with (py_len sent + 1 + total sents).
  unfold py_len. lia.
Qed.

(** Character [j] of [sent ++ s] lies in the sentence counted by the
    separators before it. *)
Lemma blocks_lookup (que_str sent s : str) (j : nat) :
  (j ≤ length sent + length s)%nat →
  blocks distance que_str (re_split_go sent s) !! j
  = (λ x, distance x que_str)
      <$> re_split_go sent s
          !! length (filter (λ c, is_separator c = true)
                            (take (j - length sent) s)).
Proof.
  revert sent j. induction s as [|c s IH]; intros sent j Hj.
  { cbn [re_split_go length] in *. rewrite take_nil, blocks_singleton.
    change (length (filter _ (@nil char))) with 0%nat.
    change ([sent] !! 0%nat) with (Some sent). cbn [fmap option_fmap option_map].
    apply lookup_replicate_2. lia. }
  cbn [re_split_go]. cbn [length] in Hj. destruct (is_separator c) eqn:Ec.
  - rewrite blocks_cons.
    destruct (decide (j ≤ length sent)%nat) as [Hle|Hgt].
    + rewrite lookup_app_l by (rewrite length_replicate; lia).
      replace (j - length sent)%nat with 0%nat by lia.
      change (length (filter _ (take 0 (c :: s)))) with 0%nat.
      change ((sent :: re_split_go [] s) !! 0%nat) with (Some sent).
      cbn [fmap option_fmap option_map].
      apply lookup_replicate_2. lia.
    + rewrite lookup_app_r by (rewrite length_replicate; lia).
      rewrite length_replicate.
      replace (j - length sent)%nat with (S (j - S (length sent))) by lia.
      rewrite firstn_cons, filter_cons_True by done. cbn [length].
      rewrite (IH [] (j - S (length sent))%nat) by (cbn [length]; lia).
      cbn [length]. rewrite Nat.sub_0_r. done.
  - rewrite (IH (sent ++ [c]) j) by (rewrite length_app; cbn [length]; lia).
    rewrite length_app. cbn [length].
    destruct (decide (j ≤ length sent)%nat) as [Hle|Hgt].
    + replace (j - (length sent + 1))%nat with 0%nat by lia.
      by replace (j - length sent)%nat with 0%nat by lia.
    + replace (j - length sent)%nat with (S (j - (length sent + 1))) by lia.
      rewrite firstn_cons, filter_cons_False; [done|]. by rewrite Ec.
Qed.

(** The iterations before the last one. *)
Lemma extend_column_init (que_str content : str) (sents init rest : list str)
    (column : list V) :
  sents = init ++ rest → rest ≠ [] →
  for_each (extend_column distance que_str content sents) (enumerate init) column
  = Ok (column ++ blocks distance que_str init).
Proof.
  revert rest column.
  induction init as [|sent init IH] using rev_ind; intros rest column Hs Hrest.
  { simpl. by rewrite app_nil_r. }
  rewrite enumerate_snoc, for_each_app.
  rewrite (IH (sent :: rest)); [|by rewrite Hs, <-(assoc_L (++))|done].
  cbn [bind for_each extend_column]. unfold entries.
  assert ((Z.of_nat (length init) =? py_len sents - 1) = false) as ->.
  { apply Z.eqb_neq. rewrite Hs. unfold py_len. rewrite !length_app. simpl.
    destruct rest; [done|]. simpl. lia. }
  cbn [bind]. rewrite blocks_app, blocks_singleton.
  rewrite (assoc_L (++)). do 3 f_equal. unfold py_len. lia.
Qed.

Lemma re_split_go_snoc (sent s : str) :
  ∃ init last, re_split_go sent s = init ++ [last].
Proof.
  revert sent. induction s as [|c s IH]; intros sent; simpl.
  { by exists [], sent. }
  destruct (is_separator c).
  - destruct (IH []) as (init & last & ->). by exists (sent :: init), last.
  - apply IH.
Qed.

(** The column of a content that is not empty. *)
Lemma feature_column_Ok (que_str content : str) (c : char) :
  py_index content (-1) = Some c →
  ∃ column,
    feature_column distance que_str content = Ok column ∧
    (if is_separator c
     then ∃ v, column ++ [v] = blocks distance que_str (re_split content)
     else column = blocks distance que_str (re_split content)).
Proof.
  intros Hlast. unfold feature_column. cbv zeta.
  destruct (re_split_go_snoc [] content) as (init & last & Hsplit).
  fold (re_split content) in Hsplit.
  generalize dependent (re_split content). intros sents Hsplit.
  replace (enumerate sents) with (enumerate (init ++ [last]))
    by (by rewrite Hsplit).
  rewrite enumerate_snoc, for_each_app.
  rewrite (extend_column_init _ _ _ init [last]) by done.
  cbn [bind for_each extend_column]. unfold entries.
  assert ((Z.of_nat (length init) =? py_len sents - 1) = true) as ->.
  { apply Z.eqb_eq. rewrite Hsplit. unfold py_len. rewrite length_app. simpl. lia. }
  rewrite Hlast. cbn [of_option bind].
  rewrite Hsplit, blocks_app, blocks_singleton.
  destruct (is_separator c); cbn [bind]; eexists; (split; [done|]).
  - exists (distance last que_str). cbn [app].
    replace (Z.to_nat (py_len last + 1 - 1)) with (length last)
      by (unfold py_len; lia).
    rewrite <-(assoc_L (++)). f_equal.
    by rewrite replicate_S_end.
  - cbn [app]. f_equal.
    replace (Z.to_nat (py_len last + 1)) with (S (length last))
      by (unfold py_len; lia).
    done.
Qed.

End column_facts.

(** X25. For a content that is not empty, a feature column of
    [extract_match_features] has one entry for each character of the
    content, and one more when the content does not end with one of the
    separators ，。！; the entry of character [j] is the distance computed for
    the sentence that holds the character, a separator counting with the
    sentence it ends. *)
Theorem feature_column_follows_characters {V : Type} (distance : str → str → V)
    (que_str content : str) :
  content ≠ [] →
  ∃ (column : list V) (last : char),
    MatchFeatures.feature_column distance que_str content = Ok column ∧
    py_index content (-1) = Some last ∧
    py_len column
    = (if MatchFeatures.is_separator last then py_len content
       else py_len content + 1) ∧
    ∀ j : nat, (j < length content)%nat →
      column !! j
      = (λ sent, distance sent que_str)
          <$> MatchFeatures.re_split content !! sentence_index content j.
Proof.
  intros Hne.
  assert (∃ c, py_index content (-1) = Some c) as [c Hc].
  { destruct (py_index content (-1)) as [c|] eqn:E; [by eexists|].
    apply py_index_None in E. destruct content; [done|].
    unfold py_len in E. simpl in E. lia. }
  destruct (feature_column_Ok distance que_str content c Hc) as (column & Hrun & Hcol).
  exists column, c. split; [done|]. split; [done|].
  pose proof (blocks_length distance que_str (MatchFeatures.re_split content)) as Hlen.
  unfold MatchFeatures.re_split in Hlen at 2. rewrite re_split_go_total in Hlen.
  change (py_len (@nil char)) with 0 in Hlen.
  assert (Hlookup : ∀ j : nat, (j < length content)%nat →
            blocks distance que_str (MatchFeatures.re_split content) !! j
            = (λ sent, distance sent que_str)
                <$> MatchFeatures.re_split content !! sentence_index content j).
  { intros j Hj. unfold MatchFeatures.re_split, sentence_index.
    rewrite (blocks_lookup distance que_str [] content j) by (simpl; lia).
    simpl. by rewrite Nat.sub_0_r. }
  destruct (MatchFeatures.is_separator c).
  - destruct Hcol as [v Hcol]. rewrite <-Hcol in Hlen, Hlookup.
    unfold py_len in Hlen |- *. rewrite length_app in Hlen. simpl in Hlen.
    split; [lia|]. intros j Hj. rewrite <-Hlookup by done.
    by rewrite lookup_app_l by lia.
  - subst column. split; [lia|done].
Qed.

Lemma feature_column_follows_characters_witness :
  ∃ (column : list Z) (last : char),
    MatchFeatures.feature_column (λ sent _, py_len sent) [] (lit "ab" ++ [12290%N] ++ lit "c")
    = Ok column ∧
    py_index (lit "ab" ++ [12290%N] ++ lit "c") (-1) = Some last ∧
    py_len column
    = (if MatchFeatures.is_separator last
       then py_len (lit "ab" ++ [12290%N] ++ lit "c")
       else py_len (lit "ab" ++ [12290%N] ++ lit "c") + 1) ∧
    ∀ j : nat, (j < length (lit "ab" ++ [12290%N] ++ lit "c"))%nat →
      column !! j
      = (λ sent, py_len sent)
          <$> MatchFeatures.re_split (lit "ab" ++ [12290%N] ++ lit "c")
              !! sentence_index (lit "ab" ++ [12290%N] ++ lit "c") j.
Proof.
  apply (feature_column_follows_characters (λ sent _, py_len sent) []
           (lit "ab" ++ [12290%N] ++ lit "c")).
  discriminate.
Defined.

(** X26. On an empty content [extract_match_features] raises IndexError:
    the only sentence is the last one, and the test of the last character
    indexes the empty string. *)
Theorem empty_content_raises {V : Type} (distance : str → str → V)
    (que_str : str) :
  MatchFeatures.feature_column distance que_str [] = Raise IndexError.
Proof. reflexivity. Qed.

(** ** Text features: the entity tag of every character *)

Section tag_facts.
Import TextFeatures.

(** The loop ends within the fuel that covers the characters and the
    entities that are left, and appends one tag for each character left. *)
Lemma char_entity_loop_Ok (fuel : nat) (text : str) (entities : list entity)
    (char_i entity_i : Z) (char_entity : list str) :
  0 ≤ char_i ≤ py_len text → 0 ≤ entity_i ≤ py_len entities →
  (Z.to_nat (py_len text - char_i) + Z.to_nat (py_len entities - entity_i)
   ≤ fuel)%nat →
  ∃ added,
    char_entity_loop fuel text entities char_i entity_i char_entity
    = Some (Ok (char_entity ++ added)) ∧
    py_len added = py_len text - char_i ∧
    ∀ (k : nat) (tag : str), added !! k = Some tag →
      tag = [] ∨
      ∃ ent, ent ∈ entities ∧ tag = ent_type ent ∧
             ent_start ent ≤ char_i + Z.of_nat k
             < ent_start ent + py_len (ent_text ent).
Proof.
  revert char_i entity_i char_entity.
  induction fuel as [|fuel IH]; intros char_i entity_i char_entity Hc He Hfuel.
  - assert (char_i = py_len text) as -> by lia.
    exists []. simpl. rewrite Z.ltb_irrefl, app_nil_r.
    split; [done|]. split; [unfold py_len; simpl; lia|]. by intros k tag ?.
  - cbn [char_entity_loop].
    destruct (Z.ltb_spec char_i (py_len text)) as [Hlt|Hge].
    2:{ assert (char_i = py_len text) as -> by lia.
        exists []. rewrite app_nil_r.
        split; [done|]. split; [unfold py_len; simpl; lia|]. by intros k tag ?. }
    assert (Hstep : ∀ entity_i' tag,
              0 ≤ entity_i' ≤ py_len entities → entity_i ≤ entity_i' →
              (tag = [] ∨
               ∃ ent, ent ∈ entities ∧ tag = ent_type ent ∧
                      ent_start ent ≤ char_i
                      < ent_start ent + py_len (ent_text ent)) →
              ∃ added,
                char_entity_loop fuel text entities (char_i + 1) entity_i'
                                 (char_entity ++ [tag])
                = Some (Ok (char_entity ++ added)) ∧
                py_len added = py_len text - char_i ∧
                ∀ (k : nat) (tag : str), added !! k = Some tag →
                  tag = [] ∨
                  ∃ ent, ent ∈ entities ∧ tag = ent_type ent ∧
                         ent_start ent ≤ char_i + Z.of_nat k
                         < ent_start ent + py_len (ent_text ent)).
    { intros entity_i' tag He' Hmono Htag.
      destruct (IH (char_i + 1) entity_i' (char_entity ++ [tag]))
        as (added & Hrun & Hlen & Hcover); [lia|lia|lia|].
      exists (tag :: added). rewrite Hrun, <-(assoc_L (++)).
      split; [done|]. split; [unfold py_len in *; simpl; lia|].
      intros [|k] tag' Hk; simpl in Hk.
      - injection Hk as <-. by rewrite Z.add_0_r.
      - destruct (Hcover k tag' Hk) as [?|(ent & ? & ? & ?)]; [by left|].
        right. exists ent. repeat split; try done; lia. }
    destruct (Z.eqb_spec entity_i (py_len entities)) as [Hend|Hnot].
    { apply Hstep; [lia|lia|by left]. }
    destruct (py_index_in_range entities entity_i) as [ent Hent]; [lia|].
    rewrite Hent.
    assert (ent ∈ entities) as Hin.
    { rewrite py_index_nonneg in Hent by lia. by eapply list_elem_of_lookup_2. }
    destruct (Z.ltb_spec char_i (ent_start ent)) as [Hbefore|Hafter].
    { apply Hstep; [lia|lia|by left]. }
    destruct (Z.leb_spec (ent_start ent) char_i) as [_|?]; [|lia].
    destruct (Z.ltb_spec char_i (ent_start ent + py_len (ent_text ent)))
      as [Hinside|Hpast]; cbn [andb].
    { apply Hstep; [lia|lia|]. right. exists ent. repeat split; try done; lia. }
    destruct (IH char_i (entity_i + 1) char_entity)
      as (added & Hrun & Hlen & Hcover); [lia|lia|lia|].
    by exists added.
Qed.

End tag_facts.

(** X27. The loop that tags the characters of a text ends after at most
    [len(text) + len(entities)] iterations, whatever the entities are, and
    leaves exactly one tag for each character; a tag that is not empty is
    the tag of an entity whose span [start .. start + len(text of the
    entity) - 1] holds the character. *)
Theorem every_character_is_tagged (fuel : nat) (text : str)
    (entities : list TextFeatures.entity) :
  (length text + length entities ≤ fuel)%nat →
  ∃ tags,
    TextFeatures.new_char_entity fuel text entities = Some (Ok tags) ∧
    length tags = length text ∧
    ∀ (k : nat) (tag : str), tags !! k = Some tag →
      tag = [] ∨
      ∃ ent, ent ∈ entities ∧
             tag = TextFeatures.short_tag (TextFeatures.ent_type ent) ∧
             TextFeatures.ent_start ent ≤ Z.of_nat k
             < TextFeatures.ent_start ent + py_len (TextFeatures.ent_text ent).
Proof.
  intros Hfuel. unfold TextFeatures.new_char_entity.
  destruct (char_entity_loop_Ok fuel text entities 0 0 [])
    as (added & -> & Hlen & Hcover); [unfold py_len; lia..|].
  simpl. exists (TextFeatures.short_tag <$> added).
  split; [done|]. split; [rewrite length_fmap; unfold py_len in Hlen; lia|].
  intros k tag Hk. rewrite list_lookup_fmap in Hk.
  destruct (added !! k) as [tag0|] eqn:E; [|done]. injection Hk as <-.
  destruct (Hcover k tag0 E) as [->|(ent & ? & -> & ?)]; [by left|].
  right. by exists ent.
Qed.

Lemma every_character_is_tagged_witness :
  ∃ tags,
    TextFeatures.new_char_entity 3 (lit "ab")
      [TextFeatures.Entity 1 2 (lit "time") (lit "b")] = Some (Ok tags) ∧
    length tags = length (lit "ab") ∧
    ∀ (k : nat) (tag : str), tags !! k = Some tag →
      tag = [] ∨
      ∃ ent, ent ∈ [TextFeatures.Entity 1 2 (lit "time") (lit "b")] ∧
             tag = TextFeatures.short_tag (TextFeatures.ent_type ent) ∧
             TextFeatures.ent_start ent ≤ Z.of_nat k
             < TextFeatures.ent_start ent + py_len (TextFeatures.ent_text ent).
Proof.
  apply (every_character_is_tagged 3 (lit "ab")
           [TextFeatures.Entity 1 2 (lit "time") (lit "b")]).
  simpl. lia.
Defined.

Example tagged_characters :
  TextFeatures.new_char_entity 3 (lit "ab")
    [TextFeatures.Entity 1 2 (lit "time") (lit "b")]
  = Some (Ok [[]; lit "T"]).
Proof. reflexivity. Qed.

(** ** The resolver: labels and supporting paragraphs *)

Section inside_facts.
Context `{Runtime}.

(** A label lies inside the supporting paragraph it was located in. *)
Lemma fragment_label_inside (id : Z) (answer_str content : str)
    (paras : list sup_para) (d s e : Z) :
  Forall (entry_slice content) paras →
  fragment_label id answer_str paras = Ok (Some (d, s, e)) →
  d = id - 1 ∧ ∃ p, p ∈ paras ∧ p.1.2 ≤ s ∧ s ≤ e ∧ e ≤ p.2.
Proof.
  intros Hok. unfold fragment_label.
  destruct (best_match_inv answer_str paras)
    as [(-> & _)|(i & p & Hi & Hp & Hf & Hpos & _)]; [done|].
  set (b := best_match answer_str paras) in *.
  pose proof (find_best_match_index_located answer_str p.1.1) as Hloc.
  rewrite Hf in Hloc.
  destruct (negb _ && negb _) eqn:Hc; [|done].
  rewrite Hi; simpl. rewrite Hp; simpl. intros [= <- <- <-].
  split; [done|]. exists p. split; [by eapply list_elem_of_lookup_2|].
  apply andb_true_iff in Hc as [Hs%negb_true_iff%Z.eqb_neq He%negb_true_iff%Z.eqb_neq].
  destruct Hloc as [(? & _)|[(_ & ? & _)|(Hls & Hle & Hlen & _)]]; [done..|].
  rewrite Forall_forall in Hok.
  destruct (Hok p) as [Htext Hshape]; [by eapply list_elem_of_lookup_2|].
  destruct Hshape as [(Hs0 & He0)|[(Hs0 & He0)|(Hs0 & Hse0 & He0)]].
  - rewrite Htext, Hs0, He0, py_slice_not_found in Hlen.
    unfold py_len in Hlen. simpl in Hlen. lia.
  - rewrite Htext, Hs0, He0, py_slice_zero in Hlen.
    unfold py_len in Hlen. simpl in Hlen. lia.
  - rewrite Htext in Hlen. rewrite py_slice_length in Hlen by lia. lia.
Qed.

Lemma label_json_inj (l1 l2 : list label) :
  label_json <$> l1 = label_json <$> l2 → l1 = l2.
Proof.
  intros Heq. pose proof (map_result_as_label l1) as H1.
  rewrite Heq, map_result_as_label in H1. by injection H1.
Qed.

End inside_facts.

(** X28. Answers are located inside the supporting paragraphs only: after a
    run on a sample whose answer has a document id, every label [(d, s, e)]
    of [answer_labels] lies within the offsets of one of the supporting
    paragraphs stored for document [d + 1]. *)
Theorem labels_inside_supporting_paragraphs `{Runtime}
    (sample sample' : gmap string json) (answer : str)
    (labels : list (Z * Z * Z)) (d s e : Z) :
  sample !! "answer" = Some (JStr answer) →
  gen_mrc_dataset sample = Ok sample' →
  find_answer_in_docid answer ≠ [] →
  sample' !! "answer_labels" = Some (JList (label_json <$> labels)) →
  (d, s, e) ∈ labels →
  ∃ s1 sp sup paras (p : str * Z * Z),
    concat_documents sample = Ok s1 ∧
    s1 !! "supporting_paragraph" = Some (JStr sp) ∧
    build_supported_paras s1 sp = Ok sup ∧
    sup !! (d + 1) = Some paras ∧ p ∈ paras ∧
    p.1.2 ≤ s ∧ s ≤ e ∧ e ≤ p.2.
Proof.
  intros Ha Hrun Hids Hlabels Hin.
  destruct (gen_mrc_dataset_answer _ _ _ Ha Hrun)
    as (s1 & sp & sup & texts & labels' & Hs1 & Hsp & Hsup & Hlab).
  pose proof (build_supported_paras_slices _ _ _ Hsup) as Hslices.
  apply doc_loop_Ok in Hlab as (per_doc & Hper & Hcat & _ & _ & Hwritten).
  destruct (Hwritten Hids) as (fakes & _ & Hl & _).
  rewrite Hlabels in Hl. injection Hl as Hl. apply label_json_inj in Hl as ->.
  simpl in Hcat. rewrite Hcat in Hin.
  apply list_elem_of_In, in_concat in Hin as (l & Hl & Hin).
  apply list_elem_of_In in Hl, Hin.
  apply list_elem_of_lookup_1 in Hl as [i Hi].
  destruct (Forall2_lookup_r _ _ _ _ _ Hper Hi) as (id & _ & paras & t & Hparas & Hloop).
  apply answer_loop_labels in Hloop. rewrite Forall_forall in Hloop.
  destruct (Hloop _ Hin) as [a Hfrag].
  destruct (Hslices id paras Hparas) as (_ & content & _ & Hentries).
  destruct (fragment_label_inside _ _ _ _ _ _ _ Hentries Hfrag) as (-> & p & Hp & ?).
  exists s1, sp, sup, paras, p. replace (id - 1 + 1) with id by lia. done.
Qed.

Lemma labels_inside_supporting_paragraphs_witness :
  ∃ s1 sp sup paras (p : str * Z * Z),
    concat_documents Demo.two_documents = Ok s1 ∧
    s1 !! "supporting_paragraph" = Some (JStr sp) ∧
    build_supported_paras s1 sp = Ok sup ∧
    sup !! (1 + 1) = Some paras ∧ p ∈ paras ∧
    p.1.2 ≤ 0 ∧ 0 ≤ 1 ∧ 1 ≤ p.2.
Proof.
  apply (labels_inside_supporting_paragraphs Demo.two_documents
           (Demo.output (gen_mrc_dataset Demo.two_documents))
           (lit "@content1@" ++ Demo.beijing ++ lit "@content1@"
            ++ lit "@content2@" ++ Demo.shanghai ++ lit "@content2@")
           [(0, 0, 1); (1, 0, 1)] 1 0 1).
  - reflexivity.
  - vm_compute. reflexivity.
  - vm_compute. discriminate.
  - vm_compute. reflexivity.
  - apply elem_of_cons. right. apply list_elem_of_singleton. reflexivity.
Defined.
